(** * A shallow embedding of the [log] package of nekrassov01/logger

  The development follows the three source files of the package:
  [color.go] (SGR colour encoder), [style.go] (style model and presets)
  and [handler.go] (the [CLIHandler], a [slog.Handler]).

  Conventions of the embedding:
  - a Go [string] and the contents of a [[]byte] are a Rocq [string]
    (one [ascii] per byte);
  - a slice whose nil-ness the code or [reflect.DeepEqual] can observe is
    an [option]; [None] is the nil slice;
  - Go [int], [int64] and [slog.Level] are [Z];
  - objects that the code shares by reference and updates in place
    (handlers, styles, level maps, caller caches, the backing arrays of
    [[]string] slices, pooled buffers) live in an explicit store;
  - functions of the Go standard library and of third-party packages
    (strconv.Quote, runewidth.StringWidth, time formatting, ...) are
    parameters of the sections that use them. *)

From Stdlib Require Import ZArith Lia DecimalString.
From Stdlib Require Import Ascii.
From Stdlib Require String.
From stdpp Require Import base option list gmap strings.

Local Open Scope Z_scope.

(** ** Strings as byte sequences *)

Module Str.

(** The result of writing a space [n] times. *)
Fixpoint spaces (n : nat) : string :=
  match n with
  | O => ""
  | S n' => " " +:+ spaces n'
  end.

(** [strings.ContainsAny(s, chars)]: some byte of [s] is one of [chars].
    (For the ASCII sets the handler uses, bytes and runes coincide.) *)
Fixpoint mem (c : ascii) (chars : string) : bool :=
  match chars with
  | "" => false
  | String d chars' => if Ascii.eqb c d then true else mem c chars'
  end.

Fixpoint ContainsAny (s chars : string) : bool :=
  match s with
  | "" => false
  | String c s' => if mem c chars then true else ContainsAny s' chars
  end.

(** [strconv.AppendInt(nil, v, 10)]: decimal text of a signed integer. *)
Definition FormatInt (v : Z) : string := NilZero.string_of_int (Z.to_int v).

End Str.

(** ** color.go *)

Module Color.

(** [type Color struct { codes []int; prefix []byte; reset []byte }] *)
Record Color : Type := MkColor {
  codes : option (list Z);
  prefix : option string;
  reset : option string;
}.

(** [len] of a possibly nil byte slice. *)
Definition blen (b : option string) : nat :=
  match b with None => O | Some s => String.length s end.

Definition bytes (b : option string) : string := default "" b.

(** The loop of [makeSGR]: codes separated by [';'], [i] is the index
    of the first code of [cs]. *)
Fixpoint sgrCodes (i : nat) (cs : list Z) (b : string) : string :=
  match cs with
  | [] => b
  | code :: cs' =>
      let b := if decide (0 < i)%nat then b +:+ ";" else b in
      sgrCodes (S i) cs' (b +:+ Str.FormatInt code)
  end.

(** [makeSGR]: [nil] for no codes, else ESC [ c1;...;cn m. *)
Definition makeSGR (cs : list Z) : option string :=
  if decide (length cs = 0)%nat then None
  else
    let b := String "027"%char "[" in
    let b := sgrCodes 0 cs b in
    Some (b +:+ "m").

(** [NewColor(codes ...int)]; the variadic argument is a slice that may
    be nil. *)
Definition NewColor (cs : option (list Z)) : Color :=
  if decide (length (default [] cs) = 0)%nat then
    {| codes := None; prefix := None; reset := None |}
  else
    {| codes := cs;
       prefix := makeSGR (default [] cs);
       reset := makeSGR [0] |}.

(** [Color.WriteString(buf, s)] on a [*Color] receiver; [c = None] is
    the nil receiver.
    The buffer is passed and returned by its contents. *)
Definition WriteString (c : option Color) (buf : string) (s : string) : string :=
  let buf :=
    match c with
    | Some c' => if decide (0 < blen (prefix c'))%nat then buf +:+ bytes (prefix c') else buf
    | None => buf
    end in
  let buf := if decide (s ≠ "") then buf +:+ s else buf in
  match c with
  | Some c' => if decide (0 < blen (reset c'))%nat then buf +:+ bytes (reset c') else buf
  | None => buf
  end.

(** [Color.WriteBytes(buf, b)]; only [len(b)] and the contents of
    [b] are used. *)
Definition WriteBytes (c : option Color) (buf : string) (b : string) : string :=
  let buf :=
    match c with
    | Some c' => if decide (0 < blen (prefix c'))%nat then buf +:+ bytes (prefix c') else buf
    | None => buf
    end in
  let buf := if decide (0 < String.length b)%nat then buf +:+ b else buf in
  match c with
  | Some c' => if decide (0 < blen (reset c'))%nat then buf +:+ bytes (reset c') else buf
  | None => buf
  end.

(** A colour that writes no escape sequence: nil, or without prefix and
    reset bytes. *)
Definition plain (c : option Color) : Prop :=
  match c with
  | None => True
  | Some c' => blen (prefix c') = O ∧ blen (reset c') = O
  end.

(** The SGR constants the presets use. *)
Definition Bold : Z := 1.
Definition Underline : Z := 4.
Definition FgHiBlack : Z := 90.
Definition FgHiRed : Z := 91.
Definition FgHiGreen : Z := 92.
Definition FgHiYellow : Z := 93.
Definition FgHiMagenta : Z := 95.

End Color.

(** ** style.go: the style structs *)

Module AffixStyle.
(** [type AffixStyle struct { Text string; Color *Color }] *)
Record t : Type := Mk { Text : string; Color : option Color.Color }.
Definition zero : t := {| Text := ""; Color := None |}.
End AffixStyle.

Module LevelStyle.
Record t : Type := Mk {
  Prefix : AffixStyle.t;
  Suffix : AffixStyle.t;
  Text : string;
  Color : option Color.Color;
  Width : Z;
}.
(** The zero value, which a Go map read yields for a missing key. *)
Definition zero : t :=
  {| Prefix := AffixStyle.zero; Suffix := AffixStyle.zero;
     Text := ""; Color := None; Width := 0 |}.
End LevelStyle.

Module LabelStyle.
Record t : Type := Mk {
  Prefix : AffixStyle.t;
  Suffix : AffixStyle.t;
  Color : option Color.Color;
  Width : Z;
}.
Definition zero : t :=
  {| Prefix := AffixStyle.zero; Suffix := AffixStyle.zero;
     Color := None; Width := 0 |}.
End LabelStyle.

Module AttrStyle.
Record t : Type := Mk {
  KeyColor : option Color.Color;
  ValueColor : option Color.Color;
  Separator : string;
}.
Definition zero : t :=
  {| KeyColor := None; ValueColor := None; Separator := "" |}.
End AttrStyle.

Module CallerStyle.
(** The handler reads the last field as [caller.Path]. *)
Record t : Type := Mk {
  Prefix : AffixStyle.t;
  Suffix : AffixStyle.t;
  Color : option Color.Color;
  Fullpath : bool;
}.
Definition zero : t :=
  {| Prefix := AffixStyle.zero; Suffix := AffixStyle.zero;
     Color := None; Fullpath := false |}.
End CallerStyle.

(** Addresses of heap objects. Every kind of object has its own heap, a
    list indexed by address; objects are never freed. *)
Abbreviation loc := nat (only parsing).

Module Heap.
Section heap.
Context {A : Type}.

(** Allocation returns the next unused address. *)
Definition alloc (h : list A) (x : A) : loc * list A :=
  (length h, h ++ [x]).

End heap.
End Heap.

Module Style.
(** [type Style struct { Level map[slog.Level]LevelStyle; Label; Attr;
    Caller }]. A Go map is a reference: [Level] is the address of the
    map object, or [None] for the nil map. *)
Record t : Type := Mk {
  Level : option loc;
  Label : LabelStyle.t;
  Attr : AttrStyle.t;
  Caller : CallerStyle.t;
}.
Definition zero : t :=
  {| Level := None; Label := LabelStyle.zero; Attr := AttrStyle.zero;
     Caller := CallerStyle.zero |}.
End Style.

(** [slog.Level] and its four named values. *)
Definition Level : Type := Z.
Definition LevelDebug : Level := -4.
Definition LevelInfo : Level := 0.
Definition LevelWarn : Level := 4.
Definition LevelError : Level := 8.

(** ** The parts of log/slog the handler works with *)

(** [slog.Value] by kind, and [slog.Attr]. A float is kept as its IEEE
  bit pattern, a time as an opaque instant, a duration as nanoseconds;
  a value of any other kind (KindAny, KindLogValuer) is kept as the
  text its [String] method returns. *)
Inductive Value : Type :=
  | StringValue (s : string)
  | Int64Value (n : Z)
  | Uint64Value (n : Z)
  | Float64Value (bits : Z)
  | BoolValue (b : bool)
  | TimeValue (t : Z)
  | DurationValue (d : Z)
  | GroupValue (attrs : list Attr)
  | AnyValue (text : string)
with Attr : Type :=
  | MkAttr (Key : string) (Val : Value).

Definition Key (a : Attr) : string := let 'MkAttr k _ := a in k.
Definition Val (a : Attr) : Value := let 'MkAttr _ v := a in v.

(** [slog.String], [slog.Group]: the constructors the tests use. *)
Definition String_ (k v : string) : Attr := MkAttr k (StringValue v).
Definition Group (k : string) (attrs : list Attr) : Attr :=
  MkAttr k (GroupValue attrs).

Module Record.
(** [slog.Record]; [attrs] is the sequence [r.Attrs] iterates over. *)
Record t : Type := Mk {
  Time : Z;
  Message : string;
  Level : Level;
  PC : Z;
  attrs : list Attr;
}.

(** The record with other attributes. *)
Definition withAttrs (attrs' : list Attr) (r : t) : t :=
  {| Time := Time r; Message := Message r; Level := Level r; PC := PC r;
     attrs := attrs' |}.
End Record.

(** An [io.Writer] as the handler sees it: [io.Discard], an [*os.File],
  a file wrapped by [colorable.NewColorable], or any other writer. *)
Inductive Writer : Type :=
  | Discard
  | File (fd : nat)
  | Colorable (fd : nat)
  | Other (id : nat).

(** A [[]string] slice header. Every slice of the package starts at the
  first cell of its backing array, so the capacity is the length of the
  array and the header keeps the array address and the length. *)
Record Slice : Type := MkSlice { arr : loc; len : nat }.

Module CLIHandler.
(** [type CLIHandler struct]. [level], [attrHandler], [groups] and
    [groupsCache], which the code tests against nil, are options. The
    writer, the mutex, the caller cache and the style, which
    [NewCLIHandler] always sets and the methods use without a test, are
    plain values: a handler with one of them nil, which only a struct
    literal inside the package can build, is not represented. [attrs] and
    [attrsCache] are never written after they are built and are kept by
    value. *)
Record t : Type := Mk {
  w : Writer;
  mu : loc;
  level : option Level;
  prefix : string;
  attrs : list Attr;
  attrsCache : option string;
  attrHandler : option (Attr → Attr);
  groups : option Slice;
  groupsCache : option Slice;
  pcCache : loc;
  hasCaller : bool;
  hasTime : bool;
  timeLayout : string;
  style : loc;
}.
End CLIHandler.

(** ** The store *)

Module Store.
(** - [levelMaps]: the [map[slog.Level]LevelStyle] objects;
    - [styles]: the [Style] objects handed around as [*Style];
    - [strArrays]: the backing arrays of [[]string] slices;
    - [pcCaches]: the [map[uintptr][]byte] caller caches;
    - [handlers]: the [CLIHandler] objects handed around as pointers;
    - [mutexes]: how many [sync.Mutex] objects exist;
    - [poolFree]: the contents of the buffers idle in [bufPool];
    - [poolOut]: how many buffers are taken from the pool and not yet
      put back. *)
Record t : Type := Mk {
  levelMaps : list (gmap Z LevelStyle.t);
  styles : list Style.t;
  strArrays : list (list string);
  pcCaches : list (gmap Z string);
  handlers : list CLIHandler.t;
  mutexes : nat;
  poolFree : list string;
  poolOut : nat;
}.

Definition empty : t :=
  {| levelMaps := []; styles := []; strArrays := []; pcCaches := [];
     handlers := []; mutexes := 0; poolFree := []; poolOut := 0 |}.

Definition set_levelMaps (x : list (gmap Z LevelStyle.t)) (σ : t) : t :=
  {| levelMaps := x; styles := styles σ; strArrays := strArrays σ;
     pcCaches := pcCaches σ; handlers := handlers σ;
     mutexes := mutexes σ; poolFree := poolFree σ; poolOut := poolOut σ |}.
Definition set_styles (x : list Style.t) (σ : t) : t :=
  {| levelMaps := levelMaps σ; styles := x; strArrays := strArrays σ;
     pcCaches := pcCaches σ; handlers := handlers σ;
     mutexes := mutexes σ; poolFree := poolFree σ; poolOut := poolOut σ |}.
Definition set_strArrays (x : list (list string)) (σ : t) : t :=
  {| levelMaps := levelMaps σ; styles := styles σ; strArrays := x;
     pcCaches := pcCaches σ; handlers := handlers σ;
     mutexes := mutexes σ; poolFree := poolFree σ; poolOut := poolOut σ |}.
Definition set_pcCaches (x : list (gmap Z string)) (σ : t) : t :=
  {| levelMaps := levelMaps σ; styles := styles σ; strArrays := strArrays σ;
     pcCaches := x; handlers := handlers σ;
     mutexes := mutexes σ; poolFree := poolFree σ; poolOut := poolOut σ |}.
Definition set_handlers (x : list CLIHandler.t) (σ : t) : t :=
  {| levelMaps := levelMaps σ; styles := styles σ; strArrays := strArrays σ;
     pcCaches := pcCaches σ; handlers := x;
     mutexes := mutexes σ; poolFree := poolFree σ; poolOut := poolOut σ |}.
Definition set_mutexes (x : nat) (σ : t) : t :=
  {| levelMaps := levelMaps σ; styles := styles σ; strArrays := strArrays σ;
     pcCaches := pcCaches σ; handlers := handlers σ;
     mutexes := x; poolFree := poolFree σ; poolOut := poolOut σ |}.
Definition set_pool (free : list string) (out : nat) (σ : t) : t :=
  {| levelMaps := levelMaps σ; styles := styles σ; strArrays := strArrays σ;
     pcCaches := pcCaches σ; handlers := handlers σ;
     mutexes := mutexes σ; poolFree := free; poolOut := out |}.
End Store.

(** ** style.go: constructors, options and [Clone] *)

Module StyleOps.
Import Store.

(** [make(map[slog.Level]LevelStyle)] and map literals: a new map
    object with the given entries. *)
Definition newLevelMap (m : gmap Z LevelStyle.t) (σ : Store.t) : loc * Store.t :=
  let '(l, h) := Heap.alloc (levelMaps σ) m in (l, set_levelMaps h σ).

(** [&Style{...}]: a new style object. *)
Definition newStyle (s : Style.t) (σ : Store.t) : loc * Store.t :=
  let '(l, h) := Heap.alloc (styles σ) s in (l, set_styles h σ).

(** Reading a map object; a nil map reads as the empty map. *)
Definition levelMapOf (σ : Store.t) (m : option loc) : gmap Z LevelStyle.t :=
  match m with
  | None => ∅
  | Some l => default ∅ (levelMaps σ !! l)
  end.

(** [m[k]] on a level map: the zero value for a missing key. *)
Definition levelAt (σ : Store.t) (m : option loc) (k : Level) : LevelStyle.t :=
  default LevelStyle.zero (levelMapOf σ m !! k).

(** [m[k] = v] and [delete(m, k)] on the map object at [l]. *)
Definition mapAssign (l : loc) (k : Level) (v : LevelStyle.t) (σ : Store.t) : Store.t :=
  set_levelMaps (alter (insert k v) l (levelMaps σ)) σ.
Definition mapDelete (l : loc) (k : Level) (σ : Store.t) : Store.t :=
  set_levelMaps (alter (delete k) l (levelMaps σ)) σ.

(** [maps.Copy(dst, src)]: every entry of [src] is assigned into the
    map object [dst]; entries of [dst] under other keys stay. *)
Definition mapsCopy (dst : loc) (src : gmap Z LevelStyle.t) (σ : Store.t) : Store.t :=
  set_levelMaps (alter (λ d, src ∪ d) dst (levelMaps σ)) σ.

Definition readStyle (σ : Store.t) (p : loc) : Style.t :=
  default Style.zero (styles σ !! p).

Definition lvl (text : string) (c : option Color.Color) (width : Z) : LevelStyle.t :=
  {| LevelStyle.Prefix := AffixStyle.zero; LevelStyle.Suffix := AffixStyle.zero;
     LevelStyle.Text := text; LevelStyle.Color := c; LevelStyle.Width := width |}.

(** [Style0()]: the preset without colours. *)
Definition Style0 (σ : Store.t) : loc * Store.t :=
  let '(m, σ) :=
    newLevelMap
      (<[LevelDebug := lvl "[DBG]" None 0]>
       (<[LevelInfo := lvl "[INF]" None 0]>
        (<[LevelWarn := lvl "[WRN]" None 0]>
         (<[LevelError := lvl "[ERR]" None 0]> ∅)))) σ in
  newStyle
    {| Style.Level := Some m;
       Style.Label := LabelStyle.zero;
       Style.Attr :=
         {| AttrStyle.KeyColor := None; AttrStyle.ValueColor := None;
            AttrStyle.Separator := "=" |};
       Style.Caller :=
         {| CallerStyle.Prefix := {| AffixStyle.Text := "<"; AffixStyle.Color := None |};
            CallerStyle.Suffix := {| AffixStyle.Text := ">"; AffixStyle.Color := None |};
            CallerStyle.Color := None;
            CallerStyle.Fullpath := false |} |} σ.

Definition color (cs : list Z) : option Color.Color :=
  Some (Color.NewColor (Some cs)).

(** [Style1()]: basic foreground colours, the handler's default. *)
Definition Style1 (σ : Store.t) : loc * Store.t :=
  let '(m, σ) :=
    newLevelMap
      (<[LevelDebug := lvl "DBG" (color [Color.Bold; Color.FgHiMagenta]) 0]>
       (<[LevelInfo := lvl "INF" (color [Color.Bold; Color.FgHiGreen]) 0]>
        (<[LevelWarn := lvl "WRN" (color [Color.Bold; Color.FgHiYellow]) 0]>
         (<[LevelError := lvl "ERR" (color [Color.Bold; Color.FgHiRed]) 0]> ∅)))) σ in
  newStyle
    {| Style.Level := Some m;
       Style.Label :=
         {| LabelStyle.Prefix := AffixStyle.zero; LabelStyle.Suffix := AffixStyle.zero;
            LabelStyle.Color := color [Color.FgHiBlack; Color.Bold];
            LabelStyle.Width := 0 |};
       Style.Attr :=
         {| AttrStyle.KeyColor := color [Color.FgHiBlack];
            AttrStyle.ValueColor := None;
            AttrStyle.Separator := "=" |};
       Style.Caller :=
         {| CallerStyle.Prefix :=
              {| AffixStyle.Text := "<"; AffixStyle.Color := color [Color.FgHiBlack] |};
            CallerStyle.Suffix :=
              {| AffixStyle.Text := ">"; AffixStyle.Color := color [Color.FgHiBlack] |};
            CallerStyle.Color := color [Color.FgHiBlack; Color.Underline];
            CallerStyle.Fullpath := false |} |} σ.

(** [*s = v] for a style pointer. *)
Definition writeStyle (p : loc) (s : Style.t) (σ : Store.t) : Store.t :=
  set_styles (<[p := s]> (styles σ)) σ.

(** [type StyleOption func(s *Style)]: an option updates the style object
    it is given. *)
Definition StyleOption : Type := loc → Store.t → Store.t.

(** [NewStyle(opts...)]: [Style0()] with the options applied in order. *)
Definition NewStyle (opts : list StyleOption) (σ : Store.t) : loc * Store.t :=
  let '(s, σ) := Style0 σ in
  (s, fold_left (λ σ opt, opt s σ) opts σ).

(** [WithLevelStyle(levels)]: merges [levels] into the style's level
    map, creating the map when it is nil. *)
Definition WithLevelStyle (levels : option loc) : StyleOption :=
  λ s σ,
    let st := readStyle σ s in
    let '(m, σ) :=
      match Style.Level st with
      | Some m => (m, σ)
      | None =>
          let '(m, σ) := newLevelMap ∅ σ in
          (m, writeStyle s
                {| Style.Level := Some m; Style.Label := Style.Label st;
                   Style.Attr := Style.Attr st; Style.Caller := Style.Caller st |} σ)
      end in
    mapsCopy m (levelMapOf σ levels) σ.

Definition WithLabelStyle (label : LabelStyle.t) : StyleOption :=
  λ s σ,
    let st := readStyle σ s in
    writeStyle s
      {| Style.Level := Style.Level st; Style.Label := label;
         Style.Attr := Style.Attr st; Style.Caller := Style.Caller st |} σ.

Definition WithAttrStyle (attr : AttrStyle.t) : StyleOption :=
  λ s σ,
    let st := readStyle σ s in
    writeStyle s
      {| Style.Level := Style.Level st; Style.Label := Style.Label st;
         Style.Attr := attr; Style.Caller := Style.Caller st |} σ.

Definition WithCallerStyle (caller : CallerStyle.t) : StyleOption :=
  λ s σ,
    let st := readStyle σ s in
    writeStyle s
      {| Style.Level := Style.Level st; Style.Label := Style.Label st;
         Style.Attr := Style.Attr st; Style.Caller := caller |} σ.

(** [Style.Clone]: nil for the nil receiver; else a copy [n := *s] whose
    level map, when [s] has one, is a new map object filled by
    [maps.Copy]; the result is the address of the copy. *)
Definition Clone (s : option loc) (σ : Store.t) : option loc * Store.t :=
  match s with
  | None => (None, σ)
  | Some p =>
      let n := readStyle σ p in
      let '(n, σ) :=
        match Style.Level n with
        | Some m =>
            let '(m', σ) := newLevelMap ∅ σ in
            let σ := mapsCopy m' (levelMapOf σ (Some m)) σ in
            ({| Style.Level := Some m'; Style.Label := Style.Label n;
                Style.Attr := Style.Attr n; Style.Caller := Style.Caller n |}, σ)
        | None => (n, σ)
        end in
      let '(p', σ) := newStyle n σ in
      (Some p', σ)
  end.

End StyleOps.

(** ** Go integers *)

Module Int.
(** Go [int] on the 64-bit platforms: the result of an operation is
    reduced to the signed 64-bit range. *)
Definition min_int : Z := - 2 ^ 63.
Definition max_int : Z := 2 ^ 63 - 1.
Definition wrap (z : Z) : Z := (z + 2 ^ 63) mod 2 ^ 64 - 2 ^ 63.
Definition sub (a b : Z) : Z := wrap (a - b).
(** [a / b] truncates toward zero. *)
Definition div (a b : Z) : Z := wrap (Z.quot a b).
Definition in_range (z : Z) : Prop := min_int ≤ z ≤ max_int.
End Int.

(** ** handler.go: slices of strings *)

Module Strings.
Import Store.

(** The backing array of a slice, and [cap]. *)
Definition arrayOf (σ : Store.t) (s : Slice) : list string :=
  default [] (strArrays σ !! arr s).
Definition cap (σ : Store.t) (s : Slice) : nat := length (arrayOf σ s).

(** [len(s)] and the elements [s[0], ..., s[len(s)-1]] of a slice that may
    be nil. *)
Definition slen (s : option Slice) : nat :=
  match s with None => O | Some s => len s end.
Definition elems (σ : Store.t) (s : option Slice) : list string :=
  match s with
  | None => []
  | Some s => take (len s) (arrayOf σ s)
  end.

(** [make([]string, n, c)]: a new array of [c] empty strings. *)
Definition make (n c : nat) (σ : Store.t) : Slice * Store.t :=
  let '(l, h) := Heap.alloc (strArrays σ) (replicate c "") in
  (MkSlice l n, set_strArrays h σ).

(** [s = s[:len(s)+1]; s[len(s)-1] = x], taken when [len(s) < cap(s)]:
    the cell after the last element is overwritten in place. *)
Definition extendInPlace (s : Slice) (x : string) (σ : Store.t) : Slice * Store.t :=
  (MkSlice (arr s) (S (len s)),
   set_strArrays (alter (λ a, <[len s := x]> a) (arr s) (strArrays σ)) σ).

Section growth.
(** How many cells beyond the needed ones the runtime gives an array that
    [append] has to allocate, from the old capacity and the needed
    length. *)
Variable slack : nat → nat → nat.

(** [append(s, xs...)]: in place when the capacity suffices, else into a
    new array; appending nothing to a nil slice gives nil. *)
Definition append (s : option Slice) (xs : list string) (σ : Store.t)
  : option Slice * Store.t :=
  let need := (slen s + length xs)%nat in
  let grow (old : nat) :=
    let '(l, h) :=
      Heap.alloc (strArrays σ)
        (elems σ s ++ xs ++ replicate (slack old need) "") in
    (Some (MkSlice l need), set_strArrays h σ) in
  match s with
  | Some sl =>
      if decide (need ≤ cap σ sl)%nat then
        (Some (MkSlice (arr sl) need),
         set_strArrays
           (alter (λ a, take (len sl) a ++ xs ++ drop need a) (arr sl) (strArrays σ)) σ)
      else grow (cap σ sl)
  | None =>
      if decide (length xs = 0)%nat then (None, σ) else grow O
  end.
End growth.
End Strings.

(** ** handler.go *)

(** What [runtime.FuncForPC] and [Func.FileLine] tell about a program
    counter. *)
Module FuncInfo.
Record t : Type := Mk { Name : string; File : string; Line : Z }.
End FuncInfo.

(** The error values [Handle] returns. *)
Inductive Error : Type :=
  | ErrUnknownLevel
  | ErrWrite (msg : string).

Module Handler.
Import Store Strings.

Definition tab : ascii := "009"%char.
Definition newline : ascii := "010"%char.
Definition backslash : ascii := "092"%char.
Definition dquote : ascii := "034"%char.

(** [time.RFC3339] *)
Definition RFC3339 : string := "2006-01-02T15:04:05Z07:00".

(** [bufPool.Get()]: an idle buffer when there is one, else a new empty
    buffer; the buffer is passed around by its contents. *)
Definition poolGet (σ : Store.t) : string * Store.t :=
  match poolFree σ with
  | b :: free => (b, set_pool free (S (poolOut σ)) σ)
  | [] => ("", set_pool [] (S (poolOut σ)) σ)
  end.

(** [bufPool.Put(buf)] *)
Definition poolPut (b : string) (σ : Store.t) : Store.t :=
  set_pool (b :: poolFree σ) (pred (poolOut σ)) σ.

(** [setColorable] *)
Definition setColorable (w : option Writer) : Writer :=
  match w with
  | None => Discard
  | Some (File fd) => Colorable fd
  | Some w => w
  end.

(** [for range n { buf.WriteString(" ") }] *)
Fixpoint writeSpaces (n : nat) (buf : string) : string :=
  match n with
  | O => buf
  | S n' => writeSpaces n' (buf +:+ " ")
  end.

Section handler.
(** [runewidth.StringWidth] *)
Variable StringWidth : string → Z.
(** [strconv.Quote] *)
Variable Quote : string → string.
(** [Time.AppendFormat] into an empty slice, from the instant and the
    layout *)
Variable FormatTime : Z → string → string.
(** [strconv.AppendFloat(nil, f, 'g', -1, 64)] *)
Variable FormatFloat : Z → string.
(** [Duration.String] *)
Variable FormatDuration : Z → string.
(** [runtime.FuncForPC]; [None] is the nil [*Func] *)
Variable FuncForPC : Z → option FuncInfo.t.
(** the growth policy of [append] *)
Variable slack : nat → nat → nat.
(** The world outside the program that writers write to, and
    [Writer.Write] on it: the new world and the error, if any. *)
Variable World : Type.
Variable Write : Writer → string → World → World * option string.

(** [align(buf, s, w)] *)
Definition align (buf : string) (s : string) (w : Z) : string :=
  if decide (0 < w) then
    let c := StringWidth s in
    let p := Int.sub w c in
    if decide (0 < p) then
      let lp := Int.div p 2 in
      let rp := Int.sub p lp in
      let buf := writeSpaces (Z.to_nat lp) buf in
      let buf := buf +:+ s in
      writeSpaces (Z.to_nat rp) buf
    else buf +:+ s
  else buf +:+ s.

(** The loop of [writeAttr] over the group names: each name, and a dot
    after every name but the last. *)
Fixpoint writeGroupPath (kc : option Color.Color) (i : nat) (n : nat)
    (gs : list string) (buf : string) : string :=
  match gs with
  | [] => buf
  | key :: gs' =>
      let buf := Color.WriteString kc buf key in
      let buf :=
        if decide (Z.of_nat i < Z.of_nat n - 1)
        then Color.WriteString kc buf "." else buf in
      writeGroupPath kc (S i) n gs' buf
  end.

(** The [switch v.Kind()] of [writeAttr]. *)
Definition writeValue (vc : option Color.Color) (timeLayout : string)
    (v : Value) (buf : string) : string :=
  match v with
  | StringValue s =>
      if Str.ContainsAny s (String " " (String tab (String newline "")))
         || Str.ContainsAny s (String backslash (String dquote ""))
      then Color.WriteString vc buf (Quote s)
      else Color.WriteString vc buf s
  | Int64Value n => Color.WriteBytes vc buf (Str.FormatInt n)
  | Uint64Value n => Color.WriteBytes vc buf (Str.FormatInt n)
  | Float64Value f => Color.WriteBytes vc buf (FormatFloat f)
  | BoolValue b =>
      if b then Color.WriteString vc buf "true"
      else Color.WriteString vc buf "false"
  | TimeValue t => Color.WriteBytes vc buf (FormatTime t timeLayout)
  | DurationValue d => Color.WriteString vc buf (FormatDuration d)
  | AnyValue text => Color.WriteString vc buf text
  | GroupValue _ => buf
  end.

(** The part of [writeAttr] for an attribute that is not a group: the
    group path, the key, the separator and the value. *)
Definition writeScalar (st : Style.t) (timeLayout : string)
    (key : string) (v : Value) (gs : list string) (buf : string) : string :=
  let kc := AttrStyle.KeyColor (Style.Attr st) in
  let vc := AttrStyle.ValueColor (Style.Attr st) in
  let sp := AttrStyle.Separator (Style.Attr st) in
  let buf :=
    if decide (0 < length gs)%nat then
      let buf := writeGroupPath kc 0 (length gs) gs buf in
      Color.WriteString kc buf "."
    else buf in
  let buf := Color.WriteString kc buf key in
  let buf := Color.WriteString kc buf sp in
  writeValue vc timeLayout v buf.

(** The loop of [writeAttr] over the [n] children of a group, from the
    child of index [i] on: each child is written by [write] and, unless
    it is the last one, followed by a space. *)
Fixpoint writeChildren (write : Attr → string → Store.t → string * Store.t)
    (n : nat) (i : nat) (l : list Attr) (buf : string) (σ : Store.t)
    {struct l} : string * Store.t :=
  match l with
  | [] => (buf, σ)
  | a :: l' =>
      let '(buf, σ) := write a buf σ in
      let buf :=
        if decide (Z.of_nat i < Z.of_nat n - 1) then buf +:+ " " else buf in
      writeChildren write n (S i) l' buf σ
  end.

(** [writeAttr(buf, attr, groups, style, timeLayout)]. A group pushes its
    key on [groups], in place when the array has a free cell and through
    [append] otherwise, and writes its children. *)
Fixpoint writeAttr (attr : Attr) (groups : option Slice) (style : loc)
    (timeLayout : string) (buf : string) (σ : Store.t) {struct attr}
  : string * Store.t :=
  let '(groups, σ) :=
    match groups with
    | None => make 0 8 σ
    | Some g => (g, σ)
    end in
  match attr with
  | MkAttr key (GroupValue attrs) =>
      let '(groups, σ) :=
        if decide (len groups < cap σ groups)%nat
        then let '(g, σ) := extendInPlace groups key σ in (Some g, σ)
        else append slack (Some groups) [key] σ in
      writeChildren (λ a, writeAttr a groups style timeLayout)
        (length attrs) O attrs buf σ
  | MkAttr key v =>
      (writeScalar (StyleOps.readStyle σ style) timeLayout key v
         (elems σ (Some groups)) buf, σ)
  end.

(** [Enabled]: a nil [level] enables every level. *)
Definition Enabled (h : CLIHandler.t) (level : Level) : bool :=
  match CLIHandler.level h with
  | None => true
  | Some threshold => bool_decide (threshold ≤ level)
  end.

(** The [switch] on [r.Level] at the head of [Handle]; [None] is its
    [default] case. *)
Definition levelStyleFor (σ : Store.t) (level : option loc) (l : Level)
  : option LevelStyle.t :=
  if decide (l = LevelDebug) then Some (StyleOps.levelAt σ level LevelDebug)
  else if decide (l = LevelInfo) then Some (StyleOps.levelAt σ level LevelInfo)
  else if decide (l = LevelWarn) then Some (StyleOps.levelAt σ level LevelWarn)
  else if decide (LevelError ≤ l) then Some (StyleOps.levelAt σ level LevelError)
  else None.

(** The text [text], aligned through a second pooled buffer when [width]
    is positive. *)
Definition writeAligned (c : option Color.Color) (text : string) (width : Z)
    (buf : string) (σ : Store.t) : string * Store.t :=
  if decide (0 < width) then
    let '(tmp, σ) := poolGet σ in
    let tmp := align tmp text width in
    let buf := Color.WriteBytes c buf tmp in
    (buf, poolPut "" σ)
  else (Color.WriteString c buf text, σ).

Definition writeAffix (a : AffixStyle.t) (buf : string) : string :=
  if decide (AffixStyle.Text a ≠ "")
  then Color.WriteString (AffixStyle.Color a) buf (AffixStyle.Text a)
  else buf.

(** "Add log level" *)
Definition writeLevel (ls : LevelStyle.t) (buf : string) (σ : Store.t)
  : string * Store.t :=
  if decide (LevelStyle.Text ls ≠ "") then
    let buf := writeAffix (LevelStyle.Prefix ls) buf in
    let '(buf, σ) :=
      writeAligned (LevelStyle.Color ls) (LevelStyle.Text ls)
        (LevelStyle.Width ls) buf σ in
    let buf := writeAffix (LevelStyle.Suffix ls) buf in
    (buf +:+ " ", σ)
  else (buf, σ).

(** [writeCaller] *)
Definition writeCaller (buf : string) (b : string) (st : Style.t) : string :=
  let c := Style.Caller st in
  let buf := writeAffix (CallerStyle.Prefix c) buf in
  let buf := Color.WriteBytes (CallerStyle.Color c) buf b in
  let buf := writeAffix (CallerStyle.Suffix c) buf in
  buf +:+ " ".

Definition pcCacheOf (σ : Store.t) (l : loc) : gmap Z string :=
  default ∅ (pcCaches σ !! l).

(** "Add caller": from the cache, or resolved, cached and written. *)
Definition writeCallerPart (h : CLIHandler.t) (r : Record.t)
    (caller : CallerStyle.t) (buf : string) (σ : Store.t) : string * Store.t :=
  if CLIHandler.hasCaller h && bool_decide (Record.PC r ≠ 0) then
    match pcCacheOf σ (CLIHandler.pcCache h) !! Record.PC r with
    | Some b =>
        (writeCaller buf b (StyleOps.readStyle σ (CLIHandler.style h)), σ)
    | None =>
        match FuncForPC (Record.PC r) with
        | Some f =>
            let name :=
              if CallerStyle.Fullpath caller
              then FuncInfo.File f else FuncInfo.Name f in
            if decide (FuncInfo.File f ≠ "") then
              let b := name +:+ ":" +:+ Str.FormatInt (FuncInfo.Line f) in
              let σ :=
                set_pcCaches
                  (alter (insert (Record.PC r) b) (CLIHandler.pcCache h) (pcCaches σ)) σ in
              (writeCaller buf b (StyleOps.readStyle σ (CLIHandler.style h)), σ)
            else (buf, σ)
        | None => (buf, σ)
        end
    end
  else (buf, σ).

(** "Add prefix": the label. *)
Definition writeLabel (h : CLIHandler.t) (label : LabelStyle.t)
    (buf : string) (σ : Store.t) : string * Store.t :=
  if decide (CLIHandler.prefix h ≠ "") then
    let buf := writeAffix (LabelStyle.Prefix label) buf in
    let '(buf, σ) :=
      writeAligned (LabelStyle.Color label) (CLIHandler.prefix h)
        (LabelStyle.Width label) buf σ in
    let buf := writeAffix (LabelStyle.Suffix label) buf in
    (buf +:+ " ", σ)
  else (buf, σ).

(** "Add time" *)
Definition writeTime (h : CLIHandler.t) (r : Record.t) (attr : AttrStyle.t)
    (buf : string) : string :=
  if CLIHandler.hasTime h then
    let buf := buf +:+ " " in
    let buf := Color.WriteString (AttrStyle.KeyColor attr) buf "time" in
    let buf := Color.WriteString (AttrStyle.KeyColor attr) buf (AttrStyle.Separator attr) in
    Color.WriteBytes (AttrStyle.ValueColor attr) buf
      (FormatTime (Record.Time r) (CLIHandler.timeLayout h))
  else buf.

(** The local [groups] of [Handle]: the cached slice cut to length zero,
    or a new one, with the handler's groups appended. *)
Definition handleGroups (h : CLIHandler.t) (σ : Store.t) : option Slice * Store.t :=
  let '(groups, σ) :=
    match CLIHandler.groupsCache h with
    | Some g => (MkSlice (arr g) 0, σ)
    | None => make 0 (slen (CLIHandler.groups h)) σ
    end in
  if decide (0 < slen (CLIHandler.groups h))%nat
  then append slack (Some groups) (elems σ (CLIHandler.groups h)) σ
  else (Some groups, σ).

(** The loop over attached attributes, in [Handle] and in [WithAttrs]. *)
Definition writeAttrs (groups : option Slice) (style : loc) (timeLayout : string)
    (attrs : list Attr) (buf : string) (σ : Store.t) : string * Store.t :=
  fold_left
    (λ '(buf, σ) attr,
       if decide (Key attr = "") then (buf, σ)
       else writeAttr attr groups style timeLayout (buf +:+ " ") σ)
    attrs (buf, σ).

(** The callback [Handle] passes to [r.Attrs]. *)
Definition writeRecordAttrs (h : CLIHandler.t) (groups : option Slice)
    (attrs : list Attr) (buf : string) (σ : Store.t) : string * Store.t :=
  fold_left
    (λ '(buf, σ) attr,
       if decide (Key attr = "") then (buf, σ)
       else
         let attr :=
           match CLIHandler.attrHandler h with
           | Some f => f attr
           | None => attr
           end in
         writeAttr attr groups (CLIHandler.style h) (CLIHandler.timeLayout h)
           (buf +:+ " ") σ)
    attrs (buf, σ).

(** [buf.WriteTo(w)]: one [Write] of the contents, none for an empty
    buffer; [io.Discard] accepts everything. *)
Definition writeTo (w : Writer) (buf : string) (ω : World) : World * option string :=
  if decide (0 < String.length buf)%nat then
    match w with
    | Discard => (ω, None)
    | _ => Write w buf ω
    end
  else (ω, None).

(** The line [Handle] builds for a record of a known level, up to and
    including the attached attributes, with the buffer it starts from;
    the local [groups] is returned with it. *)
Definition renderHead (h : CLIHandler.t) (r : Record.t) (ls : LevelStyle.t)
    (buf : string) (σ : Store.t) : string * option Slice * Store.t :=
  let st := StyleOps.readStyle σ (CLIHandler.style h) in
  let '(buf, σ) := writeLevel ls buf σ in
  let '(buf, σ) := writeCallerPart h r (Style.Caller st) buf σ in
  let '(buf, σ) := writeLabel h (Style.Label st) buf σ in
  let buf := buf +:+ Record.Message r in
  let buf := writeTime h r (Style.Attr st) buf in
  let '(groups, σ) := handleGroups h σ in
  let '(buf, σ) :=
    if decide (0 < Color.blen (CLIHandler.attrsCache h))%nat
    then (buf +:+ Color.bytes (CLIHandler.attrsCache h), σ)
    else writeAttrs groups (CLIHandler.style h) (CLIHandler.timeLayout h)
           (CLIHandler.attrs h) buf σ in
  (buf, groups, σ).

(** The whole line: the head, the attributes of the record, a newline. *)
Definition render (h : CLIHandler.t) (r : Record.t) (ls : LevelStyle.t)
    (buf : string) (σ : Store.t) : string * Store.t :=
  let '(buf, groups, σ) := renderHead h r ls buf σ in
  let '(buf, σ) := writeRecordAttrs h groups (Record.attrs r) buf σ in
  (buf +:+ String newline "", σ).

(** [Handle]. The mutex is taken on entry and released on every exit; the
    model is sequential and does not track it. *)
Definition Handle (h : CLIHandler.t) (r : Record.t) (σ : Store.t) (ω : World)
  : option Error * Store.t * World :=
  let st := StyleOps.readStyle σ (CLIHandler.style h) in
  match levelStyleFor σ (Style.Level st) (Record.Level r) with
  | None => (Some ErrUnknownLevel, σ, ω)
  | Some ls =>
      let '(buf, σ) := poolGet σ in
      let '(buf, σ) := render h r ls buf σ in
      let '(ω, err) := writeTo (CLIHandler.w h) buf ω in
      let σ := poolPut "" σ in
      (ErrWrite <$> err, σ, ω)
  end.
(** [copy(dst, src)] on strings: the first [min(len(dst), len(src))]
    cells of the array of [dst] are overwritten. *)
Definition copyStrings (dst : Slice) (src : list string) (σ : Store.t) : Store.t :=
  let k := (len dst `min` length src)%nat in
  set_strArrays (alter (λ a, take k src ++ drop k a) (arr dst) (strArrays σ)) σ.

(** [s[i] = x] for [i < len(s)] *)
Definition storeString (s : Slice) (i : nat) (x : string) (σ : Store.t) : Store.t :=
  set_strArrays (alter (λ a, <[i := x]> a) (arr s) (strArrays σ)) σ.

(** [WithAttrs]: the receiver itself for no attributes; else a new
    handler object, a copy of the receiver with its own attribute list,
    rendered attribute cache and group snapshot. *)
Definition WithAttrs (p : loc) (attrs : list Attr) (σ : Store.t)
  : option (loc * Store.t) :=
  if decide (length attrs = 0)%nat then Some (p, σ)
  else
    h ← handlers σ !! p;
    let a :=
      match CLIHandler.attrHandler h with
      | None => CLIHandler.attrs h ++ attrs
      | Some f => (f <$> CLIHandler.attrs h) ++ (f <$> attrs)
      end in
    let '(_, σ) := poolGet σ in
    let buf := "" in
    let '(groups, σ) := make 0 (slen (CLIHandler.groups h)) σ in
    let '(groups, σ) :=
      if decide (0 < slen (CLIHandler.groups h))%nat
      then append slack (Some groups) (elems σ (CLIHandler.groups h)) σ
      else (Some groups, σ) in
    let '(buf, σ) :=
      writeAttrs groups (CLIHandler.style h) (CLIHandler.timeLayout h) a buf σ in
    let cache :=
      if decide (0 < String.length buf)%nat then Some buf else None in
    let σ := poolPut "" σ in
    let '(gc, σ) :=
      if decide (0 < slen (CLIHandler.groups h))%nat
      then append slack None (elems σ (CLIHandler.groups h)) σ
      else (None, σ) in
    let h2 :=
      {| CLIHandler.w := CLIHandler.w h;
         CLIHandler.mu := CLIHandler.mu h;
         CLIHandler.level := CLIHandler.level h;
         CLIHandler.prefix := CLIHandler.prefix h;
         CLIHandler.attrs := a;
         CLIHandler.attrsCache := cache;
         CLIHandler.attrHandler := CLIHandler.attrHandler h;
         CLIHandler.groups := CLIHandler.groups h;
         CLIHandler.groupsCache := gc;
         CLIHandler.pcCache := CLIHandler.pcCache h;
         CLIHandler.hasCaller := CLIHandler.hasCaller h;
         CLIHandler.hasTime := CLIHandler.hasTime h;
         CLIHandler.timeLayout := CLIHandler.timeLayout h;
         CLIHandler.style := CLIHandler.style h |} in
    let '(p2, hs) := Heap.alloc (handlers σ) h2 in
    Some (p2, set_handlers hs σ).

(** [WithGroup]: the receiver itself for the empty name; else a new
    handler object with a new group array holding the receiver's groups
    and [name], no attribute cache, and a snapshot of the new groups. *)
Definition WithGroup (p : loc) (name : string) (σ : Store.t)
  : option (loc * Store.t) :=
  if decide (name = "") then Some (p, σ)
  else
    h ← handlers σ !! p;
    let n := slen (CLIHandler.groups h) in
    let '(g, σ) := make (S n) (S n) σ in
    let σ := copyStrings g (elems σ (CLIHandler.groups h)) σ in
    let σ := storeString g n name σ in
    let '(gc, σ) := append slack None (elems σ (Some g)) σ in
    let h2 :=
      {| CLIHandler.w := CLIHandler.w h;
         CLIHandler.mu := CLIHandler.mu h;
         CLIHandler.level := CLIHandler.level h;
         CLIHandler.prefix := CLIHandler.prefix h;
         CLIHandler.attrs := CLIHandler.attrs h;
         CLIHandler.attrsCache := None;
         CLIHandler.attrHandler := CLIHandler.attrHandler h;
         CLIHandler.groups := Some g;
         CLIHandler.groupsCache := gc;
         CLIHandler.pcCache := CLIHandler.pcCache h;
         CLIHandler.hasCaller := CLIHandler.hasCaller h;
         CLIHandler.hasTime := CLIHandler.hasTime h;
         CLIHandler.timeLayout := CLIHandler.timeLayout h;
         CLIHandler.style := CLIHandler.style h |} in
    let '(p2, hs) := Heap.alloc (handlers σ) h2 in
    Some (p2, set_handlers hs σ).
End handler.

(** *** The constructor and its options *)

(** [type CLIHandlerOption func(c *CLIHandler)]: an option updates the
    handler object it is given. *)
Definition CLIHandlerOption : Type := loc → Store.t → Store.t.

Definition update (f : CLIHandler.t → CLIHandler.t) : CLIHandlerOption :=
  λ c σ, set_handlers (alter f c (handlers σ)) σ.

Definition WithLevel (level : option Level) : CLIHandlerOption :=
  update (λ c,
    match level with
    | Some l =>
        {| CLIHandler.w := CLIHandler.w c; CLIHandler.mu := CLIHandler.mu c;
           CLIHandler.level := Some l;
           CLIHandler.prefix := CLIHandler.prefix c;
           CLIHandler.attrs := CLIHandler.attrs c;
           CLIHandler.attrsCache := CLIHandler.attrsCache c;
           CLIHandler.attrHandler := CLIHandler.attrHandler c;
           CLIHandler.groups := CLIHandler.groups c;
           CLIHandler.groupsCache := CLIHandler.groupsCache c;
           CLIHandler.pcCache := CLIHandler.pcCache c;
           CLIHandler.hasCaller := CLIHandler.hasCaller c;
           CLIHandler.hasTime := CLIHandler.hasTime c;
           CLIHandler.timeLayout := CLIHandler.timeLayout c;
           CLIHandler.style := CLIHandler.style c |}
    | None => c
    end).

Definition WithLabel (prefix : string) : CLIHandlerOption :=
  update (λ c,
    {| CLIHandler.w := CLIHandler.w c; CLIHandler.mu := CLIHandler.mu c;
       CLIHandler.level := CLIHandler.level c;
       CLIHandler.prefix := prefix;
       CLIHandler.attrs := CLIHandler.attrs c;
       CLIHandler.attrsCache := CLIHandler.attrsCache c;
       CLIHandler.attrHandler := CLIHandler.attrHandler c;
       CLIHandler.groups := CLIHandler.groups c;
       CLIHandler.groupsCache := CLIHandler.groupsCache c;
       CLIHandler.pcCache := CLIHandler.pcCache c;
       CLIHandler.hasCaller := CLIHandler.hasCaller c;
       CLIHandler.hasTime := CLIHandler.hasTime c;
       CLIHandler.timeLayout := CLIHandler.timeLayout c;
       CLIHandler.style := CLIHandler.style c |}).

Definition WithCaller (has : bool) : CLIHandlerOption :=
  update (λ c,
    {| CLIHandler.w := CLIHandler.w c; CLIHandler.mu := CLIHandler.mu c;
       CLIHandler.level := CLIHandler.level c;
       CLIHandler.prefix := CLIHandler.prefix c;
       CLIHandler.attrs := CLIHandler.attrs c;
       CLIHandler.attrsCache := CLIHandler.attrsCache c;
       CLIHandler.attrHandler := CLIHandler.attrHandler c;
       CLIHandler.groups := CLIHandler.groups c;
       CLIHandler.groupsCache := CLIHandler.groupsCache c;
       CLIHandler.pcCache := CLIHandler.pcCache c;
       CLIHandler.hasCaller := has;
       CLIHandler.hasTime := CLIHandler.hasTime c;
       CLIHandler.timeLayout := CLIHandler.timeLayout c;
       CLIHandler.style := CLIHandler.style c |}).

Definition WithTime (has : bool) : CLIHandlerOption :=
  update (λ c,
    {| CLIHandler.w := CLIHandler.w c; CLIHandler.mu := CLIHandler.mu c;
       CLIHandler.level := CLIHandler.level c;
       CLIHandler.prefix := CLIHandler.prefix c;
       CLIHandler.attrs := CLIHandler.attrs c;
       CLIHandler.attrsCache := CLIHandler.attrsCache c;
       CLIHandler.attrHandler := CLIHandler.attrHandler c;
       CLIHandler.groups := CLIHandler.groups c;
       CLIHandler.groupsCache := CLIHandler.groupsCache c;
       CLIHandler.pcCache := CLIHandler.pcCache c;
       CLIHandler.hasCaller := CLIHandler.hasCaller c;
       CLIHandler.hasTime := has;
       CLIHandler.timeLayout := CLIHandler.timeLayout c;
       CLIHandler.style := CLIHandler.style c |}).

Definition WithTimeFormat (layout : string) : CLIHandlerOption :=
  update (λ c,
    if decide (layout ≠ "") then
      {| CLIHandler.w := CLIHandler.w c; CLIHandler.mu := CLIHandler.mu c;
         CLIHandler.level := CLIHandler.level c;
         CLIHandler.prefix := CLIHandler.prefix c;
         CLIHandler.attrs := CLIHandler.attrs c;
         CLIHandler.attrsCache := CLIHandler.attrsCache c;
         CLIHandler.attrHandler := CLIHandler.attrHandler c;
         CLIHandler.groups := CLIHandler.groups c;
         CLIHandler.groupsCache := CLIHandler.groupsCache c;
         CLIHandler.pcCache := CLIHandler.pcCache c;
         CLIHandler.hasCaller := CLIHandler.hasCaller c;
         CLIHandler.hasTime := CLIHandler.hasTime c;
         CLIHandler.timeLayout := layout;
         CLIHandler.style := CLIHandler.style c |}
    else c).

Definition WithAttrHandler (fn : option (Attr → Attr)) : CLIHandlerOption :=
  update (λ c,
    match fn with
    | Some f =>
        {| CLIHandler.w := CLIHandler.w c; CLIHandler.mu := CLIHandler.mu c;
           CLIHandler.level := CLIHandler.level c;
           CLIHandler.prefix := CLIHandler.prefix c;
           CLIHandler.attrs := CLIHandler.attrs c;
           CLIHandler.attrsCache := CLIHandler.attrsCache c;
           CLIHandler.attrHandler := Some f;
           CLIHandler.groups := CLIHandler.groups c;
           CLIHandler.groupsCache := CLIHandler.groupsCache c;
           CLIHandler.pcCache := CLIHandler.pcCache c;
           CLIHandler.hasCaller := CLIHandler.hasCaller c;
           CLIHandler.hasTime := CLIHandler.hasTime c;
           CLIHandler.timeLayout := CLIHandler.timeLayout c;
           CLIHandler.style := CLIHandler.style c |}
    | None => c
    end).

Definition WithStyle (s : option loc) : CLIHandlerOption :=
  update (λ c,
    match s with
    | Some s' =>
        {| CLIHandler.w := CLIHandler.w c; CLIHandler.mu := CLIHandler.mu c;
           CLIHandler.level := CLIHandler.level c;
           CLIHandler.prefix := CLIHandler.prefix c;
           CLIHandler.attrs := CLIHandler.attrs c;
           CLIHandler.attrsCache := CLIHandler.attrsCache c;
           CLIHandler.attrHandler := CLIHandler.attrHandler c;
           CLIHandler.groups := CLIHandler.groups c;
           CLIHandler.groupsCache := CLIHandler.groupsCache c;
           CLIHandler.pcCache := CLIHandler.pcCache c;
           CLIHandler.hasCaller := CLIHandler.hasCaller c;
           CLIHandler.hasTime := CLIHandler.hasTime c;
           CLIHandler.timeLayout := CLIHandler.timeLayout c;
           CLIHandler.style := s' |}
    | None => c
    end).

(** [NewCLIHandler(w, opts...)] *)
Definition NewCLIHandler (w : option Writer) (opts : list CLIHandlerOption)
    (σ : Store.t) : loc * Store.t :=
  let mu := mutexes σ in
  let σ := set_mutexes (S mu) σ in
  let '(style, σ) := StyleOps.Style1 σ in
  let '(pc, pcs) := Heap.alloc (pcCaches σ) ∅ in
  let σ := set_pcCaches pcs σ in
  let '(h, hs) :=
    Heap.alloc (handlers σ)
      {| CLIHandler.w := setColorable w;
         CLIHandler.mu := mu;
         CLIHandler.level := Some LevelInfo;
         CLIHandler.prefix := "";
         CLIHandler.attrs := [];
         CLIHandler.attrsCache := None;
         CLIHandler.attrHandler := None;
         CLIHandler.groups := None;
         CLIHandler.groupsCache := None;
         CLIHandler.pcCache := pc;
         CLIHandler.hasCaller := false;
         CLIHandler.hasTime := false;
         CLIHandler.timeLayout := RFC3339;
         CLIHandler.style := style |} in
  let σ := set_handlers hs σ in
  (h, fold_left (λ σ opt, opt h σ) opts σ).
End Handler.

(** ** Predicates of the statements *)

Module Inv.
Import Store Strings.

(** A slice header that fits its array. *)
Definition valid (σ : Store.t) (g : Slice) : Prop :=
  (arr g < length (strArrays σ))%nat ∧ (len g ≤ cap σ g)%nat.

Definition validOpt (σ : Store.t) (g : option Slice) : Prop :=
  match g with None => True | Some g => valid σ g end.

(** What a call that works on the slice [g] may change between [σ] and
    [σ']: only string arrays; the arrays that existed, other than the
    array of [g], keep their contents; the array of [g] keeps its
    capacity and the cells below [len g]. *)
Record frame (g : Slice) (σ σ' : Store.t) : Prop := MkFrame {
  frame_rest : σ' = set_strArrays (strArrays σ') σ;
  frame_grow : (length (strArrays σ) ≤ length (strArrays σ'))%nat;
  frame_other :
    ∀ l : loc, (l < length (strArrays σ))%nat → l ≠ arr g →
      strArrays σ' !! l = strArrays σ !! l;
  frame_cap : cap σ' g = cap σ g;
  frame_elems : take (len g) (arrayOf σ' g) = take (len g) (arrayOf σ g);
}.

(** Every idle buffer of the pool is empty, as [Reset] before each [Put]
    leaves it. *)
Definition poolClean (σ : Store.t) : Prop :=
  Forall (λ b, b = "") (poolFree σ).

(** One step of [Handle] leaves the styles, level maps and handlers, the
    number of buffers taken from the pool, and the emptiness of the idle
    buffers. *)
Record quiet (σ σ' : Store.t) : Prop := MkQuiet {
  quiet_levelMaps : levelMaps σ' = levelMaps σ;
  quiet_styles : styles σ' = styles σ;
  quiet_handlers : handlers σ' = handlers σ;
  quiet_mutexes : mutexes σ' = mutexes σ;
  quiet_poolOut : poolOut σ' = poolOut σ;
  quiet_poolClean : poolClean σ → poolClean σ';
}.

(** The string arrays at addresses below [n] are as before, and no array
    is lost. *)
Definition keepsBelow (n : nat) (σ σ' : Store.t) : Prop :=
  (length (strArrays σ) ≤ length (strArrays σ'))%nat
  ∧ ∀ l : loc, (l < n)%nat → strArrays σ' !! l = strArrays σ !! l.

(** What a derivation from the handler [h] at [p] leaves of the store:
    the handler objects that existed, [h] among them; the string arrays
    that existed, and so the groups and the group snapshot of [h]; the
    styles, level maps and caller caches; the number of buffers out of the
    pool and the emptiness of the idle ones. *)
Record ancestorKept (p : loc) (h : CLIHandler.t) (σ σ' : Store.t) : Prop :=
  MkAncestorKept {
  kept_handler : handlers σ' !! p = Some h;
  kept_handlers :
    ∀ q h', handlers σ !! q = Some h' → handlers σ' !! q = Some h';
  kept_arrays :
    ∀ l : loc, (l < length (strArrays σ))%nat →
      strArrays σ' !! l = strArrays σ !! l;
  kept_groups :
    elems σ' (CLIHandler.groups h) = elems σ (CLIHandler.groups h);
  kept_groupsCache :
    elems σ' (CLIHandler.groupsCache h) = elems σ (CLIHandler.groupsCache h);
  kept_valid :
    validOpt σ' (CLIHandler.groups h) ∧ validOpt σ' (CLIHandler.groupsCache h);
  kept_styles : styles σ' = styles σ;
  kept_levelMaps : levelMaps σ' = levelMaps σ;
  kept_pcCaches : pcCaches σ' = pcCaches σ;
  kept_poolOut : poolOut σ' = poolOut σ;
  kept_poolClean : poolClean σ → poolClean σ';
}.

(** No string array is lost or resized. *)
Definition sizesKept (σ σ' : Store.t) : Prop :=
  ∀ (l : loc) (a : list string),
    strArrays σ !! l = Some a →
    ∃ a', strArrays σ' !! l = Some a' ∧ length a' = length a.

(** Every handler object of the store has groups and a group snapshot
    that fit their arrays. *)
Definition wfStore (σ : Store.t) : Prop :=
  ∀ (q : loc) (h : CLIHandler.t),
    handlers σ !! q = Some h →
    validOpt σ (CLIHandler.groups h) ∧ validOpt σ (CLIHandler.groupsCache h).

(** An option that leaves the string arrays, and the groups and the group
    snapshot of every handler. *)
Definition keepsGroups (opt : Handler.CLIHandlerOption) : Prop :=
  ∀ (c : loc) (σ : Store.t),
    strArrays (opt c σ) = strArrays σ
    ∧ ∀ (q : loc) (h' : CLIHandler.t),
        handlers (opt c σ) !! q = Some h' →
        ∃ h, handlers σ !! q = Some h
             ∧ CLIHandler.groups h' = CLIHandler.groups h
             ∧ CLIHandler.groupsCache h' = CLIHandler.groupsCache h.

(** An option that leaves the level of the handler it is applied to. *)
Definition keepsLevel (opt : Handler.CLIHandlerOption) : Prop :=
  ∀ (c : loc) (σ : Store.t) (h : CLIHandler.t),
    handlers σ !! c = Some h →
    ∃ h', handlers (opt c σ) !! c = Some h'
          ∧ CLIHandler.level h' = CLIHandler.level h.

(** The four cases of the level switch of [Handle]. *)
Definition classified (l : Level) : Prop :=
  l = LevelDebug ∨ l = LevelInfo ∨ l = LevelWarn ∨ LevelError ≤ l.

(** A colour-free attribute style. *)
Definition plainAttr (st : Style.t) : Prop :=
  Color.plain (AttrStyle.KeyColor (Style.Attr st))
  ∧ Color.plain (AttrStyle.ValueColor (Style.Attr st)).

End Inv.

(** ** Stand-ins for the library functions, to run the model *)

Module Demo.

(** A width function in the manner of [runewidth.StringWidth] for UTF-8
    text: continuation bytes count nothing, the first byte of a
    three-byte or four-byte sequence (as in Japanese text) counts two
    columns, every other byte one. *)
Definition byteWidth (c : ascii) : Z :=
  let n := Z.of_N (N_of_ascii c) in
  if decide (128 ≤ n < 192) then 0
  else if decide (224 ≤ n) then 2
  else 1.

Fixpoint StringWidth (s : string) : Z :=
  match s with
  | "" => 0
  | String c s' => byteWidth c + StringWidth s'
  end.

(** [strconv.Quote] on text without control or non-ASCII bytes: the text
    between double quotes, with a backslash before every backslash and
    double quote. *)
Fixpoint escape (s : string) : string :=
  match s with
  | "" => ""
  | String c s' =>
      if decide (c = Handler.backslash ∨ c = Handler.dquote)
      then String Handler.backslash (String c (escape s'))
      else String c (escape s')
  end.

Definition Quote (s : string) : string :=
  String Handler.dquote (escape s +:+ String Handler.dquote "").

(** Instants, floats and durations print as their number. *)
Definition FormatTime (t : Z) (layout : string) : string := Str.FormatInt t.
Definition FormatFloat (bits : Z) : string := Str.FormatInt bits.
Definition FormatDuration (d : Z) : string := Str.FormatInt d +:+ "ns".

(** One known call site. *)
Definition FuncForPC (pc : Z) : option FuncInfo.t :=
  if decide (pc = 4096)
  then Some {| FuncInfo.Name := "main.main"; FuncInfo.File := "/app/main.go";
               FuncInfo.Line := 42 |}
  else None.

(** [append] doubles the capacity. *)
Definition slack (old need : nat) : nat := old.

(** The world is the list of writes done so far; the writer [Other 13]
    refuses every write. *)
Definition World : Type := list (Writer * string).
Definition Write (w : Writer) (b : string) (ω : World) : World * option string :=
  match w with
  | Other 13 => (ω, Some "broken pipe")
  | _ => (ω ++ [(w, b)], None)
  end.

(** The Japanese letter "a" in UTF-8, two columns wide. *)
Definition hiraganaA : string :=
  String "227"%char (String "129"%char (String "130"%char "")).

(** The handler [&CLIHandler{}] of the tests of [Enabled], with the
    discarding writer, and the same handler with the level set. *)
Definition zeroHandler : CLIHandler.t :=
  {| CLIHandler.w := Discard; CLIHandler.mu := O;
     CLIHandler.level := None; CLIHandler.prefix := "";
     CLIHandler.attrs := []; CLIHandler.attrsCache := None;
     CLIHandler.attrHandler := None; CLIHandler.groups := None;
     CLIHandler.groupsCache := None; CLIHandler.pcCache := O;
     CLIHandler.hasCaller := false; CLIHandler.hasTime := false;
     CLIHandler.timeLayout := ""; CLIHandler.style := O |}.

Definition infoHandler : CLIHandler.t :=
  {| CLIHandler.w := Discard; CLIHandler.mu := O;
     CLIHandler.level := Some LevelInfo; CLIHandler.prefix := "";
     CLIHandler.attrs := []; CLIHandler.attrsCache := None;
     CLIHandler.attrHandler := None; CLIHandler.groups := None;
     CLIHandler.groupsCache := None; CLIHandler.pcCache := O;
     CLIHandler.hasCaller := false; CLIHandler.hasTime := false;
     CLIHandler.timeLayout := ""; CLIHandler.style := O |}.

(** The redaction function of the example program: the value under the
    key "password" is masked. *)
Definition mask (a : Attr) : Attr :=
  if decide (Key a = "password") then MkAttr (Key a) (StringValue "***") else a.

(** A redaction function that removes the key "secret". *)
Definition blank (a : Attr) : Attr :=
  if decide (Key a = "secret") then MkAttr "" (Val a) else a.

(** The store with the style [Style0] at address 0, and a handler with
    that style that writes to the writer [Other 1]. *)
Definition store0 : Store.t := (StyleOps.Style0 Store.empty).2.

Definition plainHandler (f : option (Attr → Attr)) : CLIHandler.t :=
  {| CLIHandler.w := Other 1; CLIHandler.mu := O;
     CLIHandler.level := Some LevelInfo; CLIHandler.prefix := "";
     CLIHandler.attrs := []; CLIHandler.attrsCache := None;
     CLIHandler.attrHandler := f; CLIHandler.groups := None;
     CLIHandler.groupsCache := None; CLIHandler.pcCache := O;
     CLIHandler.hasCaller := false; CLIHandler.hasTime := false;
     CLIHandler.timeLayout := Handler.RFC3339; CLIHandler.style := O |}.

Definition record (level : Level) (attrs : list Attr) : Record.t :=
  {| Record.Time := 0; Record.Message := "login"; Record.Level := level;
Record.PC := 0; Record.attrs := attrs |}.

(** The handler of the test "with groups and cache": the slices
    [groups] and [groupsCache] are two arrays holding "g1". *)
Definition groupStore : Store.t :=
  Store.set_strArrays [["g1"]; ["g1"]] store0.

Definition groupHandler : CLIHandler.t :=
  {| CLIHandler.w := Other 1; CLIHandler.mu := O;
     CLIHandler.level := Some LevelInfo; CLIHandler.prefix := "";
     CLIHandler.attrs := []; CLIHandler.attrsCache := None;
     CLIHandler.attrHandler := None;
     CLIHandler.groups := Some (MkSlice 0 1);
     CLIHandler.groupsCache := Some (MkSlice 1 1);
     CLIHandler.pcCache := O;
     CLIHandler.hasCaller := false; CLIHandler.hasTime := false;
     CLIHandler.timeLayout := Handler.RFC3339; CLIHandler.style := O |}.

(** A handler from the constructor with the plain style, with the group
    "g" added and then the attribute a=1 attached: its address and the
    store it lives in. *)
Definition grouped : option (loc * Store.t) :=
  let '(p0, σ0) :=
    Handler.NewCLIHandler (Some (Other 1)) [Handler.WithStyle (Some O)] store0 in
  '(p1, σ1) ← Handler.WithGroup slack p0 "g" σ0;
  Handler.WithAttrs Quote FormatTime FormatFloat FormatDuration slack
    p1 [String_ "a" "1"] σ1.

Definition groupedPtr : loc := default O (fst <$> grouped).
Definition groupedStore : Store.t := default Store.empty (snd <$> grouped).

(** The line and the error of [Handle] through the handler at [p]. *)
Definition run (p : loc) (r : Record.t) (σ : Store.t)
  : option (option Error * World) :=
  h ← Store.handlers σ !! p;
  let '(e, _, ω) :=
    Handler.Handle StringWidth Quote FormatTime FormatFloat FormatDuration
      FuncForPC slack World Write h r σ [] in
  Some (e, ω).

Definition writeAttr := Handler.writeAttr Quote FormatTime FormatFloat FormatDuration slack.
Definition Handle := Handler.Handle StringWidth Quote FormatTime FormatFloat FormatDuration FuncForPC slack World Write.
Definition WithAttrs := Handler.WithAttrs Quote FormatTime FormatFloat FormatDuration slack.
Definition WithGroup := Handler.WithGroup slack.

End Demo.

(** ** Rendering as a function of values

    What [writeAttr] appends to the buffer, without the store: the
    reference the store-passing code is compared with. *)

Module Pure.
Section pure.
Variable StringWidth : string → Z.
Variable Quote : string → string.
Variable FormatTime : Z → string → string.
Variable FormatFloat : Z → string.
Variable FormatDuration : Z → string.
Variable FuncForPC : Z → option FuncInfo.t.

Fixpoint renderChildren (render : Attr → string → string)
    (n : nat) (i : nat) (l : list Attr) (buf : string) {struct l} : string :=
  match l with
  | [] => buf
  | a :: l' =>
      let buf := render a buf in
      let buf :=
        if decide (Z.of_nat i < Z.of_nat n - 1) then buf +:+ " " else buf in
      renderChildren render n (S i) l' buf
  end.

(** The buffer after the attribute [a] is written under the group names
    [gs]. *)
Fixpoint renderAttr (st : Style.t) (timeLayout : string) (gs : list string)
    (a : Attr) (buf : string) {struct a} : string :=
  match a with
  | MkAttr key (GroupValue attrs) =>
      renderChildren (renderAttr st timeLayout (gs ++ [key]))
        (length attrs) O attrs buf
  | MkAttr key v =>
      Handler.writeScalar Quote FormatTime FormatFloat FormatDuration
        st timeLayout key v gs buf
  end.

(** The bytes one attribute contributes. *)
Definition attrBytes (st : Style.t) (timeLayout : string) (gs : list string)
    (a : Attr) : string :=
  renderAttr st timeLayout gs a "".

(** *** The text of an attribute, in the words of the specification *)

(** A string value is quoted when it contains a space, a tab, a newline,
    a backslash or a double quote. *)
Definition needsQuote (s : string) : bool :=
  Str.ContainsAny s
    (String " " (String Handler.tab (String Handler.newline
      (String Handler.backslash (String Handler.dquote ""))))).

Definition valueText (timeLayout : string) (v : Value) : string :=
  match v with
  | StringValue s => if needsQuote s then Quote s else s
  | Int64Value n => Str.FormatInt n
  | Uint64Value n => Str.FormatInt n
  | Float64Value f => FormatFloat f
  | BoolValue b => if b then "true" else "false"
  | TimeValue t => FormatTime t timeLayout
  | DurationValue d => FormatDuration d
  | AnyValue text => text
  | GroupValue _ => ""
  end.

(** Every group name followed by a dot. *)
Fixpoint groupPath (gs : list string) : string :=
  match gs with
  | [] => ""
  | g :: gs' => g +:+ "." +:+ groupPath gs'
  end.

(** Texts with one space between neighbours. *)
Fixpoint joinSpace (l : list string) : string :=
  match l with
  | [] => ""
  | [x] => x
  | x :: l' => x +:+ " " +:+ joinSpace l'
  end.

(** A scalar is path, key, separator, value; a group is its children
    under the path extended by its key, joined by single spaces. *)
Fixpoint attrText (sep : string) (timeLayout : string) (gs : list string)
    (a : Attr) {struct a} : string :=
  match a with
  | MkAttr key (GroupValue attrs) =>
      joinSpace (map (attrText sep timeLayout (gs ++ [key])) attrs)
  | MkAttr key v =>
      groupPath gs +:+ key +:+ sep +:+ valueText timeLayout v
  end.

(** The attribute the record loop writes for [a]. *)
Definition redact (h : CLIHandler.t) (a : Attr) : Attr :=
  match CLIHandler.attrHandler h with
  | Some f => f a
  | None => a
  end.

(** What a loop over attributes appends when it passes each attribute
    with a non-empty key through [f]: nothing for an attribute with the
    empty key, else a space and the bytes of [f a]. *)
Fixpoint segments (f : Attr → Attr) (st : Style.t) (timeLayout : string)
    (gs : list string) (attrs : list Attr) : string :=
  match attrs with
  | [] => ""
  | a :: attrs' =>
      (if decide (Key a = "") then ""
       else " " +:+ attrBytes st timeLayout gs (f a))
      +:+ segments f st timeLayout gs attrs'
  end.

(** The segments of the attributes of a record: each attribute with a
    non-empty key is redacted, once. *)
Definition recordSegments (h : CLIHandler.t) (st : Style.t) (gs : list string)
    (attrs : list Attr) : string :=
  segments (redact h) st (CLIHandler.timeLayout h) gs attrs.

(** The segments of attached attributes, which the loops write as they
    are. *)
Definition attachedSegments (st : Style.t) (timeLayout : string)
    (gs : list string) (attrs : list Attr) : string :=
  segments (λ a, a) st timeLayout gs attrs.

(** *** The line of a record, as a function of values

    The line [Handle] builds, from the handler, the record, the level
    style, the style, the caller cache and the group names, when every
    pooled buffer it takes is empty. *)

Definition alignedText (c : option Color.Color) (text : string) (width : Z)
    (buf : string) : string :=
  if decide (0 < width)
  then Color.WriteBytes c buf (Handler.align StringWidth "" text width)
  else Color.WriteString c buf text.

Definition levelText (ls : LevelStyle.t) (buf : string) : string :=
  if decide (LevelStyle.Text ls ≠ "") then
    let buf := Handler.writeAffix (LevelStyle.Prefix ls) buf in
    let buf :=
      alignedText (LevelStyle.Color ls) (LevelStyle.Text ls)
        (LevelStyle.Width ls) buf in
    let buf := Handler.writeAffix (LevelStyle.Suffix ls) buf in
    buf +:+ " "
  else buf.

(** The caller: from the cache [pcs], else resolved; nothing for an
    unknown call site. *)
Definition callerText (h : CLIHandler.t) (r : Record.t) (st : Style.t)
    (pcs : gmap Z string) (buf : string) : string :=
  if CLIHandler.hasCaller h && bool_decide (Record.PC r ≠ 0) then
    match pcs !! Record.PC r with
    | Some b => Handler.writeCaller buf b st
    | None =>
        match FuncForPC (Record.PC r) with
        | Some f =>
            let name :=
              if CallerStyle.Fullpath (Style.Caller st)
              then FuncInfo.File f else FuncInfo.Name f in
            if decide (FuncInfo.File f ≠ "")
            then Handler.writeCaller buf
                   (name +:+ ":" +:+ Str.FormatInt (FuncInfo.Line f)) st
            else buf
        | None => buf
        end
    end
  else buf.

Definition labelText (h : CLIHandler.t) (label : LabelStyle.t)
    (buf : string) : string :=
  if decide (CLIHandler.prefix h ≠ "") then
    let buf := Handler.writeAffix (LabelStyle.Prefix label) buf in
    let buf :=
      alignedText (LabelStyle.Color label) (CLIHandler.prefix h)
        (LabelStyle.Width label) buf in
    let buf := Handler.writeAffix (LabelStyle.Suffix label) buf in
    buf +:+ " "
  else buf.

(** Level, caller, label, message, time, attached attributes. *)
Definition headText (h : CLIHandler.t) (r : Record.t) (ls : LevelStyle.t)
    (st : Style.t) (pcs : gmap Z string) (gs : list string)
    (buf : string) : string :=
  let buf := levelText ls buf in
  let buf := callerText h r st pcs buf in
  let buf := labelText h (Style.Label st) buf in
  let buf := buf +:+ Record.Message r in
  let buf := Handler.writeTime FormatTime h r (Style.Attr st) buf in
  if decide (0 < Color.blen (CLIHandler.attrsCache h))%nat
  then buf +:+ Color.bytes (CLIHandler.attrsCache h)
  else buf +:+ attachedSegments st (CLIHandler.timeLayout h) gs (CLIHandler.attrs h).

Definition lineText (h : CLIHandler.t) (r : Record.t) (ls : LevelStyle.t)
    (st : Style.t) (pcs : gmap Z string) (gs : list string) : string :=
  headText h r ls st pcs gs ""
    +:+ recordSegments h st gs (Record.attrs r)
    +:+ String Handler.newline "".

(** Whitespace in the sense of [unicode.IsSpace] on ASCII: space, tab,
    newline, vertical tab, form feed, carriage return. *)
Definition hasWhitespace (s : string) : bool :=
  Str.ContainsAny s
    (String " " (String "009"%char (String "010"%char (String "011"%char
      (String "012"%char (String "013"%char "")))))).

End pure.
End Pure.

(** ** color.go: the text of an SGR sequence *)

Module Sgr.

(** The codes in decimal, with a semicolon between neighbours. *)
Fixpoint joinCodes (cs : list Z) : string :=
  match cs with
  | [] => ""
  | [c] => Str.FormatInt c
  | c :: cs' => Str.FormatInt c +:+ ";" +:+ joinCodes cs'
  end.

(** ESC, an opening bracket, the codes, and the letter m. *)
Definition sequence (cs : list Z) : string :=
  String "027"%char "[" +:+ joinCodes cs +:+ "m".

(** A text between the activate and the reset bytes of a colour; the
    text itself for the nil colour. *)
Definition wrap (c : option Color.Color) (s : string) : string :=
  match c with
  | None => s
  | Some c' => Color.bytes (Color.prefix c') +:+ s +:+ Color.bytes (Color.reset c')
  end.

End Sgr.

(** ** style.go: the presets [Style2], [Style3] and [Style4] *)

Module Presets.
Import Store StyleOps.

Definition BgRed : Z := 41.
Definition BgGreen : Z := 42.
Definition BgYellow : Z := 43.
Definition BgMagenta : Z := 45.

(** [Style2()]: vivid foreground colours. *)
Definition Style2 (σ : Store.t) : loc * Store.t :=
  let '(m, σ) :=
    newLevelMap
      (<[LevelDebug := lvl "DBG" (color [38; 2; 95; 95; 255; Color.Bold]) 0]>
       (<[LevelInfo := lvl "INF" (color [38; 2; 95; 255; 215; Color.Bold]) 0]>
        (<[LevelWarn := lvl "WRN" (color [38; 2; 215; 255; 135; Color.Bold]) 0]>
         (<[LevelError := lvl "ERR" (color [38; 2; 255; 95; 135; Color.Bold]) 0]> ∅)))) σ in
  newStyle
    {| Style.Level := Some m;
       Style.Label :=
         {| LabelStyle.Prefix := AffixStyle.zero; LabelStyle.Suffix := AffixStyle.zero;
            LabelStyle.Color := color [Color.FgHiBlack; Color.Bold];
            LabelStyle.Width := 0 |};
       Style.Attr :=
         {| AttrStyle.KeyColor := color [Color.FgHiBlack];
            AttrStyle.ValueColor := None;
            AttrStyle.Separator := "=" |};
       Style.Caller :=
         {| CallerStyle.Prefix :=
              {| AffixStyle.Text := "<"; AffixStyle.Color := color [Color.FgHiBlack] |};
            CallerStyle.Suffix :=
              {| AffixStyle.Text := ">"; AffixStyle.Color := color [Color.FgHiBlack] |};
            CallerStyle.Color := color [Color.FgHiBlack; Color.Underline];
            CallerStyle.Fullpath := false |} |} σ.

(** [Style3()]: levels as labels of width 5 on basic background
    colours. *)
Definition Style3 (σ : Store.t) : loc * Store.t :=
  let '(m, σ) :=
    newLevelMap
      (<[LevelDebug := lvl "DBG" (color [Color.Bold; BgMagenta]) 5]>
       (<[LevelInfo := lvl "INF" (color [Color.Bold; BgGreen]) 5]>
        (<[LevelWarn := lvl "WRN" (color [Color.Bold; BgYellow]) 5]>
         (<[LevelError := lvl "ERR" (color [Color.Bold; BgRed]) 5]> ∅)))) σ in
  newStyle
    {| Style.Level := Some m;
       Style.Label :=
         {| LabelStyle.Prefix := AffixStyle.zero; LabelStyle.Suffix := AffixStyle.zero;
            LabelStyle.Color := color [Color.FgHiBlack; Color.Bold];
            LabelStyle.Width := 0 |};
       Style.Attr :=
         {| AttrStyle.KeyColor := color [Color.FgHiBlack];
            AttrStyle.ValueColor := None;
            AttrStyle.Separator := "=" |};
       Style.Caller :=
         {| CallerStyle.Prefix :=
              {| AffixStyle.Text := "<"; AffixStyle.Color := color [Color.FgHiBlack] |};
            CallerStyle.Suffix :=
              {| AffixStyle.Text := ">"; AffixStyle.Color := color [Color.FgHiBlack] |};
            CallerStyle.Color := color [Color.FgHiBlack; Color.Underline];
            CallerStyle.Fullpath := false |} |} σ.

(** [Style4()]: levels as labels of width 5 on vivid background
    colours. *)
Definition Style4 (σ : Store.t) : loc * Store.t :=
  let '(m, σ) :=
    newLevelMap
      (<[LevelDebug := lvl "DBG" (color [48; 2; 95; 95; 255; Color.Bold]) 5]>
       (<[LevelInfo := lvl "INF" (color [48; 2; 95; 255; 215; Color.Bold]) 5]>
        (<[LevelWarn := lvl "WRN" (color [48; 2; 215; 255; 135; Color.Bold]) 5]>
         (<[LevelError := lvl "ERR" (color [48; 2; 255; 95; 135; Color.Bold]) 5]> ∅)))) σ in
  newStyle
    {| Style.Level := Some m;
       Style.Label :=
         {| LabelStyle.Prefix := AffixStyle.zero; LabelStyle.Suffix := AffixStyle.zero;
            LabelStyle.Color := color [Color.FgHiBlack; Color.Bold];
            LabelStyle.Width := 0 |};
       Style.Attr :=
         {| AttrStyle.KeyColor := color [Color.FgHiBlack];
            AttrStyle.ValueColor := None;
            AttrStyle.Separator := "=" |};
       Style.Caller :=
         {| CallerStyle.Prefix :=
              {| AffixStyle.Text := "<"; AffixStyle.Color := color [Color.FgHiBlack] |};
            CallerStyle.Suffix :=
              {| AffixStyle.Text := ">"; AffixStyle.Color := color [Color.FgHiBlack] |};
            CallerStyle.Color := color [Color.FgHiBlack; Color.Underline];
            CallerStyle.Fullpath := false |} |} σ.

(** The five presets of the package. *)
Definition all : list (Store.t → loc * Store.t) :=
  [Style0; Style1; Style2; Style3; Style4].

End Presets.

(** ** The text of an attribute under any style *)

Module Styled.
Section styled.
Variable Quote : string → string.
Variable FormatTime : Z → string → string.
Variable FormatFloat : Z → string.
Variable FormatDuration : Z → string.

(** Every group name and the dot after it, each in the key colour. *)
Fixpoint pathText (kc : option Color.Color) (gs : list string) : string :=
  match gs with
  | [] => ""
  | g :: gs' => Sgr.wrap kc g +:+ Sgr.wrap kc "." +:+ pathText kc gs'
  end.

(** A scalar is the path, the key and the separator, each piece in the
    key colour, and the value in the value colour; a group is its
    children under the path extended by its key, joined by single
    spaces without colour. *)
Fixpoint attrText (st : Style.t) (timeLayout : string) (gs : list string)
    (a : Attr) {struct a} : string :=
  match a with
  | MkAttr key (GroupValue attrs) =>
      Pure.joinSpace (map (attrText st timeLayout (gs ++ [key])) attrs)
  | MkAttr key v =>
      pathText (AttrStyle.KeyColor (Style.Attr st)) gs
        +:+ Sgr.wrap (AttrStyle.KeyColor (Style.Attr st)) key
        +:+ Sgr.wrap (AttrStyle.KeyColor (Style.Attr st))
              (AttrStyle.Separator (Style.Attr st))
        +:+ Sgr.wrap (AttrStyle.ValueColor (Style.Attr st))
              (Pure.valueText Quote FormatTime FormatFloat FormatDuration timeLayout v)
  end.

End styled.
End Styled.

(** ** log.go and integrations/awssdk/log.go: the loggers *)

Module Logger.
Import Store Handler.

(** [type Logger struct { *slog.Logger }], in both packages: the logger
    is its handler. Handlers of other types than [*CLIHandler] are not
    represented. *)
Record t : Type := Mk { handler : loc }.

(** [NewLogger(handler)]: a nil handler is replaced by
    [NewCLIHandler(io.Discard)]. *)
Definition NewLogger (handler : option loc) (σ : Store.t) : t * Store.t :=
  match handler with
  | None =>
      let '(h, σ) := NewCLIHandler (Some Discard) [] σ in
      (Mk h, σ)
  | Some h => (Mk h, σ)
  end.

Section logger.
Variable StringWidth : string → Z.
Variable Quote : string → string.
Variable FormatTime : Z → string → string.
Variable FormatFloat : Z → string.
Variable FormatDuration : Z → string.
Variable FuncForPC : Z → option FuncInfo.t.
Variable slack : nat → nat → nat.
Variable World : Type.
Variable Write : Writer → string → World → World * option string.
(** [fmt.Sprintf], on arguments of some type *)
Variable Any : Type.
Variable Sprintf : string → list Any → string.
(** [logging.Debug] and [logging.Warn] of smithy-go *)
Variable ClassDebug : string.
Variable ClassWarn : string.

(** The methods [Debug], [Info] and [Warn] of [slog.Logger] without
    arguments: nothing happens when the handler is not enabled for the
    level; else a record with the time [now], the level, the message and
    the program counter [pc] of the call site is handed to [Handle], whose
    error is dropped. [None] is the nil-pointer panic of a logger whose
    handler is no object of the store. *)
Definition log (l : t) (level : Level) (msg : string) (now pc : Z)
    (σ : Store.t) (ω : World) : option (Store.t * World) :=
  h ← handlers σ !! handler l;
  if Enabled h level then
    let r :=
      {| Record.Time := now; Record.Message := msg;
         Record.Level := level; Record.PC := pc; Record.attrs := [] |} in
    let '(_, σ, ω) :=
      Handle StringWidth Quote FormatTime FormatFloat FormatDuration
        FuncForPC slack World Write h r σ ω in
    Some (σ, ω)
  else Some (σ, ω).

(** [awssdk.Logger.Logf] *)
Definition Logf (l : t) (classification : string) (format : string)
    (v : list Any) (now pc : Z) (σ : Store.t) (ω : World)
  : option (Store.t * World) :=
  let s := Sprintf format v in
  if decide (classification = ClassDebug) then log l LevelDebug s now pc σ ω
  else if decide (classification = ClassWarn) then log l LevelWarn s now pc σ ω
  else log l LevelInfo s now pc σ ω.

End logger.
End Logger.

(** ** Derived handlers, in the words of the statements *)

Module Derived.

(** The fields a derivation copies from the receiver. *)
Definition sameSettings (h h2 : CLIHandler.t) : Prop :=
  CLIHandler.w h2 = CLIHandler.w h
  ∧ CLIHandler.mu h2 = CLIHandler.mu h
  ∧ CLIHandler.level h2 = CLIHandler.level h
  ∧ CLIHandler.prefix h2 = CLIHandler.prefix h
  ∧ CLIHandler.attrHandler h2 = CLIHandler.attrHandler h
  ∧ CLIHandler.pcCache h2 = CLIHandler.pcCache h
  ∧ CLIHandler.hasCaller h2 = CLIHandler.hasCaller h
  ∧ CLIHandler.hasTime h2 = CLIHandler.hasTime h
  ∧ CLIHandler.timeLayout h2 = CLIHandler.timeLayout h
  ∧ CLIHandler.style h2 = CLIHandler.style h.

(** The attribute list [WithAttrs] builds: the attributes of the
    receiver, then the new ones; with a redaction function, each of them
    passed through it. *)
Definition attached (h : CLIHandler.t) (attrs : list Attr) : list Attr :=
  match CLIHandler.attrHandler h with
  | None => CLIHandler.attrs h ++ attrs
  | Some f => (f <$> CLIHandler.attrs h) ++ (f <$> attrs)
  end.

(** The handler without its rendered attribute cache. *)
Definition uncached (h : CLIHandler.t) : CLIHandler.t :=
  {| CLIHandler.w := CLIHandler.w h;
     CLIHandler.mu := CLIHandler.mu h;
     CLIHandler.level := CLIHandler.level h;
     CLIHandler.prefix := CLIHandler.prefix h;
     CLIHandler.attrs := CLIHandler.attrs h;
     CLIHandler.attrsCache := None;
     CLIHandler.attrHandler := CLIHandler.attrHandler h;
     CLIHandler.groups := CLIHandler.groups h;
     CLIHandler.groupsCache := CLIHandler.groupsCache h;
     CLIHandler.pcCache := CLIHandler.pcCache h;
     CLIHandler.hasCaller := CLIHandler.hasCaller h;
     CLIHandler.hasTime := CLIHandler.hasTime h;
     CLIHandler.timeLayout := CLIHandler.timeLayout h;
     CLIHandler.style := CLIHandler.style h |}.

(** The record with another level. *)
Definition atLevel (l : Level) (r : Record.t) : Record.t :=
  {| Record.Time := Record.Time r; Record.Message := Record.Message r;
     Record.Level := l; Record.PC := Record.PC r;
     Record.attrs := Record.attrs r |}.

(** The handler with another threshold, as [WithLevel] leaves it. *)
Definition atThreshold (level : option Level) (h : CLIHandler.t) : CLIHandler.t :=
  {| CLIHandler.w := CLIHandler.w h;
     CLIHandler.mu := CLIHandler.mu h;
     CLIHandler.level := level;
     CLIHandler.prefix := CLIHandler.prefix h;
     CLIHandler.attrs := CLIHandler.attrs h;
     CLIHandler.attrsCache := CLIHandler.attrsCache h;
     CLIHandler.attrHandler := CLIHandler.attrHandler h;
     CLIHandler.groups := CLIHandler.groups h;
     CLIHandler.groupsCache := CLIHandler.groupsCache h;
     CLIHandler.pcCache := CLIHandler.pcCache h;
     CLIHandler.hasCaller := CLIHandler.hasCaller h;
     CLIHandler.hasTime := CLIHandler.hasTime h;
     CLIHandler.timeLayout := CLIHandler.timeLayout h;
     CLIHandler.style := CLIHandler.style h |}.

End Derived.

(** ** Handlers to run the model on *)

Module Scenario.

(** A function on attributes that is not idempotent: a star is added to
    every string value. *)
Definition mark (a : Attr) : Attr :=
  match a with
  | MkAttr k (StringValue s) => MkAttr k (StringValue (s +:+ "*"))
  | _ => a
  end.

(** The store [Demo.store0] with one handler from the constructor, at
    address 0: it writes to [Other 1] under the plain style at address 0. *)
Definition base : Store.t :=
  (Handler.NewCLIHandler (Some (Other 1)) [Handler.WithStyle (Some O)]
     Demo.store0).2.

(** The same with the redaction function [mark]. *)
Definition marking : Store.t :=
  (Handler.NewCLIHandler (Some (Other 1))
     [Handler.WithStyle (Some O); Handler.WithAttrHandler (Some mark)]
     Demo.store0).2.

(** The same with the caller switched on. *)
Definition tracing : Store.t :=
  (Handler.NewCLIHandler (Some (Other 1))
     [Handler.WithStyle (Some O); Handler.WithCaller true]
     Demo.store0).2.

(** The handler at an address. *)
Definition handlerAt (σ : Store.t) (p : loc) : CLIHandler.t :=
  default Demo.zeroHandler (Store.handlers σ !! p).

(** A record of level info from the call site that [Demo.FuncForPC]
    knows. *)
Definition traced : Record.t :=
  {| Record.Time := 0; Record.Message := "login";
     Record.Level := LevelInfo; Record.PC := 4096; Record.attrs := [] |}.

End Scenario.

(** ** The caller caches after a record is handled *)

Module CallerCache.
Section cache.
Variable FuncForPC : Z → option FuncInfo.t.

(** The text [Handle] caches for a call site: the function name, or the
    file under [Fullpath], a colon and the line. *)
Definition entry (caller : CallerStyle.t) (f : FuncInfo.t) : string :=
  (if CallerStyle.Fullpath caller then FuncInfo.File f else FuncInfo.Name f)
    +:+ ":" +:+ Str.FormatInt (FuncInfo.Line f).

(** The caller caches after [Handle] through [h] of a record with
    program counter [pc], from the caches before: one entry more in the
    cache of [h] when the caller is wanted, the counter is not zero and
    not yet in the cache, and the call site resolves to a function with a
    file name; else the same caches. *)
Definition after (h : CLIHandler.t) (pc : Z) (caller : CallerStyle.t)
    (pcs : list (gmap Z string)) : list (gmap Z string) :=
  if CLIHandler.hasCaller h && bool_decide (pc ≠ 0) then
    match default ∅ (pcs !! CLIHandler.pcCache h) !! pc with
    | Some _ => pcs
    | None =>
        match FuncForPC pc with
        | Some f =>
            if decide (FuncInfo.File f ≠ "")
            then alter (insert pc (entry caller f)) (CLIHandler.pcCache h) pcs
            else pcs
        | None => pcs
        end
    end
  else pcs.

End cache.
End CallerCache.

(** * Properties *)

(** ** Strings *)

Module StrFacts.
Import Str.

Lemma app_cons (a : ascii) (s t : string) :
  String a s +:+ t = String a (s +:+ t).
Proof. reflexivity. Qed.

Lemma app_nil_l (s : string) : "" +:+ s = s.
Proof. reflexivity. Qed.

Lemma app_nil_r (s : string) : s +:+ "" = s.
Proof.
  induction s as [|a s IH]; [done|]. by rewrite app_cons, IH.
Qed.

Lemma app_assoc (s t u : string) : (s +:+ t) +:+ u = s +:+ t +:+ u.
Proof.
  induction s as [|a s IH]; [done|]. by rewrite !app_cons, IH.
Qed.

End StrFacts.

(** ** color.go *)

Module ColorFacts.
Import Color.

Example makeSGR_bold_red :
  makeSGR [1; 91] = Some (String "027"%char "[1;91m").
Proof. reflexivity. Qed.

Example makeSGR_reset : makeSGR [0] = Some (String "027"%char "[0m").
Proof. reflexivity. Qed.

Lemma WriteString_plain c buf s :
  plain c → WriteString c buf s = buf +:+ s.
Proof.
  intros Hc. unfold WriteString.
  assert (Hs : (if decide (s ≠ "") then buf +:+ s else buf) = buf +:+ s).
  { case_decide as Hne; [done|].
    subst s. by rewrite StrFacts.app_nil_r. }
  destruct c as [c'|]; simpl in *; [|done].
  destruct Hc as [-> ->]. simpl. done.
Qed.

Lemma WriteBytes_plain c buf b :
  plain c → WriteBytes c buf b = buf +:+ b.
Proof.
  intros Hc. unfold WriteBytes.
  assert (Hs : (if decide (0 < String.length b)%nat then buf +:+ b else buf) = buf +:+ b).
  { case_decide as Hne; [done|].
    destruct b; simpl in *; [by rewrite StrFacts.app_nil_r | lia]. }
  destruct c as [c'|]; simpl in *; [|done].
  destruct Hc as [-> ->]. simpl. done.
Qed.

(** C3. [NewColor] of an empty code list and of a nil code list are the
    same value, with codes, activate sequence and reset sequence all
    nil; writing a string or bytes through that colour, or through a nil
    colour, appends exactly the input text to the buffer. *)
Theorem NewColor_empty_passthrough :
  NewColor (Some []) = NewColor None
  ∧ NewColor None = {| codes := None; prefix := None; reset := None |}
  ∧ ∀ (buf text : string),
      WriteString (Some (NewColor (Some []))) buf text = buf +:+ text
      ∧ WriteString (Some (NewColor None)) buf text = buf +:+ text
      ∧ WriteString None buf text = buf +:+ text
      ∧ WriteBytes (Some (NewColor (Some []))) buf text = buf +:+ text
      ∧ WriteBytes (Some (NewColor None)) buf text = buf +:+ text
      ∧ WriteBytes None buf text = buf +:+ text.
Proof.
  split; [done|]. split; [done|].
  intros buf text.
  repeat split;
    first [ apply WriteString_plain | apply WriteBytes_plain ];
    by cbn.
Qed.

End ColorFacts.


(** ** style.go *)

Module StyleFacts.
Import Store StyleOps.

#[local] Arguments levelMapOf : simpl never.
#[local] Arguments levelAt : simpl never.
#[local] Arguments mapAssign : simpl never.
#[local] Arguments mapDelete : simpl never.

Lemma levelMapOf_mapAssign_ne σ (m m' : loc) k v :
  m' ≠ m →
  levelMapOf (mapAssign m' k v σ) (Some m) = levelMapOf σ (Some m).
Proof.
  intros Hne. unfold levelMapOf, mapAssign. simpl.
  by rewrite list_lookup_alter_ne.
Qed.

Lemma levelMapOf_mapDelete_ne σ (m m' : loc) k :
  m' ≠ m →
  levelMapOf (mapDelete m' k σ) (Some m) = levelMapOf σ (Some m).
Proof.
  intros Hne. unfold levelMapOf, mapDelete. simpl.
  by rewrite list_lookup_alter_ne.
Qed.

(** The store [Clone] leaves behind, when the receiver has a level map. *)
Lemma Clone_Some_level σ p s m ms :
  styles σ !! p = Some s →
  Style.Level s = Some m →
  levelMaps σ !! m = Some ms →
  Clone (Some p) σ =
    (Some (length (styles σ)),
     set_styles
       (styles σ ++
          [ {| Style.Level := Some (length (levelMaps σ));
               Style.Label := Style.Label s; Style.Attr := Style.Attr s;
               Style.Caller := Style.Caller s |} ])
       (set_levelMaps (levelMaps σ ++ [ms]) σ)).
Proof.
  intros Hp Hm Hms. unfold Clone, readStyle. rewrite Hp. simpl. rewrite Hm.
  unfold newLevelMap, mapsCopy, newStyle, levelMapOf. simpl.
  rewrite lookup_app_l by (by eapply lookup_lt_Some).
  rewrite alter_app_r_alt by lia. rewrite Nat.sub_diag. simpl.
  rewrite Hms. simpl.
  by rewrite (right_id_L ∅ (∪)).
Qed.

Lemma Clone_nil_level σ p s :
  styles σ !! p = Some s →
  Style.Level s = None →
  Clone (Some p) σ = (Some (length (styles σ)), set_styles (styles σ ++ [s]) σ).
Proof.
  intros Hp Hm. unfold Clone, readStyle. rewrite Hp. simpl. by rewrite Hm.
Qed.

(** C5. [Clone] of nil is nil. [Clone] of a style object yields a new
    style object with the same label, attribute and caller styles and a
    level map with the same entries; the original object is unchanged;
    when the original has a level map, the clone's map is a new map
    object, and assigning or deleting any entry of the clone's map leaves
    the original's map as it was. *)
Theorem Clone_deep_copy (σ : Store.t) :
  Clone None σ = (None, σ)
  ∧ ∀ (p : loc) (s : Style.t),
      styles σ !! p = Some s →
      (∀ m, Style.Level s = Some m → is_Some (levelMaps σ !! m)) →
      ∃ (p' : loc) (σ' : Store.t) (s' : Style.t),
        Clone (Some p) σ = (Some p', σ')
        ∧ p' ≠ p
        ∧ styles σ !! p' = None
        ∧ styles σ' !! p = Some s
        ∧ styles σ' !! p' = Some s'
        ∧ Style.Label s' = Style.Label s
        ∧ Style.Attr s' = Style.Attr s
        ∧ Style.Caller s' = Style.Caller s
        ∧ levelMapOf σ' (Style.Level s') = levelMapOf σ (Style.Level s)
        ∧ levelMapOf σ' (Style.Level s) = levelMapOf σ (Style.Level s)
        ∧ (Style.Level s = None → Style.Level s' = None)
        ∧ ∀ m, Style.Level s = Some m →
            ∃ m', Style.Level s' = Some m'
              ∧ m' ≠ m
              ∧ levelMaps σ !! m' = None
              ∧ ∀ k v,
                  levelMapOf (mapAssign m' k v σ') (Some m) = levelMapOf σ (Some m)
                  ∧ levelAt (mapAssign m' k v σ') (Some m) k = levelAt σ (Some m) k
                  ∧ levelMapOf (mapDelete m' k σ') (Some m) = levelMapOf σ (Some m)
                  ∧ levelAt (mapAssign m' k v σ') (Some m') k = v.
Proof.
  split; [done|]. intros p s Hp Hwf.
  assert (Hlt : (p < length (styles σ))%nat) by (by eapply lookup_lt_Some).
  destruct (Style.Level s) as [m|] eqn:Hm.
  - destruct (Hwf m eq_refl) as [ms Hms].
    assert (Hmlt : (m < length (levelMaps σ))%nat) by (by eapply lookup_lt_Some).
    eexists _, _, _. split; [by apply (Clone_Some_level σ p s m ms)|].
    simpl.
    assert (Hold : levelMapOf
      (set_styles (styles σ ++ [ {| Style.Level := Some (length (levelMaps σ));
               Style.Label := Style.Label s; Style.Attr := Style.Attr s;
               Style.Caller := Style.Caller s |} ])
        (set_levelMaps (levelMaps σ ++ [ms]) σ)) (Some m) = levelMapOf σ (Some m)).
    { unfold levelMapOf. simpl. by rewrite lookup_app_l. }
    split; [lia|]. split; [by apply lookup_ge_None_2|].
    split; [by rewrite lookup_app_l|].
    split; [by rewrite list_lookup_middle|].
    simpl. repeat (split; [done|]).
    split.
    { unfold levelMapOf. simpl. rewrite list_lookup_middle by done.
      by rewrite Hms. }
    split; [done|]. split; [done|].
    intros m0 [= <-]. exists (length (levelMaps σ)).
    split; [done|]. split; [lia|]. split; [by apply lookup_ge_None_2|].
    intros k v.
    split; [rewrite levelMapOf_mapAssign_ne by lia; done|].
    split; [unfold levelAt; rewrite levelMapOf_mapAssign_ne by lia; by rewrite Hold|].
    split; [rewrite levelMapOf_mapDelete_ne by lia; done|].
    unfold levelAt, levelMapOf, mapAssign. simpl.
    rewrite list_lookup_alter_eq, list_lookup_middle by done. simpl.
    by rewrite lookup_insert_eq.
  - eexists _, _, _. split; [by apply Clone_nil_level|].
    simpl. split; [lia|]. split; [by apply lookup_ge_None_2|].
    split; [by rewrite lookup_app_l|].
    split; [by rewrite list_lookup_middle|].
    rewrite Hm. repeat (split; [done|]). done.
Qed.

(** A store to run [Clone] on: the one [Style0] builds from the empty
    store. *)
Lemma Clone_deep_copy_witness :
  ∃ (p' : loc) (σ' : Store.t) (s' : Style.t),
    Clone (Some O) (Style0 Store.empty).2 = (Some p', σ')
    ∧ p' ≠ O
    ∧ styles σ' !! p' = Some s'
    ∧ levelMapOf σ' (Style.Level s') = levelMapOf (Style0 Store.empty).2 (Some O).
Proof.
  destruct (Clone_deep_copy (Style0 Store.empty).2) as [_ H].
  destruct (H O (readStyle (Style0 Store.empty).2 O)) as (p' & σ' & s' & H1 & H2 & _ & _ & H4 & _ & _ & _ & H5 & _).
  - reflexivity.
  - intros m [= <-]. simpl. eauto.
  - exists p', σ', s'. repeat split; done.
Defined.

End StyleFacts.

(** ** handler.go: alignment *)

Module AlignFacts.
Import Handler.

Lemma wrap_id (z : Z) : Int.in_range z → Int.wrap z = z.
Proof.
  unfold Int.in_range, Int.min_int, Int.max_int, Int.wrap. intros Hz.
  rewrite Z.mod_small; lia.
Qed.

Lemma writeSpaces_spaces (n : nat) (buf : string) :
  writeSpaces n buf = buf +:+ Str.spaces n.
Proof.
  revert buf. induction n as [|n IH]; intros buf; simpl.
  - by rewrite StrFacts.app_nil_r.
  - by rewrite IH, StrFacts.app_assoc.
Qed.

Section align.
Variable StringWidth : string → Z.

Lemma align_no_padding (buf s : string) (w : Z) :
  Int.in_range w → 0 ≤ StringWidth s ≤ Int.max_int →
  w ≤ StringWidth s → align StringWidth buf s w = buf +:+ s.
Proof.
  intros Hw Hc Hle. unfold align.
  case_decide as Hpos; [|done].
  unfold Int.sub. rewrite wrap_id.
  - case_decide; [lia | done].
  - unfold Int.in_range, Int.min_int, Int.max_int in *. lia.
Qed.

Lemma align_padding (buf s : string) (w : Z) :
  Int.in_range w → 0 ≤ StringWidth s ≤ Int.max_int →
  StringWidth s < w →
  align StringWidth buf s w =
    buf +:+ Str.spaces (Z.to_nat ((w - StringWidth s) `quot` 2)) +:+ s
        +:+ Str.spaces (Z.to_nat (w - StringWidth s - (w - StringWidth s) `quot` 2)).
Proof.
  intros Hw Hc Hlt. unfold align.
  assert (Hq : 0 ≤ (w - StringWidth s) `quot` 2 ≤ w - StringWidth s).
  { rewrite Z.quot_div_nonneg by lia.
    split; [apply Z.div_pos; lia | apply Z.div_le_upper_bound; lia]. }
  case_decide as Hpos; [|lia].
  unfold Int.sub, Int.div.
  rewrite (wrap_id (w - StringWidth s))
    by (unfold Int.in_range, Int.min_int, Int.max_int in *; lia).
  case_decide as Hp; [|lia].
  rewrite (wrap_id ((w - StringWidth s) `quot` 2))
    by (unfold Int.in_range, Int.min_int, Int.max_int in *; lia).
  rewrite wrap_id
    by (unfold Int.in_range, Int.min_int, Int.max_int in *; lia).
  rewrite !writeSpaces_spaces. by rewrite !StrFacts.app_assoc.
Qed.

(** C4. For a width [w] and a text of display width [c] (as
    [runewidth.StringWidth] counts it, in columns): when [w <= c] the text
    is written unchanged; when [w > c] it is written between [lp] spaces on
    the left and [rp] on the right with [lp + rp = w - c] and
    [lp <= rp <= lp + 1], so an odd remainder goes to the right. A text
    two columns wide aligned to width 4 gets one space on each side. *)
Theorem align_centers (buf s : string) (w : Z) :
  Int.in_range w → 0 ≤ StringWidth s ≤ Int.max_int →
  (w ≤ StringWidth s → align StringWidth buf s w = buf +:+ s)
  ∧ (StringWidth s < w →
       ∃ lp rp : nat,
         align StringWidth buf s w = buf +:+ Str.spaces lp +:+ s +:+ Str.spaces rp
         ∧ Z.of_nat lp + Z.of_nat rp = w - StringWidth s
         ∧ (lp ≤ rp ≤ lp + 1)%nat)
  ∧ (StringWidth s = 2 → w = 4 →
       align StringWidth buf s w = buf +:+ " " +:+ s +:+ " ").
Proof.
  intros Hw Hc. split; [by apply align_no_padding|]. split.
  - intros Hlt.
    eexists _, _. split; [by apply align_padding|].
    pose proof (Z.quot_div_nonneg (w - StringWidth s) 2) as Hq.
    pose proof (Z.div_mod (w - StringWidth s) 2) as Hdm.
    pose proof (Z.mod_pos_bound (w - StringWidth s) 2) as Hmod.
    rewrite Hq by lia. split; lia.
  - intros H2 ->. rewrite align_padding by (done || lia).
    rewrite H2. reflexivity.
Qed.
End align.

(** The test "wide chars padded": one double-width letter, width 4. *)
Lemma align_centers_witness :
  Handler.align Demo.StringWidth "" Demo.hiraganaA 4
    = " " +:+ Demo.hiraganaA +:+ " "
  ∧ Handler.align Demo.StringWidth "" "foo" 6 = " foo  "
  ∧ Handler.align Demo.StringWidth "" "foo" 2 = "foo".
Proof.
  assert (Hr : Int.in_range 4) by (by vm_compute).
  assert (Hc : 0 ≤ Demo.StringWidth Demo.hiraganaA ≤ Int.max_int) by (by vm_compute).
  destruct (align_centers Demo.StringWidth "" Demo.hiraganaA 4 Hr Hc) as (_ & _ & H).
  split; [apply H; reflexivity|]. split; reflexivity.
Defined.

End AlignFacts.

(** ** handler.go: the threshold *)

Module EnabledFacts.
Import Store Handler Inv.

Lemma Enabled_Some (h : CLIHandler.t) (threshold l : Level) :
  CLIHandler.level h = Some threshold →
  Enabled h l = true ↔ threshold ≤ l.
Proof.
  intros Hl. unfold Enabled. rewrite Hl. by rewrite bool_decide_eq_true.
Qed.

Lemma update_keepsLevel (f : CLIHandler.t → CLIHandler.t) :
  (∀ c, CLIHandler.level (f c) = CLIHandler.level c) → keepsLevel (update f).
Proof.
  intros Hf c σ h Hc. exists (f h). split; [|done].
  unfold update. simpl. by rewrite list_lookup_alter_eq, Hc.
Qed.

Lemma keepsLevel_fold (opts : list CLIHandlerOption) (c : loc) :
  Forall keepsLevel opts →
  ∀ σ h, handlers σ !! c = Some h →
    ∃ h', handlers (fold_left (λ σ opt, opt c σ) opts σ) !! c = Some h'
          ∧ CLIHandler.level h' = CLIHandler.level h.
Proof.
  induction 1 as [|opt opts Hopt _ IH]; intros σ h Hc; simpl.
  - by exists h.
  - destruct (Hopt c σ h Hc) as (h1 & H1 & Hl1).
    destruct (IH _ _ H1) as (h2 & H2 & Hl2).
    exists h2. split; [done | congruence].
Qed.

(** C1, as the code has it. With a threshold, [Enabled] holds exactly for
    the levels at or above it. A handler that [NewCLIHandler] builds from
    options that do not set a level ([WithLevel] of nil included) has the
    threshold [LevelInfo]. A handler whose [level] is nil, which the
    constructor never builds, enables every level. *)
Theorem Enabled_threshold :
  (∀ (h : CLIHandler.t) (threshold l : Level),
      CLIHandler.level h = Some threshold →
      Enabled h l = true ↔ threshold ≤ l)
  ∧ (∀ (w : option Writer) (opts : list CLIHandlerOption) (σ : Store.t),
      Forall keepsLevel opts →
      ∃ h, handlers (NewCLIHandler w opts σ).2 !! (NewCLIHandler w opts σ).1 = Some h
           ∧ CLIHandler.level h = Some LevelInfo
           ∧ ∀ l, Enabled h l = true ↔ LevelInfo ≤ l)
  ∧ (keepsLevel (WithLevel None)
     ∧ (∀ x, keepsLevel (WithLabel x))
     ∧ (∀ x, keepsLevel (WithCaller x))
     ∧ (∀ x, keepsLevel (WithTime x))
     ∧ (∀ x, keepsLevel (WithTimeFormat x))
     ∧ (∀ x, keepsLevel (WithAttrHandler x))
     ∧ (∀ x, keepsLevel (WithStyle x)))
  ∧ (∀ (h : CLIHandler.t) (l : Level),
      CLIHandler.level h = None → Enabled h l = true).
Proof.
  split; [apply Enabled_Some|]. split; [|split].
  - intros w opts σ Hopts. unfold NewCLIHandler.
    destruct (StyleOps.Style1 _) as [style σ1]. simpl.
    match goal with
    | |- context [fold_left _ opts (set_handlers (_ ++ [?h0]) ?σ2)] =>
        assert (H0 : handlers (set_handlers (handlers σ1 ++ [h0]) σ2)
                       !! length (handlers σ1) = Some h0)
          by (simpl; by rewrite list_lookup_middle);
        destruct (keepsLevel_fold opts _ Hopts _ _ H0) as (h & Hh & Hl)
    end.
    exists h. split; [exact Hh|]. simpl in Hl. split; [done|].
    intros l. by apply Enabled_Some.
  - repeat split; intros; apply update_keepsLevel; intros c;
      repeat (case_decide || case_match); done.
  - intros h l Hl. unfold Enabled. by rewrite Hl.
Qed.

Lemma Enabled_threshold_witness :
  ∃ h,
    let r := NewCLIHandler (Some (File 1))
               [WithLabel "app"; WithLevel None; WithTime true] Store.empty in
    handlers r.2 !! r.1 = Some h
    ∧ Enabled h LevelDebug = false
    ∧ Enabled h LevelInfo = true.
Proof.
  destruct Enabled_threshold as (_ & Hnew & (H1 & H2 & _ & H3 & _) & _).
  destruct (Hnew (Some (File 1)) [WithLabel "app"; WithLevel None; WithTime true]
              Store.empty) as (h & Hh & _ & He).
  { repeat constructor; [apply H2 | apply H1 | apply H3]. }
  exists h. split; [exact Hh|]. split.
  - destruct (Enabled h LevelDebug) eqn:E; [|done].
    apply He in E. by vm_compute in E.
  - apply He. by vm_compute.
Defined.

(** The handler with a nil level, as the test "nil level (debug passes)"
    builds it, enables [LevelDebug], which the threshold [LevelInfo]
    does not. *)
Lemma Enabled_nil_level_accepts_debug :
  CLIHandler.level Demo.zeroHandler = None
  ∧ Enabled Demo.zeroHandler LevelDebug = true
  ∧ Enabled Demo.infoHandler LevelDebug = false.
Proof. repeat split. Qed.

End EnabledFacts.

(** ** handler.go: slices and frames *)

Module FrameFacts.
Import Store Strings Inv.

Lemma set_strArrays_id (σ : Store.t) : set_strArrays (strArrays σ) σ = σ.
Proof. by destruct σ. Qed.

Lemma frame_refl (g : Slice) (σ : Store.t) : frame g σ σ.
Proof. split; try done. by rewrite set_strArrays_id. Qed.

Lemma frame_readStyle (g : Slice) (σ σ' : Store.t) (p : loc) :
  frame g σ σ' → StyleOps.readStyle σ' p = StyleOps.readStyle σ p.
Proof. intros [-> _ _ _ _]. done. Qed.

Lemma frame_valid (g : Slice) (σ σ' : Store.t) :
  frame g σ σ' → valid σ g → valid σ' g.
Proof.
  intros [_ Hgrow _ Hcap _] [Harr Hlen]. split; [lia|]. by rewrite Hcap.
Qed.

Lemma frame_elems_eq (g : Slice) (σ σ' : Store.t) :
  frame g σ σ' → elems σ' (Some g) = elems σ (Some g).
Proof. intros [_ _ _ _ He]. done. Qed.

Lemma arrayOf_eq (σ σ' : Store.t) (g : Slice) :
  strArrays σ' !! arr g = strArrays σ !! arr g → arrayOf σ' g = arrayOf σ g.
Proof. unfold arrayOf. by intros ->. Qed.

Lemma arrayOf_same_arr (σ : Store.t) (g1 g2 : Slice) :
  arr g1 = arr g2 → arrayOf σ g1 = arrayOf σ g2.
Proof. unfold arrayOf. by intros ->. Qed.

Lemma cap_same_arr (σ : Store.t) (g1 g2 : Slice) :
  arr g1 = arr g2 → cap σ g1 = cap σ g2.
Proof. unfold cap. by intros ->%(arrayOf_same_arr σ). Qed.

(** The frame of a call on a slice [g'] that extends [g] in place or lives
    in an array allocated later is a frame for [g]. *)
Lemma frame_lift (g g' : Slice) (σ σ1 σ2 : Store.t) :
  (arr g < length (strArrays σ))%nat →
  frame g σ σ1 → frame g' σ1 σ2 →
  (arr g' = arr g ∧ (len g ≤ len g')%nat) ∨ (length (strArrays σ) ≤ arr g')%nat →
  frame g σ σ2.
Proof.
  intros Hg [R1 G1 O1 C1 E1] [R2 G2 O2 C2 E2] Hrel.
  assert (Hne : ∀ l, (l < length (strArrays σ))%nat → l ≠ arr g →
                 strArrays σ2 !! l = strArrays σ !! l).
  { intros l Hl Hlg. rewrite <- O1 by done. apply O2; [lia|].
    destruct Hrel as [[-> _]|Hnew]; [done | lia]. }
  split.
  - rewrite R2, R1. done.
  - lia.
  - exact Hne.
  - destruct Hrel as [[Ha _]|Hnew].
    + unfold cap, arrayOf in *. rewrite <- Ha. congruence.
    + rewrite <- C1. unfold cap. f_equal. apply arrayOf_eq.
      apply O2; lia.
  - destruct Hrel as [[Ha Hlen]|Hnew].
    + rewrite <- E1.
      assert (Hgg : ∀ σ0, arrayOf σ0 g = arrayOf σ0 g')
        by (intros; unfold arrayOf; by rewrite Ha).
      rewrite !Hgg.
      rewrite <- (Nat.min_l _ _ Hlen), <- !take_take. by rewrite E2.
    + rewrite <- E1. f_equal. apply arrayOf_eq. apply O2; lia.
Qed.

Lemma frame_trans (g : Slice) (σ σ1 σ2 : Store.t) :
  (arr g < length (strArrays σ))%nat →
  frame g σ σ1 → frame g σ1 σ2 → frame g σ σ2.
Proof.
  intros Hg F1 F2. eapply (frame_lift g g); eauto.
Qed.

(** [make] *)
Lemma make_valid (n c : nat) (σ : Store.t) :
  (n ≤ c)%nat → valid (make n c σ).2 (make n c σ).1.
Proof.
  intros Hn. unfold make, valid, cap, arrayOf. simpl.
  rewrite list_lookup_middle by done. simpl.
  rewrite length_app, length_replicate. simpl. lia.
Qed.

(** [extendInPlace] *)
Lemma extendInPlace_spec (g : Slice) (key : string) (σ : Store.t) :
  valid σ g → (len g < cap σ g)%nat →
  let g' := (extendInPlace g key σ).1 in
  let σ' := (extendInPlace g key σ).2 in
  arr g' = arr g ∧ len g' = S (len g)
  ∧ valid σ' g'
  ∧ elems σ' (Some g') = elems σ (Some g) ++ [key]
  ∧ frame g σ σ'.
Proof.
  intros [Harr Hlen] Hcap. simpl.
  destruct (lookup_lt_is_Some_2 _ _ Harr) as [a Ha].
  assert (Hc : cap σ g = length a) by (unfold cap, arrayOf; by rewrite Ha).
  assert (Ha' : arrayOf (set_strArrays (alter (λ a0, <[len g:=key]> a0) (arr g)
                  (strArrays σ)) σ) g = <[len g:=key]> a).
  { unfold arrayOf. simpl. by rewrite list_lookup_alter_eq, Ha. }
  split; [done|]. split; [done|]. split; [|split].
  - split; simpl; [by rewrite length_alter|].
    rewrite (cap_same_arr _ _ g) by done.
    unfold cap in *. rewrite Ha', length_insert. lia.
  - unfold elems. simpl.
    rewrite (arrayOf_same_arr _ _ g) by done.
    rewrite Ha'. unfold arrayOf. rewrite Ha. simpl.
    rewrite (take_S_r _ _ key) by (apply list_lookup_insert_eq; lia).
    by rewrite take_insert_ge by lia.
  - split; simpl.
    + done.
    + by rewrite length_alter.
    + intros l _ Hne. by rewrite list_lookup_alter_ne.
    + unfold cap. rewrite Ha'. rewrite length_insert. by rewrite <- Hc.
    + rewrite Ha'. unfold arrayOf. rewrite Ha. simpl.
      by rewrite take_insert_ge by lia.
Qed.

(** *** Sizes *)

Lemma sizesKept_refl (σ : Store.t) : sizesKept σ σ.
Proof. intros l a Ha. by exists a. Qed.

Lemma sizesKept_trans (σ1 σ2 σ3 : Store.t) :
  sizesKept σ1 σ2 → sizesKept σ2 σ3 → sizesKept σ1 σ3.
Proof.
  intros S1 S2 l a Ha.
  destruct (S1 l a Ha) as (a1 & Ha1 & L1).
  destruct (S2 l a1 Ha1) as (a2 & Ha2 & L2).
  exists a2. split; [done | congruence].
Qed.

Lemma sizesKept_same (σ σ' : Store.t) :
  strArrays σ' = strArrays σ → sizesKept σ σ'.
Proof. intros Hs l a Ha. exists a. by rewrite Hs. Qed.

Lemma sizesKept_alloc (σ : Store.t) (a0 : list string) :
  sizesKept σ (set_strArrays (strArrays σ ++ [a0]) σ).
Proof.
  intros l a Ha. exists a. split; [|done]. simpl. by apply lookup_app_l_Some.
Qed.

Lemma sizesKept_alter (f : list string → list string) (l0 : loc) (σ : Store.t) :
  (∀ a, strArrays σ !! l0 = Some a → length (f a) = length a) →
  sizesKept σ (set_strArrays (alter f l0 (strArrays σ)) σ).
Proof.
  intros Hf l a Ha. simpl. destruct (decide (l0 = l)) as [->|Hne].
  - exists (f a). rewrite list_lookup_alter_eq, Ha. split; [done | by apply Hf].
  - exists a. by rewrite list_lookup_alter_ne.
Qed.

Lemma sizesKept_frame (g : Slice) (σ σ' : Store.t) :
  frame g σ σ' → sizesKept σ σ'.
Proof.
  intros [_ G O C _] l a Ha.
  assert (Hl : (l < length (strArrays σ))%nat) by (by eapply lookup_lt_Some).
  destruct (decide (l = arr g)) as [->|Hne].
  - destruct (lookup_lt_is_Some_2 (strArrays σ') (arr g)) as [a' Ha']; [lia|].
    exists a'. split; [done|].
    unfold cap, arrayOf in C. by rewrite Ha, Ha' in C.
  - exists a. by rewrite O.
Qed.

Lemma sizesKept_valid (σ σ' : Store.t) (o : option Slice) :
  sizesKept σ σ' → validOpt σ o → validOpt σ' o.
Proof.
  intros S Hv. destruct o as [s|]; [|done]. destruct Hv as [Ha Hl].
  destruct (lookup_lt_is_Some_2 _ _ Ha) as [a Hlook].
  destruct (S _ _ Hlook) as (a' & Hlook' & Hlen).
  split; [by eapply lookup_lt_Some|].
  unfold cap, arrayOf in *. rewrite Hlook in Hl. rewrite Hlook'. simpl in *. lia.
Qed.

Section growth.
Variable slack : nat → nat → nat.

(** [append] of one element to a full slice *)
Lemma append_full_spec (g : Slice) (key : string) (σ : Store.t) :
  valid σ g → ¬ (len g < cap σ g)%nat →
  ∃ g' σ',
    append slack (Some g) [key] σ = (Some g', σ')
    ∧ length (strArrays σ) = arr g'
    ∧ valid σ' g'
    ∧ elems σ' (Some g') = elems σ (Some g) ++ [key]
    ∧ frame g σ σ'.
Proof.
  intros [Harr Hlen] Hfull. unfold append. simpl.
  rewrite decide_False by lia.
  eexists _, _. split; [done|]. simpl.
  assert (Hl : length (take (len g) (arrayOf σ g)) = len g)
    by (rewrite length_take; unfold cap in *; lia).
  split; [done|]. split; [|split].
  - split; simpl; [rewrite length_app; simpl; lia|].
    unfold cap, arrayOf in *. simpl. rewrite list_lookup_middle by done. simpl.
    rewrite !length_app, Hl. simpl. lia.
  - unfold arrayOf in *. simpl. rewrite list_lookup_middle by done. simpl.
    rewrite (cons_middle key), app_assoc.
    rewrite take_app_length'; [done|]. rewrite length_app, Hl. simpl. lia.
  - split; simpl.
    + done.
    + rewrite length_app. lia.
    + intros l Hl' _. by rewrite lookup_app_l.
    + unfold cap, arrayOf. simpl. by rewrite lookup_app_l.
    + unfold arrayOf. simpl. by rewrite lookup_app_l.
Qed.

(** [append] to a slice of length zero: the elements are the appended
    ones, whether in place or in a new array. *)
Lemma append_empty_spec (g g0 : Slice) (xs : list string) (σ : Store.t) :
  valid σ g → len g = O → (arr g0 < length (strArrays σ))%nat →
  ∃ g' σ',
    append slack (Some g) xs σ = (Some g', σ')
    ∧ valid σ' g'
    ∧ elems σ' (Some g') = xs
    ∧ σ' = set_strArrays (strArrays σ') σ
    ∧ (length (strArrays σ) ≤ length (strArrays σ'))%nat
    ∧ (∀ l, (l < length (strArrays σ))%nat → l ≠ arr g →
         strArrays σ' !! l = strArrays σ !! l)
    ∧ (arr g' = arr g ∨ arr g' = length (strArrays σ))
    ∧ sizesKept σ σ'.
Proof.
  intros [Harr Hlen] Hz Hg0. unfold append. simpl. rewrite Hz. simpl.
  destruct (lookup_lt_is_Some_2 _ _ Harr) as [a Ha].
  assert (Hc : cap σ g = length a) by (unfold cap, arrayOf; by rewrite Ha).
  case_decide as Hfit.
  - eexists _, _. split; [done|].
    assert (Hnew : arrayOf (set_strArrays
               (alter (λ a0, xs ++ drop (length xs) a0) (arr g) (strArrays σ)) σ)
               (MkSlice (arr g) (length xs)) = xs ++ drop (length xs) a).
    { unfold arrayOf. simpl. by rewrite list_lookup_alter_eq, Ha. }
    split; [|split; [|split; [|split; [|split; [|split]]]]].
    + split; simpl; [by rewrite length_alter|].
      unfold cap. rewrite Hnew. rewrite length_app. lia.
    + unfold elems. simpl. rewrite Hnew. by rewrite take_app_length.
    + done.
    + simpl. by rewrite length_alter.
    + intros l _ Hne. simpl. by rewrite list_lookup_alter_ne.
    + by left.
    + apply sizesKept_alter. intros a0 Ha0.
      rewrite Ha in Ha0. injection Ha0 as <-.
      rewrite length_app, length_drop. lia.
  - eexists _, _. split; [done|].
    split; [|split; [|split; [|split; [|split; [|split]]]]].
    + split; simpl; [rewrite length_app; simpl; lia|].
      unfold cap, arrayOf. simpl. rewrite list_lookup_middle by done. simpl.
      rewrite length_app. lia.
    + unfold elems, arrayOf. simpl. rewrite list_lookup_middle by done. simpl.
      by rewrite take_app_length.
    + done.
    + simpl. rewrite length_app. lia.
    + intros l Hl _. simpl. by rewrite lookup_app_l.
    + by right.
    + apply sizesKept_alloc.
Qed.

(** [append] to the nil slice gives nil or a slice that fits a new
    array, and leaves the arrays that existed. *)
Lemma append_nil_valid (xs : list string) (σ : Store.t) :
  validOpt (append slack None xs σ).2 (append slack None xs σ).1
  ∧ keepsBelow (length (strArrays σ)) σ (append slack None xs σ).2.
Proof.
  unfold append. simpl. case_decide; simpl.
  - split; [done|]. by split.
  - split.
    + split; simpl; [rewrite length_app; simpl; lia|].
      unfold cap, arrayOf. simpl. rewrite list_lookup_middle by done. simpl.
      rewrite length_app. lia.
    + split; simpl; [rewrite length_app; lia|].
      intros l Hl. by rewrite lookup_app_l.
Qed.

End growth.

(** Writing cells of an array in place keeps every slice fitting. *)
Lemma alter_valid (f : list string → list string) (l0 : loc) (g : Slice) (σ : Store.t) :
  (∀ a, strArrays σ !! l0 = Some a → length (f a) = length a) →
  valid σ g → valid (set_strArrays (alter f l0 (strArrays σ)) σ) g.
Proof.
  intros Hf [Ha Hl]. split; simpl; [by rewrite length_alter|].
  unfold cap, arrayOf in *. simpl.
  destruct (decide (l0 = arr g)) as [->|Hne].
  - rewrite list_lookup_alter_eq.
    destruct (strArrays σ !! arr g) as [a|] eqn:E; simpl in *; [|done].
    by rewrite Hf.
  - by rewrite list_lookup_alter_ne.
Qed.

End FrameFacts.

(** ** handler.go: [writeAttr] *)

Module AttrFacts.
Import Store Strings Inv Handler FrameFacts.

(** Induction on attributes, through the children of groups. *)
Lemma Attr_nested_ind (P : Attr → Prop) :
  (∀ key v, (∀ attrs, v ≠ GroupValue attrs) → P (MkAttr key v)) →
  (∀ key attrs, Forall P attrs → P (MkAttr key (GroupValue attrs))) →
  ∀ a, P a.
Proof.
  intros Hscalar Hgroup. fix IH 1. intros [key v].
  destruct v as [s|n|n|f|b|t|d|attrs|text];
    try (by apply Hscalar; intros attrs' [=]).
  apply Hgroup. induction attrs as [|a attrs IHattrs]; constructor.
  - apply IH.
  - apply IHattrs.
Qed.

Section attr.
Variable Quote : string → string.
Variable FormatTime : Z → string → string.
Variable FormatFloat : Z → string.
Variable FormatDuration : Z → string.
Variable slack : nat → nat → nat.

#[local] Abbreviation writeAttr := (Handler.writeAttr Quote FormatTime FormatFloat FormatDuration slack).
#[local] Abbreviation renderAttr := (Pure.renderAttr Quote FormatTime FormatFloat FormatDuration).

(** The children loop, given that each child refines its rendering. *)
Lemma writeChildren_spec (g : Slice) (style : loc) (tl : string)
    (st : Style.t) (gs : list string) (n : nat) (l : list Attr) :
  Forall (λ a, ∀ g style tl buf σ, valid σ g →
            ∃ σ', writeAttr a (Some g) style tl buf σ
                    = (renderAttr (StyleOps.readStyle σ style) tl (elems σ (Some g)) a buf, σ')
                  ∧ frame g σ σ') l →
  ∀ i buf σ,
    valid σ g → StyleOps.readStyle σ style = st → elems σ (Some g) = gs →
    ∃ σ', writeChildren (λ a, writeAttr a (Some g) style tl) n i l buf σ
            = (Pure.renderChildren (renderAttr st tl gs) n i l buf, σ')
          ∧ frame g σ σ'.
Proof.
  induction 1 as [|a l Ha _ IH]; intros i buf σ Hv Hst Hgs; simpl.
  - exists σ. split; [done | apply frame_refl].
  - destruct (Ha g style tl buf σ Hv) as (σ1 & -> & F1).
    rewrite Hst, Hgs.
    destruct (IH (S i)
                (if decide (Z.of_nat i < Z.of_nat n - 1)
                 then renderAttr st tl gs a buf +:+ " "
                 else renderAttr st tl gs a buf) σ1) as (σ2 & -> & F2).
    + by eapply frame_valid.
    + by rewrite (frame_readStyle g σ σ1).
    + by rewrite (frame_elems_eq g σ σ1).
    + exists σ2. split; [done|]. destruct Hv. by eapply frame_trans.
Qed.

Lemma writeAttr_group (key : string) (attrs : list Attr) (g : Slice)
    (style : loc) (tl buf : string) (σ : Store.t) :
  writeAttr (MkAttr key (GroupValue attrs)) (Some g) style tl buf σ =
    let '(groups, σ) :=
      if decide (len g < cap σ g)%nat
      then let '(g, σ) := extendInPlace g key σ in (Some g, σ)
      else append slack (Some g) [key] σ in
    writeChildren (λ a, writeAttr a groups style tl) (length attrs) O attrs buf σ.
Proof. reflexivity. Qed.

(** [writeAttr] on a slice that fits its array appends what [renderAttr]
    says, for the style and the group names found in the store, and
    changes the store within the frame of the slice. *)
Lemma writeAttr_spec (a : Attr) :
  ∀ (g : Slice) (style : loc) (tl buf : string) (σ : Store.t),
    valid σ g →
    ∃ σ', writeAttr a (Some g) style tl buf σ
            = (renderAttr (StyleOps.readStyle σ style) tl (elems σ (Some g)) a buf, σ')
          ∧ frame g σ σ'.
Proof.
  induction a as [key v Hv|key attrs IH] using Attr_nested_ind;
    intros g style tl buf σ Hval.
  - exists σ. split; [|apply frame_refl].
    destruct v; try done. by destruct (Hv attrs).
  - rewrite writeAttr_group. case_decide as Hcap.
    + destruct (extendInPlace_spec g key σ Hval Hcap) as (Harr & Hlen & Hv' & He & F1).
      destruct (extendInPlace g key σ) as [g' σ1] eqn:Hext. simpl in *.
      destruct (writeChildren_spec g' style tl (StyleOps.readStyle σ style)
                  (elems σ (Some g) ++ [key]) (length attrs) attrs IH O buf σ1)
        as (σ2 & Hw & F2); [done | by rewrite (frame_readStyle g σ σ1) | done |].
      exists σ2. split; [exact Hw|].
      destruct Hval as [Ha Hl].
      eapply (frame_lift g g'); eauto. left. split; [done | lia].
    + destruct (append_full_spec slack g key σ Hval Hcap)
        as (g' & σ1 & -> & Harr & Hv' & He & F1).
      destruct (writeChildren_spec g' style tl (StyleOps.readStyle σ style)
                  (elems σ (Some g) ++ [key]) (length attrs) attrs IH O buf σ1)
        as (σ2 & Hw & F2); [done | by rewrite (frame_readStyle g σ σ1) | done |].
      exists σ2. split; [exact Hw|].
      destruct Hval as [Ha Hl].
      eapply (frame_lift g g'); eauto. right. lia.
Qed.

(** A nil [groups] is replaced by a new slice of capacity 8. *)
Lemma writeAttr_nil (a : Attr) (style : loc) (tl buf : string) (σ : Store.t) :
  writeAttr a None style tl buf σ
    = writeAttr a (Some (make 0 8 σ).1) style tl buf (make 0 8 σ).2.
Proof. by destruct a as [key []]. Qed.

Lemma writeAttr_nil_spec (a : Attr) (style : loc) (tl buf : string) (σ : Store.t) :
  ∃ σ', writeAttr a None style tl buf σ
          = (renderAttr (StyleOps.readStyle σ style) tl [] a buf, σ')
        ∧ σ' = set_strArrays (strArrays σ') σ
        ∧ (∀ l, (l < length (strArrays σ))%nat →
             strArrays σ' !! l = strArrays σ !! l).
Proof.
  rewrite writeAttr_nil.
  destruct (writeAttr_spec a (make 0 8 σ).1 style tl buf (make 0 8 σ).2)
    as (σ' & Hw & [R G O _ _]).
  { apply make_valid. lia. }
  exists σ'. split; [exact Hw|]. split; [by rewrite R|].
  intros l Hl. rewrite O; simpl.
  - by rewrite lookup_app_l.
  - rewrite length_app. lia.
  - lia.
Qed.

End attr.
End AttrFacts.

(** ** Rendering as text *)

Module PureFacts.
Import Store Strings Inv Handler FrameFacts AttrFacts.

Lemma WriteString_app (c : option Color.Color) (buf s : string) :
  Color.WriteString c buf s = buf +:+ Color.WriteString c "" s.
Proof.
  unfold Color.WriteString.
  destruct c as [c|]; repeat case_decide;
    rewrite ?StrFacts.app_nil_l, ?StrFacts.app_nil_r, ?StrFacts.app_assoc; done.
Qed.

Lemma WriteBytes_app (c : option Color.Color) (buf b : string) :
  Color.WriteBytes c buf b = buf +:+ Color.WriteBytes c "" b.
Proof.
  unfold Color.WriteBytes.
  destruct c as [c|]; repeat case_decide;
    rewrite ?StrFacts.app_nil_l, ?StrFacts.app_nil_r, ?StrFacts.app_assoc; done.
Qed.

Lemma ContainsAny_app (s a b : string) :
  Str.ContainsAny s (a +:+ b) = Str.ContainsAny s a || Str.ContainsAny s b.
Proof.
  assert (Hmem : ∀ c, Str.mem c (a +:+ b) = Str.mem c a || Str.mem c b).
  { intros c. induction a as [|d a IH]; [done|].
    rewrite StrFacts.app_cons. simpl. destruct (Ascii.eqb c d); [done | exact IH]. }
  induction s as [|c s IH]; [done|]. simpl. rewrite Hmem, IH.
  destruct (Str.mem c a), (Str.mem c b); simpl; try done.
  by rewrite orb_true_r.
Qed.

Lemma ContainsAny_mem (s chars : string) :
  Str.ContainsAny s chars = true ↔
    ∃ c, Str.mem c s = true ∧ Str.mem c chars = true.
Proof.
  induction s as [|d s IH]; simpl.
  - split; [done | by intros (c & ? & _)].
  - destruct (Str.mem d chars) eqn:Hd.
    + split; [|done]. intros _. exists d. by rewrite Ascii.eqb_refl.
    + rewrite IH. split.
      * intros (c & Hc & Hm). exists c. split; [|done].
        by destruct (Ascii.eqb c d).
      * intros (c & Hc & Hm). exists c. split; [|done].
        destruct (Ascii.eqb c d) eqn:Hcd; [|done].
        apply Ascii.eqb_eq in Hcd. congruence.
Qed.

Section pure.
Variable Quote : string → string.
Variable FormatTime : Z → string → string.
Variable FormatFloat : Z → string.
Variable FormatDuration : Z → string.

#[local] Abbreviation writeValue := (Handler.writeValue Quote FormatTime FormatFloat FormatDuration).
#[local] Abbreviation writeScalar := (Handler.writeScalar Quote FormatTime FormatFloat FormatDuration).
#[local] Abbreviation renderAttr := (Pure.renderAttr Quote FormatTime FormatFloat FormatDuration).
#[local] Abbreviation attrBytes := (Pure.attrBytes Quote FormatTime FormatFloat FormatDuration).
#[local] Abbreviation valueText := (Pure.valueText Quote FormatTime FormatFloat FormatDuration).
#[local] Abbreviation attrText := (Pure.attrText Quote FormatTime FormatFloat FormatDuration).

(** The two [ContainsAny] tests of [writeAttr] are one test for the five
    characters. *)
Lemma needsQuote_eq (s : string) :
  Str.ContainsAny s (String " " (String tab (String newline "")))
    || Str.ContainsAny s (String backslash (String dquote ""))
  = Pure.needsQuote s.
Proof. unfold Pure.needsQuote. by rewrite <- ContainsAny_app. Qed.

Lemma needsQuote_chars (s : string) :
  Pure.needsQuote s = true ↔
    ∃ c, Str.mem c s = true
         ∧ (c = " "%char ∨ c = tab ∨ c = newline ∨ c = backslash ∨ c = dquote).
Proof.
  unfold Pure.needsQuote. rewrite ContainsAny_mem.
  split; intros (c & Hc & Hm); exists c; (split; [done|]).
  - simpl in Hm.
    repeat (match type of Hm with
            | context [Ascii.eqb c ?d] =>
                destruct (Ascii.eqb_spec c d); [subst; auto|]
            end).
    done.
  - destruct Hm as [->|[->|[->|[->| ->]]]]; reflexivity.
Qed.

(** The value of a string attribute, for any value colour. *)
Lemma writeValue_string (vc : option Color.Color) (tl s buf : string) :
  writeValue vc tl (StringValue s) buf
    = Color.WriteString vc buf (if Pure.needsQuote s then Quote s else s).
Proof. simpl. rewrite needsQuote_eq. by destruct (Pure.needsQuote s). Qed.

Lemma writeValue_app (vc : option Color.Color) (tl : string) (v : Value) (buf : string) :
  writeValue vc tl v buf = buf +:+ writeValue vc tl v "".
Proof.
  destruct v; simpl; repeat case_match;
    first [ apply WriteString_app | apply WriteBytes_app
          | by rewrite StrFacts.app_nil_r ].
Qed.

Lemma writeValue_plain (vc : option Color.Color) (tl : string) (v : Value) (buf : string) :
  Color.plain vc → (∀ attrs, v ≠ GroupValue attrs) →
  writeValue vc tl v buf = buf +:+ valueText tl v.
Proof.
  intros Hvc Hv. destruct v; try (by destruct (Hv attrs));
    try rewrite writeValue_string; simpl; repeat case_match;
    first [ by apply ColorFacts.WriteString_plain
          | by apply ColorFacts.WriteBytes_plain ].
Qed.

Lemma writeGroupPath_app (kc : option Color.Color) (n : nat) (gs : list string) :
  ∀ i buf, writeGroupPath kc i n gs buf = buf +:+ writeGroupPath kc i n gs "".
Proof.
  induction gs as [|g gs IH]; intros i buf; simpl.
  - by rewrite StrFacts.app_nil_r.
  - rewrite IH. symmetry. rewrite IH. symmetry.
    rewrite <- StrFacts.app_assoc. f_equal.
    case_decide.
    + rewrite WriteString_app, (WriteString_app kc buf g).
      rewrite (WriteString_app kc (Color.WriteString kc "" g)).
      by rewrite StrFacts.app_assoc.
    + apply WriteString_app.
Qed.

(** Without colour the loop writes the names with dots between them. *)
Lemma writeGroupPath_plain (kc : option Color.Color) (gs : list string) :
  Color.plain kc →
  ∀ i n buf, (i + length gs = n)%nat → gs ≠ [] →
    writeGroupPath kc i n gs buf +:+ "." = buf +:+ Pure.groupPath gs.
Proof.
  intros Hkc. induction gs as [|g gs IH]; intros i n buf Hn Hne; [done|].
  simpl in *. rewrite !ColorFacts.WriteString_plain by done.
  destruct gs as [|g' gs]; simpl length in *.
  - simpl. rewrite decide_False by lia.
    by rewrite !StrFacts.app_assoc.
  - rewrite decide_True by lia.
    rewrite (IH (S i) n) by (done || lia).
    by rewrite !StrFacts.app_assoc.
Qed.

Lemma writeScalar_app (st : Style.t) (tl key : string) (v : Value)
    (gs : list string) (buf : string) :
  writeScalar st tl key v gs buf = buf +:+ writeScalar st tl key v gs "".
Proof.
  unfold Handler.writeScalar.
  rewrite writeValue_app. symmetry. rewrite writeValue_app. symmetry.
  rewrite <- StrFacts.app_assoc. f_equal.
  rewrite WriteString_app. symmetry. rewrite WriteString_app. symmetry.
  rewrite <- StrFacts.app_assoc. f_equal.
  rewrite WriteString_app. symmetry. rewrite WriteString_app. symmetry.
  rewrite <- StrFacts.app_assoc. f_equal.
  case_decide; [|by rewrite StrFacts.app_nil_r].
  rewrite WriteString_app. symmetry. rewrite WriteString_app. symmetry.
  rewrite <- StrFacts.app_assoc. f_equal.
  apply writeGroupPath_app.
Qed.

Lemma writeScalar_plain (st : Style.t) (tl key : string) (v : Value)
    (gs : list string) (buf : string) :
  plainAttr st → (∀ attrs, v ≠ GroupValue attrs) →
  writeScalar st tl key v gs buf
    = buf +:+ Pure.groupPath gs +:+ key
          +:+ AttrStyle.Separator (Style.Attr st) +:+ valueText tl v.
Proof.
  intros [Hk Hv] Hnv. unfold Handler.writeScalar.
  rewrite writeValue_plain by done.
  rewrite !(ColorFacts.WriteString_plain (AttrStyle.KeyColor _) _ key) by done.
  rewrite !(ColorFacts.WriteString_plain (AttrStyle.KeyColor _) _ (AttrStyle.Separator _)) by done.
  case_decide as Hgs.
  - rewrite ColorFacts.WriteString_plain by done.
    rewrite (writeGroupPath_plain _ gs Hk 0 (length gs));
      [| done | intros ->; simpl in Hgs; lia].
    by rewrite !StrFacts.app_assoc.
  - destruct gs; [|simpl in Hgs; lia]. simpl.
    by rewrite !StrFacts.app_assoc.
Qed.

Lemma renderChildren_app (render : Attr → string → string) (n : nat) (l : list Attr) :
  Forall (λ a, ∀ buf, render a buf = buf +:+ render a "") l →
  ∀ i buf,
    Pure.renderChildren render n i l buf
      = buf +:+ Pure.renderChildren render n i l "".
Proof.
  induction 1 as [|a l Ha _ IH]; intros i buf; simpl.
  - by rewrite StrFacts.app_nil_r.
  - rewrite IH. symmetry. rewrite IH. symmetry.
    rewrite <- StrFacts.app_assoc. f_equal.
    case_decide; rewrite Ha; by rewrite ?StrFacts.app_assoc.
Qed.

(** [renderAttr] only appends. *)
Lemma renderAttr_app (st : Style.t) (tl : string) (a : Attr) :
  ∀ gs buf, renderAttr st tl gs a buf = buf +:+ attrBytes st tl gs a.
Proof.
  unfold Pure.attrBytes.
  induction a as [key v Hv|key attrs IH] using Attr_nested_ind; intros gs buf.
  - destruct v; try apply writeScalar_app. by destruct (Hv attrs).
  - simpl. apply renderChildren_app.
    eapply Forall_impl; [exact IH|]. intros a Ha buf'. apply Ha.
Qed.

Lemma renderChildren_join (render : Attr → string → string)
    (text : Attr → string) (n : nat) (l : list Attr) :
  Forall (λ a, ∀ buf, render a buf = buf +:+ text a) l →
  ∀ i buf, (i + length l = n)%nat →
    Pure.renderChildren render n i l buf
      = buf +:+ Pure.joinSpace (map text l).
Proof.
  induction 1 as [|a l Ha _ IH]; intros i buf Hn; simpl.
  - by rewrite StrFacts.app_nil_r.
  - rewrite Ha. destruct l as [|b l].
    + simpl. by rewrite decide_False by (simpl in Hn; lia).
    + rewrite decide_True by (simpl in Hn; lia).
      rewrite IH by (simpl in *; lia).
      change (Pure.joinSpace (text a :: map text (b :: l)))
        with (text a +:+ " " +:+ Pure.joinSpace (map text (b :: l))).
      by rewrite !StrFacts.app_assoc.
Qed.

(** Without colour, [renderAttr] appends the text of the attribute. *)
Lemma renderAttr_plain (st : Style.t) (tl : string) (a : Attr) :
  plainAttr st →
  ∀ gs buf,
    renderAttr st tl gs a buf
      = buf +:+ attrText (AttrStyle.Separator (Style.Attr st)) tl gs a.
Proof.
  intros Hst.
  induction a as [key v Hv|key attrs IH] using Attr_nested_ind; intros gs buf.
  - destruct v; try (by destruct (Hv attrs));
      (apply writeScalar_plain; [done | intros ? [=]]).
  - simpl. apply renderChildren_join; [|done].
    eapply Forall_impl; [exact IH|]. intros a Ha buf'. apply Ha.
Qed.

End pure.
End PureFacts.

(** ** handler.go: the text of attributes *)

Module AttrTheorems.
Import Store Strings Inv Handler FrameFacts AttrFacts PureFacts.

Section attr.
Variable Quote : string → string.
Variable FormatTime : Z → string → string.
Variable FormatFloat : Z → string.
Variable FormatDuration : Z → string.
Variable slack : nat → nat → nat.

#[local] Abbreviation writeAttr := (Handler.writeAttr Quote FormatTime FormatFloat FormatDuration slack).
#[local] Abbreviation writeValue := (Handler.writeValue Quote FormatTime FormatFloat FormatDuration).
#[local] Abbreviation renderAttr := (Pure.renderAttr Quote FormatTime FormatFloat FormatDuration).
#[local] Abbreviation valueText := (Pure.valueText Quote FormatTime FormatFloat FormatDuration).
#[local] Abbreviation attrText := (Pure.attrText Quote FormatTime FormatFloat FormatDuration).

Lemma writeAttr_text (style : loc) (σ : Store.t) (tl buf : string)
    (a : Attr) (g : Slice) :
  plainAttr (StyleOps.readStyle σ style) → valid σ g →
  (writeAttr a (Some g) style tl buf σ).1
    = buf +:+ attrText (AttrStyle.Separator (Style.Attr (StyleOps.readStyle σ style)))
                tl (elems σ (Some g)) a.
Proof.
  intros Hst Hg.
  destruct (writeAttr_spec Quote FormatTime FormatFloat FormatDuration slack
              a g style tl buf σ Hg) as (σ' & -> & _).
  simpl. by apply renderAttr_plain.
Qed.

Lemma writeAttr_nil_text (style : loc) (σ : Store.t) (tl buf : string) (a : Attr) :
  plainAttr (StyleOps.readStyle σ style) →
  (writeAttr a None style tl buf σ).1
    = buf +:+ attrText (AttrStyle.Separator (Style.Attr (StyleOps.readStyle σ style)))
                tl [] a.
Proof.
  intros Hst.
  destruct (writeAttr_nil_spec Quote FormatTime FormatFloat FormatDuration slack
              a style tl buf σ) as (σ' & -> & _).
  simpl. by apply renderAttr_plain.
Qed.

Lemma groupPath_snoc (gs : list string) (g : string) :
  Pure.groupPath (gs ++ [g]) = Pure.groupPath gs +:+ g +:+ ".".
Proof.
  induction gs as [|x gs IH]; simpl.
  - by rewrite StrFacts.app_nil_r.
  - by rewrite IH, !StrFacts.app_assoc.
Qed.

(** C7. Under a style without attribute colours and with separator "=",
    the group "outer" holding the group "inner" holding key=value is
    written as outer.inner.key=value. In general, under such a style an
    attribute is written as its text: a scalar as the group names, each
    followed by a dot, then key, separator and value; a group as the
    texts of its children under the path extended by its key, with one
    space between neighbours and none after the last. *)
Theorem writeAttr_group_path (style : loc) (σ : Store.t) (tl buf : string) :
  plainAttr (StyleOps.readStyle σ style) →
  let sep := AttrStyle.Separator (Style.Attr (StyleOps.readStyle σ style)) in
  (sep = "=" →
     (writeAttr (Group "outer" [Group "inner" [String_ "key" "value"]])
        None style tl buf σ).1
       = buf +:+ "outer.inner.key=value")
  ∧ (∀ a, (writeAttr a None style tl buf σ).1 = buf +:+ attrText sep tl [] a)
  ∧ (∀ a g, valid σ g →
       (writeAttr a (Some g) style tl buf σ).1
         = buf +:+ attrText sep tl (elems σ (Some g)) a)
  ∧ (∀ gs key v, (∀ attrs, v ≠ GroupValue attrs) →
       attrText sep tl gs (MkAttr key v)
         = Pure.groupPath gs +:+ key +:+ sep +:+ valueText tl v)
  ∧ (∀ gs key attrs,
       attrText sep tl gs (Group key attrs)
         = Pure.joinSpace (map (attrText sep tl (gs ++ [key])) attrs))
  ∧ (∀ gs g, Pure.groupPath (gs ++ [g]) = Pure.groupPath gs +:+ g +:+ ".")
  ∧ (∀ x, Pure.joinSpace [x] = x)
  ∧ (∀ x y l, Pure.joinSpace (x :: y :: l) = x +:+ " " +:+ Pure.joinSpace (y :: l)).
Proof.
  intros Hst sep. split; [|split; [|split; [|split; [|split; [|split; [|split]]]]]].
  - intros Hsep. rewrite writeAttr_nil_text by done. fold sep. by rewrite Hsep.
  - intros a. by apply writeAttr_nil_text.
  - intros a g Hg. by apply writeAttr_text.
  - intros gs key v Hv. destruct v; try done. by destruct (Hv attrs).
  - done.
  - apply groupPath_snoc.
  - done.
  - done.
Qed.

(** C9, as the code has it. The value of a string attribute is written
    as [strconv.Quote] of the string when the string contains a space, a
    tab, a newline, a backslash or a double quote, and as the string
    itself otherwise; other whitespace does not count. Under a style
    without attribute colours and with separator "=", key "k" with value
    "a b" is written as k="a b" and with value "ab" as k=ab. *)
Theorem string_attr_quoting (style : loc) (σ : Store.t) (tl buf key s : string) :
  (∀ vc, writeValue vc tl (StringValue s) buf
           = Color.WriteString vc buf (if Pure.needsQuote s then Quote s else s))
  ∧ (Pure.needsQuote s = true ↔
       ∃ c, Str.mem c s = true
            ∧ (c = " "%char ∨ c = tab ∨ c = newline ∨ c = backslash ∨ c = dquote))
  ∧ (plainAttr (StyleOps.readStyle σ style) →
     let sep := AttrStyle.Separator (Style.Attr (StyleOps.readStyle σ style)) in
     (writeAttr (String_ key s) None style tl buf σ).1
       = buf +:+ key +:+ sep +:+ (if Pure.needsQuote s then Quote s else s)
     ∧ (sep = "=" →
          (writeAttr (String_ "k" "a b") None style tl buf σ).1
            = buf +:+ "k=" +:+ Quote "a b")
     ∧ (sep = "=" →
          (writeAttr (String_ "k" "ab") None style tl buf σ).1
            = buf +:+ "k=ab")).
Proof.
  split; [intros vc; apply writeValue_string|].
  split; [apply needsQuote_chars|].
  intros Hst sep. split; [|split].
  - rewrite writeAttr_nil_text by done. done.
  - intros Hsep. rewrite writeAttr_nil_text by done. fold sep. by rewrite Hsep.
  - intros Hsep. rewrite writeAttr_nil_text by done. fold sep. by rewrite Hsep.
Qed.

End attr.

(** The style [Style0] in the store it is built in, with the stand-in
    library functions. *)
Lemma writeAttr_group_path_witness :
  (Demo.writeAttr (Group "outer" [Group "inner" [String_ "key" "value"]])
     None O "" "" (StyleOps.Style0 Store.empty).2).1
    = "outer.inner.key=value".
Proof.
  assert (Hst : plainAttr (StyleOps.readStyle (StyleOps.Style0 Store.empty).2 O))
    by (by split).
  destruct (writeAttr_group_path Demo.Quote Demo.FormatTime Demo.FormatFloat
              Demo.FormatDuration Demo.slack O (StyleOps.Style0 Store.empty).2
              "" "" Hst) as [H _].
  apply H. reflexivity.
Defined.

Lemma string_attr_quoting_witness :
  (Demo.writeAttr (String_ "k" "a b") None O "" "" (StyleOps.Style0 Store.empty).2).1
    = "k=" +:+ String dquote ("a b" +:+ String dquote "")
  ∧ (Demo.writeAttr (String_ "k" "ab") None O "" "" (StyleOps.Style0 Store.empty).2).1
    = "k=ab".
Proof.
  assert (Hst : plainAttr (StyleOps.readStyle (StyleOps.Style0 Store.empty).2 O))
    by (by split).
  destruct (string_attr_quoting Demo.Quote Demo.FormatTime Demo.FormatFloat
              Demo.FormatDuration Demo.slack O (StyleOps.Style0 Store.empty).2
              "" "" "k" "ab") as (_ & _ & H).
  destruct (H Hst) as (_ & H1 & H2).
  split; [apply H1 | apply H2]; reflexivity.
Defined.

(** A value with a carriage return contains whitespace and is written
    bare, not quoted. *)
Lemma string_attr_carriage_return_bare :
  let s := String "a" (String "013" "b") in
  Pure.hasWhitespace s = true
  ∧ (Demo.writeAttr (String_ "k" s) None O "" "" (StyleOps.Style0 Store.empty).2).1
      = "k=" +:+ s
  ∧ "k=" +:+ s ≠ "k=" +:+ Demo.Quote s.
Proof. repeat split. intros [=]. Qed.

End AttrTheorems.

(** ** handler.go: the steps of [Handle] *)

Module StepFacts.
Import Store Strings Inv Handler FrameFacts AttrFacts PureFacts.

#[local] Arguments Strings.append : simpl never.
#[local] Arguments Strings.make : simpl never.

Lemma quiet_refl (σ : Store.t) : quiet σ σ.
Proof. by split. Qed.

Lemma quiet_trans (σ1 σ2 σ3 : Store.t) : quiet σ1 σ2 → quiet σ2 σ3 → quiet σ1 σ3.
Proof. intros [] []. split; try congruence. auto. Qed.

Lemma quiet_set_strArrays (x : list (list string)) (σ : Store.t) :
  quiet σ (set_strArrays x σ).
Proof. by split. Qed.

Lemma quiet_set_pcCaches (x : list (gmap Z string)) (σ : Store.t) :
  quiet σ (set_pcCaches x σ).
Proof. by split. Qed.

Lemma quiet_strStep (σ σ' : Store.t) :
  σ' = set_strArrays (strArrays σ') σ → quiet σ σ'.
Proof. intros ->. apply quiet_set_strArrays. Qed.

Lemma poolGet_spec (σ : Store.t) :
  ∃ free, (poolGet σ).2 = set_pool free (S (poolOut σ)) σ
          ∧ (poolClean σ → (poolGet σ).1 = "" ∧ Forall (λ b, b = "") free).
Proof.
  unfold poolGet, poolClean. destruct (poolFree σ) as [|b free]; simpl.
  - exists []. split; [done|]. by intros _.
  - exists free. split; [done|]. by intros [-> ?]%Forall_cons.
Qed.

Section steps.
Variable StringWidth : string → Z.
Variable Quote : string → string.
Variable FormatTime : Z → string → string.
Variable FormatFloat : Z → string.
Variable FormatDuration : Z → string.
Variable FuncForPC : Z → option FuncInfo.t.
Variable slack : nat → nat → nat.

#[local] Abbreviation writeAttr := (Handler.writeAttr Quote FormatTime FormatFloat FormatDuration slack).
#[local] Abbreviation writeAttrs := (Handler.writeAttrs Quote FormatTime FormatFloat FormatDuration slack).
#[local] Abbreviation writeRecordAttrs := (Handler.writeRecordAttrs Quote FormatTime FormatFloat FormatDuration slack).
#[local] Abbreviation writeAligned := (Handler.writeAligned StringWidth).
#[local] Abbreviation writeLevel := (Handler.writeLevel StringWidth).
#[local] Abbreviation writeLabel := (Handler.writeLabel StringWidth).
#[local] Abbreviation writeCallerPart := (Handler.writeCallerPart FuncForPC).
#[local] Abbreviation handleGroups := (Handler.handleGroups slack).
#[local] Abbreviation renderHead := (Handler.renderHead StringWidth Quote FormatTime FormatFloat FormatDuration FuncForPC slack).
#[local] Abbreviation render := (Handler.render StringWidth Quote FormatTime FormatFloat FormatDuration FuncForPC slack).
#[local] Abbreviation attrBytes := (Pure.attrBytes Quote FormatTime FormatFloat FormatDuration).
#[local] Abbreviation recordSegments := (Pure.recordSegments Quote FormatTime FormatFloat FormatDuration).

(** *** The pool steps *)

Lemma writeAligned_step (c : option Color.Color) (text : string) (width : Z)
    (buf : string) (σ : Store.t) :
  let σ' := (writeAligned c text width buf σ).2 in
  quiet σ σ' ∧ strArrays σ' = strArrays σ ∧ pcCaches σ' = pcCaches σ.
Proof.
  unfold Handler.writeAligned. case_decide; [|by split; [apply quiet_refl|]].
  destruct (poolGet_spec σ) as (free & Hσ & Hclean).
  destruct (poolGet σ) as [tmp σ1]. simpl in *. subst σ1.
  split; [|done]. split; try done.
  intros Hc. destruct (Hclean Hc) as [_ Hfree].
  unfold poolPut, poolClean. simpl. by constructor.
Qed.

Lemma writeLevel_step (ls : LevelStyle.t) (buf : string) (σ : Store.t) :
  let σ' := (writeLevel ls buf σ).2 in
  quiet σ σ' ∧ strArrays σ' = strArrays σ ∧ pcCaches σ' = pcCaches σ.
Proof.
  unfold Handler.writeLevel. case_decide; [|by split; [apply quiet_refl|]].
  pose proof (writeAligned_step (LevelStyle.Color ls) (LevelStyle.Text ls)
                (LevelStyle.Width ls) (writeAffix (LevelStyle.Prefix ls) buf) σ) as Hal.
  by destruct (writeAligned _ _ _ _ σ).
Qed.

Lemma writeLabel_step (h : CLIHandler.t) (label : LabelStyle.t) (buf : string)
    (σ : Store.t) :
  let σ' := (writeLabel h label buf σ).2 in
  quiet σ σ' ∧ strArrays σ' = strArrays σ ∧ pcCaches σ' = pcCaches σ.
Proof.
  unfold Handler.writeLabel. case_decide; [|by split; [apply quiet_refl|]].
  pose proof (writeAligned_step (LabelStyle.Color label) (CLIHandler.prefix h)
                (LabelStyle.Width label) (writeAffix (LabelStyle.Prefix label) buf) σ) as Hal.
  by destruct (writeAligned _ _ _ _ σ).
Qed.

Lemma writeCallerPart_step (h : CLIHandler.t) (r : Record.t)
    (caller : CallerStyle.t) (buf : string) (σ : Store.t) :
  let σ' := (writeCallerPart h r caller buf σ).2 in
  quiet σ σ' ∧ strArrays σ' = strArrays σ.
Proof.
  unfold Handler.writeCallerPart.
  repeat (case_match || case_decide); simpl;
    by split; [first [apply quiet_refl | apply quiet_set_pcCaches]|].
Qed.

(** *** The steps on string arrays, for any slice *)

Lemma append_strStep (g : option Slice) (xs : list string) (σ : Store.t) :
  (append slack g xs σ).2 = set_strArrays (strArrays (append slack g xs σ).2) σ.
Proof.
  unfold append. destruct g as [g|]; repeat case_decide; simpl;
    by rewrite ?set_strArrays_id.
Qed.

Lemma writeChildren_strStep (write : Attr → string → Store.t → string * Store.t)
    (n : nat) (l : list Attr) :
  Forall (λ a, ∀ buf σ, (write a buf σ).2
                          = set_strArrays (strArrays (write a buf σ).2) σ) l →
  ∀ i buf σ,
    (writeChildren write n i l buf σ).2
      = set_strArrays (strArrays (writeChildren write n i l buf σ).2) σ.
Proof.
  induction 1 as [|a l Ha _ IH]; intros i buf σ; simpl.
  - by rewrite set_strArrays_id.
  - specialize (Ha buf σ). destruct (write a buf σ) as [buf1 σ1]. simpl in Ha.
    rewrite IH. rewrite Ha at 2. done.
Qed.

Lemma writeAttr_strStep (a : Attr) :
  ∀ (g : option Slice) (style : loc) (tl buf : string) (σ : Store.t),
    (writeAttr a g style tl buf σ).2
      = set_strArrays (strArrays (writeAttr a g style tl buf σ).2) σ.
Proof.
  induction a as [key v Hv|key attrs IH] using Attr_nested_ind;
    intros g style tl buf σ.
  - destruct g as [g|], v; simpl; try (by rewrite set_strArrays_id); try done;
      by destruct (Hv attrs).
  - assert (Hg : ∀ g σ,
        (writeAttr (MkAttr key (GroupValue attrs)) (Some g) style tl buf σ).2
          = set_strArrays
              (strArrays (writeAttr (MkAttr key (GroupValue attrs)) (Some g) style tl buf σ).2) σ).
    { clear g σ. intros g σ. rewrite writeAttr_group.
      assert (Hpush : ∀ p : option Slice * Store.t,
                p = (if decide (len g < cap σ g)%nat
                     then let '(g0, σ0) := extendInPlace g key σ in (Some g0, σ0)
                     else append slack (Some g) [key] σ) →
                p.2 = set_strArrays (strArrays p.2) σ).
      { intros p ->. case_decide; [done | apply append_strStep]. }
      specialize (Hpush _ eq_refl).
      destruct (if decide (len g < cap σ g)%nat then _ else _) as [g' σ1].
      simpl in Hpush.
      rewrite (writeChildren_strStep (λ a, writeAttr a g' style tl) (length attrs) attrs).
      - rewrite Hpush at 2. done.
      - eapply Forall_impl; [exact IH|]. intros a Ha buf' σ'. apply Ha. }
    destruct g as [g|]; [apply Hg|].
    rewrite writeAttr_nil. rewrite Hg at 1. done.
Qed.

Lemma writeAttrs_strStep (g : option Slice) (style : loc) (tl : string)
    (attrs : list Attr) :
  ∀ buf σ,
    (writeAttrs g style tl attrs buf σ).2
      = set_strArrays (strArrays (writeAttrs g style tl attrs buf σ).2) σ.
Proof.
  unfold Handler.writeAttrs.
  induction attrs as [|a attrs IH]; intros buf σ; simpl.
  - by rewrite set_strArrays_id.
  - case_decide; [apply IH|].
    pose proof (writeAttr_strStep a g style tl (buf +:+ " ") σ) as Ha.
    destruct (writeAttr a g style tl (buf +:+ " ") σ) as [buf1 σ1]. simpl in Ha.
    rewrite IH. rewrite Ha at 2. done.
Qed.

Lemma writeRecordAttrs_strStep (h : CLIHandler.t) (g : option Slice)
    (attrs : list Attr) :
  ∀ buf σ,
    (writeRecordAttrs h g attrs buf σ).2
      = set_strArrays (strArrays (writeRecordAttrs h g attrs buf σ).2) σ.
Proof.
  unfold Handler.writeRecordAttrs.
  induction attrs as [|a attrs IH]; intros buf σ; simpl.
  - by rewrite set_strArrays_id.
  - case_decide; [apply IH|].
    match goal with
    | |- context [Handler.writeAttr _ _ _ _ _ ?a' g ?st ?tl ?b σ] =>
        pose proof (writeAttr_strStep a' g st tl b σ) as Ha;
        destruct (writeAttr a' g st tl b σ) as [buf1 σ1]
    end.
    simpl in Ha. rewrite IH. rewrite Ha at 2. done.
Qed.

Lemma handleGroups_strStep (h : CLIHandler.t) (σ : Store.t) :
  (handleGroups h σ).2 = set_strArrays (strArrays (handleGroups h σ).2) σ.
Proof.
  unfold Handler.handleGroups.
  destruct (CLIHandler.groupsCache h) as [gc|]; simpl.
  - case_decide; [apply append_strStep | by rewrite set_strArrays_id].
  - unfold make. simpl. case_decide; simpl; [|done].
    rewrite append_strStep at 1. done.
Qed.

(** [render] is quiet. *)
Lemma renderHead_quiet (h : CLIHandler.t) (r : Record.t) (ls : LevelStyle.t)
    (buf : string) (σ : Store.t) :
  quiet σ (renderHead h r ls buf σ).2.
Proof.
  unfold Handler.renderHead.
  pose proof (writeLevel_step ls buf σ) as (Q1 & _).
  destruct (writeLevel ls buf σ) as [buf1 σ1]. simpl in Q1.
  match goal with
  | |- context [Handler.writeCallerPart _ h r ?c buf1 σ1] =>
      pose proof (writeCallerPart_step h r c buf1 σ1) as (Q2 & _);
      destruct (writeCallerPart h r c buf1 σ1) as [buf2 σ2]
  end. simpl in Q2.
  match goal with
  | |- context [Handler.writeLabel _ h ?l buf2 σ2] =>
      pose proof (writeLabel_step h l buf2 σ2) as (Q3 & _);
      destruct (writeLabel h l buf2 σ2) as [buf3 σ3]
  end. simpl in Q3.
  pose proof (handleGroups_strStep h σ3) as Q4%quiet_strStep.
  destruct (handleGroups h σ3) as [groups σ4]. simpl in Q4.
  assert (Q : quiet σ σ4) by (repeat (eapply quiet_trans; [|eassumption]); done).
  case_decide; simpl; [done|].
  match goal with
  | |- context [Handler.writeAttrs _ _ _ _ _ groups ?st ?tl ?as' ?b σ4] =>
      pose proof (writeAttrs_strStep groups st tl as' b σ4) as Q5%quiet_strStep;
      destruct (writeAttrs groups st tl as' b σ4) as [buf5 σ5]
  end. simpl in *. by eapply quiet_trans.
Qed.

Lemma render_quiet (h : CLIHandler.t) (r : Record.t) (ls : LevelStyle.t)
    (buf : string) (σ : Store.t) :
  quiet σ (render h r ls buf σ).2.
Proof.
  unfold Handler.render.
  pose proof (renderHead_quiet h r ls buf σ) as Q1.
  destruct (renderHead h r ls buf σ) as [[buf1 groups] σ1]. simpl in Q1.
  pose proof (writeRecordAttrs_strStep h groups (Record.attrs r) buf1 σ1)
    as Q2%quiet_strStep.
  destruct (writeRecordAttrs h groups (Record.attrs r) buf1 σ1) as [buf2 σ2].
  simpl in *. by eapply quiet_trans.
Qed.

End steps.
End StepFacts.

(** ** handler.go: [Handle] *)

Module HandleFacts.
Import Store Strings Inv Handler FrameFacts AttrFacts PureFacts StepFacts.

#[local] Arguments Strings.append : simpl never.

Lemma levelStyleFor_None (σ : Store.t) (m : option loc) (l : Level) :
  levelStyleFor σ m l = None ↔ ¬ classified l.
Proof.
  unfold levelStyleFor, classified.
  repeat case_decide; split; try done; try (intros []; tauto); intros _; tauto.
Qed.

Lemma levelStyleFor_Some (σ : Store.t) (m : option loc) (l : Level) :
  classified l → is_Some (levelStyleFor σ m l).
Proof.
  intros Hc. destruct (levelStyleFor σ m l) eqn:E; [done|].
  by apply levelStyleFor_None in E.
Qed.

Section handle.
Variable StringWidth : string → Z.
Variable Quote : string → string.
Variable FormatTime : Z → string → string.
Variable FormatFloat : Z → string.
Variable FormatDuration : Z → string.
Variable FuncForPC : Z → option FuncInfo.t.
Variable slack : nat → nat → nat.
Variable World : Type.
Variable Write : Writer → string → World → World * option string.

#[local] Abbreviation writeAttr := (Handler.writeAttr Quote FormatTime FormatFloat FormatDuration slack).
#[local] Abbreviation writeAttrs := (Handler.writeAttrs Quote FormatTime FormatFloat FormatDuration slack).
#[local] Abbreviation writeRecordAttrs := (Handler.writeRecordAttrs Quote FormatTime FormatFloat FormatDuration slack).
#[local] Abbreviation handleGroups := (Handler.handleGroups slack).
#[local] Abbreviation renderHead := (Handler.renderHead StringWidth Quote FormatTime FormatFloat FormatDuration FuncForPC slack).
#[local] Abbreviation render := (Handler.render StringWidth Quote FormatTime FormatFloat FormatDuration FuncForPC slack).
#[local] Abbreviation Handle := (Handler.Handle StringWidth Quote FormatTime FormatFloat FormatDuration FuncForPC slack World Write).
#[local] Abbreviation writeTo := (Handler.writeTo World Write).
#[local] Abbreviation renderAttr := (Pure.renderAttr Quote FormatTime FormatFloat FormatDuration).
#[local] Abbreviation attrBytes := (Pure.attrBytes Quote FormatTime FormatFloat FormatDuration).
#[local] Abbreviation segments := (Pure.segments Quote FormatTime FormatFloat FormatDuration).
#[local] Abbreviation recordSegments := (Pure.recordSegments Quote FormatTime FormatFloat FormatDuration).
#[local] Abbreviation attachedSegments := (Pure.attachedSegments Quote FormatTime FormatFloat FormatDuration).
#[local] Abbreviation alignedText := (Pure.alignedText StringWidth).
#[local] Abbreviation levelText := (Pure.levelText StringWidth).
#[local] Abbreviation labelText := (Pure.labelText StringWidth).
#[local] Abbreviation callerText := (Pure.callerText FuncForPC).
#[local] Abbreviation headText := (Pure.headText StringWidth Quote FormatTime FormatFloat FormatDuration FuncForPC).
#[local] Abbreviation lineText := (Pure.lineText StringWidth Quote FormatTime FormatFloat FormatDuration FuncForPC).

(** [Handle] for a record of a classified level: the line is rendered
    into a pooled buffer, written, and the buffer is put back. *)
Lemma Handle_classified (h : CLIHandler.t) (r : Record.t) (σ : Store.t)
    (ω : World) (ls : LevelStyle.t) :
  levelStyleFor σ (Style.Level (StyleOps.readStyle σ (CLIHandler.style h)))
    (Record.Level r) = Some ls →
  let line := (render h r ls (poolGet σ).1 (poolGet σ).2).1 in
  let σ1 := (render h r ls (poolGet σ).1 (poolGet σ).2).2 in
  Handle h r σ ω
    = (ErrWrite <$> (writeTo (CLIHandler.w h) line ω).2,
       poolPut "" σ1,
       (writeTo (CLIHandler.w h) line ω).1).
Proof.
  intros Hls. unfold Handler.Handle. rewrite Hls.
  destruct (poolGet σ) as [buf0 σ0]. simpl.
  destruct (render h r ls buf0 σ0) as [line σ1]. simpl.
  by destruct (writeTo (CLIHandler.w h) line ω).
Qed.

Lemma Handle_quiet (h : CLIHandler.t) (r : Record.t) (σ : Store.t)
    (ω : World) (ls : LevelStyle.t) :
  quiet σ (poolPut "" (render h r ls (poolGet σ).1 (poolGet σ).2).2).
Proof.
  destruct (poolGet_spec σ) as (free & Hσ0 & Hclean).
  pose proof (render_quiet StringWidth Quote FormatTime FormatFloat
                FormatDuration FuncForPC slack h r ls (poolGet σ).1 (poolGet σ).2)
    as [Q1 Q2 Q3 Q4 Q5 Q6].
  rewrite Hσ0 in *. simpl in *.
  split; simpl; try done.
  - by rewrite Q5.
  - intros Hc. unfold poolPut, poolClean. simpl. constructor; [done|].
    apply Q6. unfold poolClean. simpl. by apply Hclean.
Qed.

(** C2. For a record whose level is none of debug, info, warn and
    error-or-above, [Handle] returns the unknown-level error and leaves
    the store, the pool in it, and the world as they were: nothing is
    written and no buffer is taken. For every other record the result is
    what the one write of the line returns, and the store afterwards has
    as many buffers out of the pool as before. So an error from [Handle]
    is the unknown-level error or the error of that write. *)
Theorem Handle_unknown_level (h : CLIHandler.t) (r : Record.t)
    (σ : Store.t) (ω : World) :
  (¬ classified (Record.Level r) →
     Handle h r σ ω = (Some ErrUnknownLevel, σ, ω))
  ∧ (classified (Record.Level r) →
       ∃ line σ',
         Handle h r σ ω
           = (ErrWrite <$> (writeTo (CLIHandler.w h) line ω).2, σ',
              (writeTo (CLIHandler.w h) line ω).1)
         ∧ quiet σ σ')
  ∧ (∀ e σ' ω',
       Handle h r σ ω = (Some e, σ', ω') →
       (e = ErrUnknownLevel ∧ ¬ classified (Record.Level r) ∧ σ' = σ ∧ ω' = ω)
       ∨ (∃ msg line,
            e = ErrWrite msg ∧ classified (Record.Level r)
            ∧ writeTo (CLIHandler.w h) line ω = (ω', Some msg)
            ∧ poolOut σ' = poolOut σ)).
Proof.
  assert (Hunk : ¬ classified (Record.Level r) →
                 Handle h r σ ω = (Some ErrUnknownLevel, σ, ω)).
  { intros Hn. unfold Handler.Handle.
    by rewrite (proj2 (levelStyleFor_None σ _ _) Hn). }
  assert (Hcls : classified (Record.Level r) →
            ∃ line σ',
              Handle h r σ ω
                = (ErrWrite <$> (writeTo (CLIHandler.w h) line ω).2, σ',
                   (writeTo (CLIHandler.w h) line ω).1)
              ∧ quiet σ σ').
  { intros Hc.
    destruct (levelStyleFor_Some σ
                (Style.Level (StyleOps.readStyle σ (CLIHandler.style h)))
                _ Hc) as [ls Hls].
    eexists _, _. split; [by apply Handle_classified|].
    by apply Handle_quiet. }
  split; [exact Hunk|]. split; [exact Hcls|].
  intros e σ' ω' He.
  destruct (decide (classified (Record.Level r))) as [Hc|Hn].
  - right. destruct (Hcls Hc) as (line & σ1 & H1 & Q). rewrite H1 in He.
    injection He as He <- <-.
    destruct (writeTo (CLIHandler.w h) line ω) as [ω1 [msg|]] eqn:Hw;
      simpl in He; [|done].
    injection He as <-. exists msg, line.
    split; [done|]. split; [done|]. split; [done|]. by destruct Q.
  - left. rewrite (Hunk Hn) in He. by injection He as <- <- <-.
Qed.

(** *** The attribute loops *)

Lemma segments_loop (f : Attr → Attr) (g : Slice) (style : loc) (tl : string)
    (attrs : list Attr) :
  ∀ buf σ,
    valid σ g →
    ∃ σ',
      fold_left
        (λ '(buf, σ) attr,
           if decide (Key attr = "") then (buf, σ)
           else writeAttr (f attr) (Some g) style tl (buf +:+ " ") σ)
        attrs (buf, σ)
        = (buf +:+ segments f (StyleOps.readStyle σ style) tl (elems σ (Some g)) attrs, σ')
      ∧ frame g σ σ'.
Proof.
  induction attrs as [|a attrs IH]; intros buf σ Hv; simpl.
  - exists σ. split; [by rewrite StrFacts.app_nil_r | apply frame_refl].
  - case_decide as Hk.
    + destruct (IH buf σ Hv) as (σ' & -> & F). by exists σ'.
    + destruct (writeAttr_spec Quote FormatTime FormatFloat FormatDuration slack
                  (f a) g style tl (buf +:+ " ") σ Hv) as (σ1 & -> & F1).
      destruct (IH (renderAttr (StyleOps.readStyle σ style) tl
                      (elems σ (Some g)) (f a) (buf +:+ " ")) σ1)
        as (σ2 & -> & F2); [by eapply frame_valid|].
      exists σ2. split.
      * rewrite (frame_readStyle g σ σ1), (frame_elems_eq g σ σ1) by done.
        rewrite renderAttr_app. by rewrite !StrFacts.app_assoc.
      * destruct Hv. by eapply frame_trans.
Qed.

Lemma writeAttrs_spec (g : Slice) (style : loc) (tl : string)
    (attrs : list Attr) (buf : string) (σ : Store.t) :
  valid σ g →
  ∃ σ',
    writeAttrs (Some g) style tl attrs buf σ
      = (buf +:+ attachedSegments (StyleOps.readStyle σ style) tl
                   (elems σ (Some g)) attrs, σ')
    ∧ frame g σ σ'.
Proof. apply (segments_loop (λ a, a)). Qed.

Lemma writeRecordAttrs_spec (h : CLIHandler.t) (g : Slice)
    (attrs : list Attr) (buf : string) (σ : Store.t) :
  valid σ g →
  ∃ σ',
    writeRecordAttrs h (Some g) attrs buf σ
      = (buf +:+ recordSegments h (StyleOps.readStyle σ (CLIHandler.style h))
                   (elems σ (Some g)) attrs, σ')
    ∧ frame g σ σ'.
Proof. apply (segments_loop (Pure.redact h)). Qed.

(** The local [groups] of [Handle] holds the groups of the handler. *)
Lemma handleGroups_spec (h : CLIHandler.t) (σ : Store.t) :
  validOpt σ (CLIHandler.groups h) → validOpt σ (CLIHandler.groupsCache h) →
  ∃ g σ',
    handleGroups h σ = (Some g, σ')
    ∧ valid σ' g
    ∧ elems σ' (Some g) = elems σ (CLIHandler.groups h)
    ∧ σ' = set_strArrays (strArrays σ') σ.
Proof.
  intros Hg Hgc. unfold Handler.handleGroups.
  destruct (CLIHandler.groupsCache h) as [gc|]; cbn -[make append elems].
  - assert (Hv0 : valid σ (MkSlice (arr gc) 0)).
    { destruct Hgc as [Ha _]. split; simpl; [done | lia]. }
    case_decide as Hn.
    + destruct (append_empty_spec slack (MkSlice (arr gc) 0) (MkSlice (arr gc) 0)
                  (elems σ (CLIHandler.groups h)) σ Hv0 eq_refl)
        as (g' & σ' & -> & Hv' & He & HR & _ & _ & _ & HS); [by destruct Hv0|].
      by exists g', σ'.
    + eexists _, _. split; [done|]. split; [done|].
      split; [|by rewrite set_strArrays_id].
      destruct (CLIHandler.groups h) as [gh|]; [|done].
      simpl in *. assert (len gh = O) as -> by lia. done.
  - pose proof (make_valid 0 (slen (CLIHandler.groups h)) σ (Nat.le_0_l _)) as Hv0.
    assert (Hold : elems (make 0 (slen (CLIHandler.groups h)) σ).2 (CLIHandler.groups h)
                   = elems σ (CLIHandler.groups h)).
    { destruct (CLIHandler.groups h) as [gh|]; [|done].
      destruct Hg as [Ha _]. unfold elems, arrayOf, make. simpl.
      by rewrite lookup_app_l. }
    destruct (make 0 (slen (CLIHandler.groups h)) σ) as [g0 σ0] eqn:Hmk.
    assert (Hσ0 : σ0 = set_strArrays (strArrays σ0) σ ∧ len g0 = O).
    { unfold make in Hmk. simpl in Hmk. by injection Hmk as <- <-. }
    destruct Hσ0 as [Hσ0 Hl0]. simpl in *.
    case_decide as Hn.
    + destruct (append_empty_spec slack g0 g0
                  (elems σ0 (CLIHandler.groups h)) σ0 Hv0 Hl0)
        as (g' & σ' & -> & Hv' & He & HR & _ & _ & _ & HS); [by destruct Hv0|].
      exists g', σ'. split; [done|]. split; [done|].
      split; [by rewrite <- Hold, <- He|]. rewrite HR, Hσ0. done.
    + exists g0, σ0. split; [done|]. split; [done|]. split; [|done].
      unfold elems. rewrite Hl0. simpl.
      destruct (CLIHandler.groups h) as [gh|]; [|done].
      simpl in *. assert (len gh = O) as -> by lia. done.
Qed.

Lemma writeAligned_text (c : option Color.Color) (text : string) (width : Z)
    (buf : string) (σ : Store.t) :
  poolClean σ →
  (Handler.writeAligned StringWidth c text width buf σ).1
    = alignedText c text width buf.
Proof.
  intros Hc. unfold Handler.writeAligned, Pure.alignedText.
  case_decide; [|done].
  destruct (poolGet_spec σ) as (f0 & H0 & Hc0).
  destruct (Hc0 Hc) as [Hb0 _].
  destruct (poolGet σ) as [tmp σ0]. simpl in *. by subst tmp.
Qed.

Lemma writeLevel_text (ls : LevelStyle.t) (buf : string) (σ : Store.t) :
  poolClean σ →
  (Handler.writeLevel StringWidth ls buf σ).1 = levelText ls buf.
Proof.
  intros Hc. unfold Handler.writeLevel, Pure.levelText.
  case_decide; [|done].
  pose proof (writeAligned_text (LevelStyle.Color ls) (LevelStyle.Text ls)
                (LevelStyle.Width ls) (writeAffix (LevelStyle.Prefix ls) buf) σ Hc) as Hal.
  destruct (Handler.writeAligned StringWidth _ _ _ _ σ) as [buf1 σ1].
  simpl in *. by rewrite Hal.
Qed.

Lemma writeLabel_text (h : CLIHandler.t) (label : LabelStyle.t) (buf : string)
    (σ : Store.t) :
  poolClean σ →
  (Handler.writeLabel StringWidth h label buf σ).1 = labelText h label buf.
Proof.
  intros Hc. unfold Handler.writeLabel, Pure.labelText.
  case_decide; [|done].
  pose proof (writeAligned_text (LabelStyle.Color label) (CLIHandler.prefix h)
                (LabelStyle.Width label) (writeAffix (LabelStyle.Prefix label) buf) σ Hc) as Hal.
  destruct (Handler.writeAligned StringWidth _ _ _ _ σ) as [buf1 σ1].
  simpl in *. by rewrite Hal.
Qed.

Lemma writeCallerPart_text (h : CLIHandler.t) (r : Record.t) (buf : string)
    (σ : Store.t) :
  (Handler.writeCallerPart FuncForPC h r
     (Style.Caller (StyleOps.readStyle σ (CLIHandler.style h))) buf σ).1
    = callerText h r (StyleOps.readStyle σ (CLIHandler.style h))
        (pcCacheOf σ (CLIHandler.pcCache h)) buf.
Proof.
  unfold Handler.writeCallerPart, Pure.callerText.
  repeat (case_match || case_decide); simpl; done.
Qed.

(** The head of the line leaves the styles and ends with the local
    [groups] holding the groups of the handler; under a clean pool it is
    [headText]. *)
Lemma renderHead_spec (h : CLIHandler.t) (r : Record.t) (ls : LevelStyle.t)
    (buf : string) (σ : Store.t) :
  validOpt σ (CLIHandler.groups h) → validOpt σ (CLIHandler.groupsCache h) →
  ∃ head g σ',
    renderHead h r ls buf σ = (head, Some g, σ')
    ∧ valid σ' g
    ∧ elems σ' (Some g) = elems σ (CLIHandler.groups h)
    ∧ styles σ' = styles σ
    ∧ (poolClean σ →
         head = headText h r ls (StyleOps.readStyle σ (CLIHandler.style h))
                  (pcCacheOf σ (CLIHandler.pcCache h))
                  (elems σ (CLIHandler.groups h)) buf).
Proof.
  intros Hg Hgc.
  pose proof (renderHead_quiet StringWidth Quote FormatTime FormatFloat
                FormatDuration FuncForPC slack h r ls buf σ) as [_ Hst _ _ _ _].
  revert Hst. unfold Handler.renderHead, Pure.headText.
  pose proof (writeLevel_step StringWidth ls buf σ) as (Q1 & S1 & P1).
  pose proof (writeLevel_text ls buf σ) as T1.
  destruct (Handler.writeLevel StringWidth ls buf σ) as [buf1 σ1].
  simpl in S1, P1, Q1, T1.
  assert (Hst1 : StyleOps.readStyle σ1 (CLIHandler.style h)
                 = StyleOps.readStyle σ (CLIHandler.style h)).
  { unfold StyleOps.readStyle. by rewrite (quiet_styles _ _ Q1). }
  assert (Hpc1 : pcCacheOf σ1 (CLIHandler.pcCache h)
                 = pcCacheOf σ (CLIHandler.pcCache h)).
  { unfold pcCacheOf. by rewrite P1. }
  pose proof (writeCallerPart_step FuncForPC h r
                (Style.Caller (StyleOps.readStyle σ (CLIHandler.style h))) buf1 σ1)
    as (Q2 & S2).
  pose proof (writeCallerPart_text h r buf1 σ1) as T2.
  rewrite Hst1, Hpc1 in T2.
  destruct (Handler.writeCallerPart FuncForPC h r _ buf1 σ1) as [buf2 σ2].
  simpl in S2, Q2, T2.
  pose proof (writeLabel_step StringWidth h
                (Style.Label (StyleOps.readStyle σ (CLIHandler.style h))) buf2 σ2)
    as (Q3 & S3 & _).
  pose proof (writeLabel_text h
                (Style.Label (StyleOps.readStyle σ (CLIHandler.style h))) buf2 σ2) as T3.
  destruct (Handler.writeLabel StringWidth h _ buf2 σ2) as [buf3 σ3].
  simpl in S3, Q3, T3.
  assert (Hs : strArrays σ3 = strArrays σ) by congruence.
  assert (Hval : ∀ o, validOpt σ o → validOpt σ3 o).
  { intros [o|]; [|done]. unfold validOpt, valid, cap, arrayOf. by rewrite Hs. }
  assert (Hel : ∀ o, elems σ3 o = elems σ o).
  { intros [o|]; [|done]. unfold elems, arrayOf. by rewrite Hs. }
  assert (Hst3 : StyleOps.readStyle σ3 (CLIHandler.style h)
                 = StyleOps.readStyle σ (CLIHandler.style h)).
  { unfold StyleOps.readStyle.
    by rewrite (quiet_styles _ _ Q3), (quiet_styles _ _ Q2), (quiet_styles _ _ Q1). }
  assert (Hbuf3 : poolClean σ →
            buf3 = labelText h (Style.Label (StyleOps.readStyle σ (CLIHandler.style h)))
                     (callerText h r (StyleOps.readStyle σ (CLIHandler.style h))
                        (pcCacheOf σ (CLIHandler.pcCache h)) (levelText ls buf))).
  { intros Hc. rewrite T3, T2, T1; [done | done |].
    apply (quiet_poolClean _ _ Q2), (quiet_poolClean _ _ Q1), Hc. }
  destruct (handleGroups_spec h σ3 (Hval _ Hg) (Hval _ Hgc))
    as (g & σ4 & -> & Hv4 & He4 & H4).
  assert (Hst4 : StyleOps.readStyle σ4 (CLIHandler.style h)
                 = StyleOps.readStyle σ (CLIHandler.style h)).
  { rewrite H4. exact Hst3. }
  case_decide.
  - intros Hst. eexists _, g, σ4. split; [done|]. split; [done|].
    split; [by rewrite He4|]. split; [done|].
    intros Hc. by rewrite (Hbuf3 Hc).
  - match goal with
    | |- context [Handler.writeAttrs _ _ _ _ _ (Some g) ?st ?tl ?as' ?b σ4] =>
        destruct (writeAttrs_spec g st tl as' b σ4 Hv4) as (σ5 & -> & F5)
    end.
    intros Hst. eexists _, g, σ5. split; [done|].
    split; [by eapply frame_valid|].
    split; [rewrite (frame_elems_eq g σ4 σ5) by done; by rewrite He4|].
    split; [done|].
    intros Hc. rewrite (Hbuf3 Hc), Hst4, He4, Hel. done.
Qed.

(** The head does not read the attributes of the record. *)
Lemma renderHead_withAttrs (h : CLIHandler.t) (r : Record.t) (ls : LevelStyle.t)
    (buf : string) (σ : Store.t) (attrs' : list Attr) :
  renderHead h (Record.withAttrs attrs' r) ls buf σ = renderHead h r ls buf σ.
Proof. reflexivity. Qed.

(** The line is the head, the segments of the attributes of the record,
    and a newline. *)
Lemma render_line (h : CLIHandler.t) (r : Record.t) (ls : LevelStyle.t)
    (buf : string) (σ : Store.t) :
  validOpt σ (CLIHandler.groups h) → validOpt σ (CLIHandler.groupsCache h) →
  (render h r ls buf σ).1
    = (renderHead h r ls buf σ).1.1
        +:+ recordSegments h (StyleOps.readStyle σ (CLIHandler.style h))
              (elems σ (CLIHandler.groups h)) (Record.attrs r)
        +:+ String newline "".
Proof.
  intros Hg Hgc. unfold Handler.render.
  destruct (renderHead_spec h r ls buf σ Hg Hgc)
    as (head & g & σ1 & -> & Hv & He & Hst & _).
  destruct (writeRecordAttrs_spec h g (Record.attrs r) head σ1 Hv)
    as (σ2 & -> & _).
  cbn [fst snd]. rewrite He. unfold StyleOps.readStyle. rewrite Hst.
  by rewrite StrFacts.app_assoc.
Qed.

(** Under a clean pool the head is [headText] and the line [lineText]. *)
Lemma Handle_text (h : CLIHandler.t) (r : Record.t) (σ : Store.t)
    (ω : World) (ls : LevelStyle.t) :
  validOpt σ (CLIHandler.groups h) → validOpt σ (CLIHandler.groupsCache h) →
  poolClean σ →
  levelStyleFor σ (Style.Level (StyleOps.readStyle σ (CLIHandler.style h)))
    (Record.Level r) = Some ls →
  let line :=
    lineText h r ls (StyleOps.readStyle σ (CLIHandler.style h))
      (pcCacheOf σ (CLIHandler.pcCache h)) (elems σ (CLIHandler.groups h)) in
  ∃ σ',
    Handle h r σ ω
      = (ErrWrite <$> (writeTo (CLIHandler.w h) line ω).2, σ',
         (writeTo (CLIHandler.w h) line ω).1).
Proof.
  intros Hg Hgc Hc Hls line.
  eexists. rewrite (Handle_classified h r σ ω ls Hls).
  destruct (poolGet_spec σ) as (f0 & H0 & Hc0).
  destruct (Hc0 Hc) as [Hb0 Hf0].
  assert (Hsame : strArrays (poolGet σ).2 = strArrays σ
                  ∧ styles (poolGet σ).2 = styles σ
                  ∧ pcCaches (poolGet σ).2 = pcCaches σ) by (by rewrite H0).
  destruct Hsame as (Hs & Hst & Hpc).
  assert (Hel : ∀ o, elems (poolGet σ).2 o = elems σ o).
  { intros [o|]; [|done]. unfold elems, arrayOf. by rewrite Hs. }
  assert (Hval : ∀ o, validOpt σ o → validOpt (poolGet σ).2 o).
  { intros [o|]; [|done]. unfold validOpt, valid, cap, arrayOf. by rewrite Hs. }
  rewrite render_line by auto.
  destruct (renderHead_spec h r ls (poolGet σ).1 (poolGet σ).2)
    as (head & g & σ1 & Hrh & _ & _ & _ & Htext); [auto | auto |].
  rewrite Hrh. cbn [fst snd]. rewrite Htext.
  - subst line. unfold Pure.lineText. rewrite Hb0, Hel.
    unfold StyleOps.readStyle, pcCacheOf. by rewrite Hst, Hpc.
  - unfold poolClean. rewrite H0. done.
Qed.

Lemma segments_app (f : Attr → Attr) (st : Style.t) (tl : string)
    (gs : list string) (l1 l2 : list Attr) :
  segments f st tl gs (l1 ++ l2)
    = segments f st tl gs l1 +:+ segments f st tl gs l2.
Proof.
  induction l1 as [|a l1 IH]; [done|].
  simpl. by rewrite IH, StrFacts.app_assoc.
Qed.

(** [Handle] writes the head, the segments of the record and a newline. *)
Lemma Handle_line (h : CLIHandler.t) (r : Record.t) (σ : Store.t)
    (ω : World) (ls : LevelStyle.t) :
  validOpt σ (CLIHandler.groups h) → validOpt σ (CLIHandler.groupsCache h) →
  levelStyleFor σ (Style.Level (StyleOps.readStyle σ (CLIHandler.style h)))
    (Record.Level r) = Some ls →
  let line :=
    (renderHead h (Record.withAttrs [] r) ls (poolGet σ).1 (poolGet σ).2).1.1
      +:+ recordSegments h (StyleOps.readStyle σ (CLIHandler.style h))
            (elems σ (CLIHandler.groups h)) (Record.attrs r)
      +:+ String newline "" in
  ∃ σ',
    Handle h r σ ω
      = (ErrWrite <$> (writeTo (CLIHandler.w h) line ω).2, σ',
         (writeTo (CLIHandler.w h) line ω).1).
Proof.
  intros Hg Hgc Hls line.
  eexists. rewrite (Handle_classified h r σ ω ls Hls).
  assert (Hsame : strArrays (poolGet σ).2 = strArrays σ
                  ∧ styles (poolGet σ).2 = styles σ).
  { unfold poolGet. by destruct (poolFree σ). }
  destruct Hsame as [Hs Hst].
  rewrite render_line.
  - subst line. rewrite renderHead_withAttrs.
    unfold StyleOps.readStyle. rewrite Hst.
    assert (elems (poolGet σ).2 (CLIHandler.groups h)
            = elems σ (CLIHandler.groups h)) as ->; [|done].
    destruct (CLIHandler.groups h); [|done]. unfold elems, arrayOf. by rewrite Hs.
  - destruct (CLIHandler.groups h); [|done].
    unfold validOpt, valid, cap, arrayOf in *. by rewrite Hs.
  - destruct (CLIHandler.groupsCache h); [|done].
    unfold validOpt, valid, cap, arrayOf in *. by rewrite Hs.
Qed.

(** C8. The line [Handle] writes for a record is a head that does not
    depend on the attributes of the record, then the segments of those
    attributes, then a newline. An attribute with the empty key has no
    segment. An attribute with a non-empty key has the segment made of a
    space and the bytes of the attribute after one pass through the
    redaction function of the handler, when there is one. *)
Theorem record_attrs_redacted_once (h : CLIHandler.t) (r : Record.t)
    (σ : Store.t) (ω : World) (ls : LevelStyle.t) :
  validOpt σ (CLIHandler.groups h) → validOpt σ (CLIHandler.groupsCache h) →
  levelStyleFor σ (Style.Level (StyleOps.readStyle σ (CLIHandler.style h)))
    (Record.Level r) = Some ls →
  let st := StyleOps.readStyle σ (CLIHandler.style h) in
  let gs := elems σ (CLIHandler.groups h) in
  let tl := CLIHandler.timeLayout h in
  let head :=
    (renderHead h (Record.withAttrs [] r) ls (poolGet σ).1 (poolGet σ).2).1.1 in
  let line :=
    head +:+ recordSegments h st gs (Record.attrs r) +:+ String newline "" in
  (∃ σ',
     Handle h r σ ω
       = (ErrWrite <$> (writeTo (CLIHandler.w h) line ω).2, σ',
          (writeTo (CLIHandler.w h) line ω).1))
  ∧ recordSegments h st gs [] = ""
  ∧ (∀ a attrs, Key a = "" →
       recordSegments h st gs (a :: attrs) = recordSegments h st gs attrs)
  ∧ (∀ a attrs, Key a ≠ "" →
       recordSegments h st gs (a :: attrs)
         = " " +:+ attrBytes st tl gs (Pure.redact h a)
               +:+ recordSegments h st gs attrs)
  ∧ (∀ f a, CLIHandler.attrHandler h = Some f → Pure.redact h a = f a)
  ∧ (∀ a, CLIHandler.attrHandler h = None → Pure.redact h a = a).
Proof.
  intros Hg Hgc Hls st gs tl head line.
  split; [by apply Handle_line|]. split; [done|]. split; [|split; [|split]].
  - intros a attrs Ha. unfold Pure.recordSegments. simpl.
    by rewrite decide_True.
  - intros a attrs Ha. unfold Pure.recordSegments. simpl.
    rewrite decide_False by done. by rewrite StrFacts.app_assoc.
  - intros f a Hf. unfold Pure.redact. by rewrite Hf.
  - intros a Hf. unfold Pure.redact. by rewrite Hf.
Qed.

(** C10. When the redaction function turns an attribute with a non-empty
    key into one with the empty key, the line still has the segment of
    the redacted attribute at the place of the attribute: a space and its
    bytes, which under a style without attribute colours are the group
    path, the separator and the value. *)
Theorem redacted_to_empty_key_is_emitted (h : CLIHandler.t) (r : Record.t)
    (σ : Store.t) (ω : World) (ls : LevelStyle.t)
    (f : Attr → Attr) (a : Attr) (pre post : list Attr) :
  validOpt σ (CLIHandler.groups h) → validOpt σ (CLIHandler.groupsCache h) →
  levelStyleFor σ (Style.Level (StyleOps.readStyle σ (CLIHandler.style h)))
    (Record.Level r) = Some ls →
  CLIHandler.attrHandler h = Some f →
  Key a ≠ "" → Key (f a) = "" →
Record.attrs r = pre ++ a :: post →
  let st := StyleOps.readStyle σ (CLIHandler.style h) in
  let gs := elems σ (CLIHandler.groups h) in
  let tl := CLIHandler.timeLayout h in
  let head :=
    (renderHead h (Record.withAttrs [] r) ls (poolGet σ).1 (poolGet σ).2).1.1 in
  let line :=
    head +:+ recordSegments h st gs pre
         +:+ " " +:+ attrBytes st tl gs (f a)
         +:+ recordSegments h st gs post +:+ String newline "" in
  (∃ σ',
     Handle h r σ ω
       = (ErrWrite <$> (writeTo (CLIHandler.w h) line ω).2, σ',
          (writeTo (CLIHandler.w h) line ω).1))
  ∧ (plainAttr st → (∀ attrs, Val (f a) ≠ GroupValue attrs) →
       attrBytes st tl gs (f a)
         = Pure.groupPath gs +:+ AttrStyle.Separator (Style.Attr st)
             +:+ Pure.valueText Quote FormatTime FormatFloat FormatDuration tl (Val (f a))).
Proof.
  intros Hg Hgc Hls Hf Ha Hfa Hattrs st gs tl head line. split.
  - destruct (Handle_line h r σ ω ls Hg Hgc Hls) as (σ' & Hh).
    exists σ'. rewrite Hh. subst line head.
    rewrite Hattrs. unfold Pure.recordSegments.
    assert (Hr : Pure.redact h a = f a)
      by (unfold Pure.redact; by rewrite Hf).
    rewrite segments_app. simpl. rewrite decide_False by done.
    rewrite Hr. by rewrite !StrFacts.app_assoc.
  - intros Hst Hv. unfold Pure.attrBytes.
    rewrite renderAttr_plain by done.
    destruct (f a) as [k v]. simpl in Hfa, Hv. subst k.
    destruct v; try done. by destruct (Hv attrs).
Qed.

End handle.
End HandleFacts.

(** ** handler.go: derivation *)

Module DeriveFacts.
Import Store Strings Inv Handler FrameFacts AttrFacts PureFacts StepFacts HandleFacts.

Lemma keepsBelow_refl (n : nat) (σ : Store.t) : keepsBelow n σ σ.
Proof. by split. Qed.

Lemma keepsBelow_trans (n : nat) (σ1 σ2 σ3 : Store.t) :
  keepsBelow n σ1 σ2 → keepsBelow n σ2 σ3 → keepsBelow n σ1 σ3.
Proof.
  intros [G1 K1] [G2 K2]. split; [lia|]. intros l Hl.
  by rewrite K2, K1.
Qed.

Lemma keepsBelow_same (n : nat) (σ σ' : Store.t) :
  strArrays σ' = strArrays σ → keepsBelow n σ σ'.
Proof. intros Hs. split; by rewrite Hs. Qed.

Lemma keepsBelow_alloc (n : nat) (σ : Store.t) (a : list string) :
  (n ≤ length (strArrays σ))%nat →
  keepsBelow n σ (set_strArrays (strArrays σ ++ [a]) σ).
Proof.
  intros Hn. split; simpl; [rewrite length_app; lia|].
  intros l Hl. rewrite lookup_app_l; [done | lia].
Qed.

Lemma keepsBelow_alter (n : nat) (σ : Store.t) (f : list string → list string) (l0 : loc) :
  (n ≤ l0)%nat →
  keepsBelow n σ (set_strArrays (alter f l0 (strArrays σ)) σ).
Proof.
  intros Hn. split; simpl; [by rewrite length_alter|].
  intros l Hl. rewrite list_lookup_alter_ne; [done | lia].
Qed.

Lemma keepsBelow_frame (n : nat) (g : Slice) (σ σ' : Store.t) :
  (n ≤ arr g)%nat → (n ≤ length (strArrays σ))%nat →
  frame g σ σ' → keepsBelow n σ σ'.
Proof.
  intros Hn Hlen [_ G O _ _]. split; [done|].
  intros l Hl. apply O; lia.
Qed.

Lemma keepsBelow_elems (σ σ' : Store.t) (o : option Slice) :
  validOpt σ o → keepsBelow (length (strArrays σ)) σ σ' →
  elems σ' o = elems σ o ∧ validOpt σ' o.
Proof.
  intros Hv [G K]. destruct o as [g|]; [|done].
  destruct Hv as [Ha Hl].
  assert (Harr : arrayOf σ' g = arrayOf σ g) by (apply arrayOf_eq, K; lia).
  split.
  - unfold elems. by rewrite Harr.
  - split; [lia|]. unfold cap in *. by rewrite Harr.
Qed.

Section derive.
Variable StringWidth : string → Z.
Variable Quote : string → string.
Variable FormatTime : Z → string → string.
Variable FormatFloat : Z → string.
Variable FormatDuration : Z → string.
Variable FuncForPC : Z → option FuncInfo.t.
Variable slack : nat → nat → nat.
Variable World : Type.
Variable Write : Writer → string → World → World * option string.

#[local] Abbreviation writeAttrs := (Handler.writeAttrs Quote FormatTime FormatFloat FormatDuration slack).
#[local] Abbreviation WithAttrs := (Handler.WithAttrs Quote FormatTime FormatFloat FormatDuration slack).
#[local] Abbreviation WithGroup := (Handler.WithGroup slack).
#[local] Abbreviation Handle := (Handler.Handle StringWidth Quote FormatTime FormatFloat FormatDuration FuncForPC slack World Write).

Lemma ancestorKept_refl (p : loc) (h : CLIHandler.t) (σ : Store.t) :
  handlers σ !! p = Some h →
  validOpt σ (CLIHandler.groups h) → validOpt σ (CLIHandler.groupsCache h) →
  ancestorKept p h σ σ.
Proof. by split. Qed.

(** The store a derivation ends in, from the store [σb] its body leaves. *)
Lemma ancestorKept_alloc (p : loc) (h h2 : CLIHandler.t) (σ σb : Store.t) :
  handlers σ !! p = Some h →
  validOpt σ (CLIHandler.groups h) → validOpt σ (CLIHandler.groupsCache h) →
  keepsBelow (length (strArrays σ)) σ σb →
  handlers σb = handlers σ → styles σb = styles σ →
  levelMaps σb = levelMaps σ → pcCaches σb = pcCaches σ →
  poolOut σb = poolOut σ → (poolClean σ → poolClean σb) →
  ancestorKept p h σ (set_handlers (handlers σb ++ [h2]) σb).
Proof.
  intros Hp Hg Hgc K Hh Hst Hlm Hpc Hpo Hcl.
  destruct (keepsBelow_elems σ σb _ Hg K) as [Eg Vg].
  destruct (keepsBelow_elems σ σb _ Hgc K) as [Egc Vgc].
  split; simpl; try done.
  - rewrite Hh. by apply lookup_app_l_Some.
  - intros q h' Hq. rewrite Hh. by apply lookup_app_l_Some.
  - by destruct K.
Qed.

(** [WithAttrs] *)
Lemma WithAttrs_kept (p : loc) (h : CLIHandler.t) (attrs : list Attr) (σ : Store.t) :
  handlers σ !! p = Some h →
  validOpt σ (CLIHandler.groups h) → validOpt σ (CLIHandler.groupsCache h) →
  ∃ p' σ',
    WithAttrs p attrs σ = Some (p', σ')
    ∧ ancestorKept p h σ σ'
    ∧ keepsBelow (length (strArrays σ)) σ σ'
    ∧ (attrs = [] → p' = p ∧ σ' = σ)
    ∧ (attrs ≠ [] →
         ∃ h2, p' = length (handlers σ)
               ∧ handlers σ' = handlers σ ++ [h2]
               ∧ CLIHandler.groups h2 = CLIHandler.groups h
               ∧ validOpt σ' (CLIHandler.groupsCache h2)).
Proof.
  intros Hp Hg Hgc. unfold Handler.WithAttrs.
  case_decide as Hn.
  { exists p, σ. split; [done|]. split; [by apply ancestorKept_refl|].
    split; [apply keepsBelow_refl|].
    split; [done|]. intros Hne. by destruct attrs. }
  rewrite Hp. cbn [mbind option_bind].
  (* the buffer *)
  destruct (poolGet_spec σ) as (f0 & H0 & Hc0).
  destruct (poolGet σ) as [b0 σ0]. simpl in H0.
  (* the local groups *)
  pose proof (make_valid 0 (slen (CLIHandler.groups h)) σ0 (Nat.le_0_l _)) as Hv1.
  destruct (make 0 (slen (CLIHandler.groups h)) σ0) as [g0 σ1] eqn:Hmk.
  assert (H1 : σ1 = set_strArrays (strArrays σ ++ [replicate (slen (CLIHandler.groups h)) ""]) σ0
               ∧ arr g0 = length (strArrays σ) ∧ len g0 = O).
  { unfold make in Hmk. simpl in Hmk. rewrite H0 in Hmk. simpl in Hmk.
    injection Hmk as <- <-. by rewrite H0. }
  destruct H1 as (H1 & Ha0 & Hl0). simpl in Hv1.
  assert (K1 : keepsBelow (length (strArrays σ)) σ σ1).
  { rewrite H1, H0. by apply (keepsBelow_alloc _ σ). }
  assert (∃ g2 σ2,
            (if decide (0 < slen (CLIHandler.groups h))%nat
             then append slack (Some g0) (elems σ1 (CLIHandler.groups h)) σ1
             else (Some g0, σ1)) = (Some g2, σ2)
            ∧ valid σ2 g2 ∧ σ2 = set_strArrays (strArrays σ2) σ1
            ∧ (length (strArrays σ) ≤ arr g2)%nat
            ∧ keepsBelow (length (strArrays σ)) σ1 σ2)
    as (g2 & σ2 & -> & Hv2 & H2 & Ha2 & K2).
  { case_decide.
    - destruct (append_empty_spec slack g0 g0 (elems σ1 (CLIHandler.groups h)) σ1 Hv1 Hl0)
        as (g2 & σ2 & -> & Hv2 & _ & HR & HG & HO & Harr & _); [by destruct Hv1|].
      exists g2, σ2. split; [done|]. split; [done|]. split; [done|].
      destruct K1 as [G1 _]. split.
      + destruct Harr as [-> | ->]; lia.
      + split; [done|]. intros l Hl. apply HO; lia.
    - exists g0, σ1. split; [done|]. split; [done|].
      split; [by rewrite set_strArrays_id|]. split; [lia|]. apply keepsBelow_refl. }
  (* the rendering *)
  match goal with
  | |- context [Handler.writeAttrs _ _ _ _ _ (Some g2) ?st ?tl ?as' ?b σ2] =>
      destruct (HandleFacts.writeAttrs_spec Quote FormatTime FormatFloat
                  FormatDuration slack g2 st tl as' b σ2 Hv2) as (σ3 & -> & F3)
  end.
  assert (K3 : keepsBelow (length (strArrays σ)) σ2 σ3).
  { eapply keepsBelow_frame; [exact Ha2 | | exact F3].
    destruct K1, K2. lia. }
  pose proof (frame_rest _ _ _ F3) as H3.
  (* the snapshot *)
  assert (∃ gc σ5,
            (if decide (0 < slen (CLIHandler.groups h))%nat
             then append slack None (elems (poolPut "" σ3) (CLIHandler.groups h)) (poolPut "" σ3)
             else (None, poolPut "" σ3)) = (gc, σ5)
            ∧ σ5 = set_strArrays (strArrays σ5) (poolPut "" σ3)
            ∧ keepsBelow (length (strArrays σ)) σ3 σ5
            ∧ validOpt σ5 gc)
    as (gc & σ5 & -> & H5 & K5 & Vgc).
  { case_decide.
    - pose proof (append_strStep slack None
                    (elems (poolPut "" σ3) (CLIHandler.groups h)) (poolPut "" σ3)) as HS.
      pose proof (append_nil_valid slack
                    (elems (poolPut "" σ3) (CLIHandler.groups h)) (poolPut "" σ3))
        as [HV [HG HK]].
      destruct (append slack None _ (poolPut "" σ3)) as [gc σ5].
      exists gc, σ5. simpl in *. split; [done|]. split; [done|].
      split; [|done]. split; [done|].
      intros l Hl. apply HK. destruct K1, K2, K3. lia.
    - exists None, (poolPut "" σ3). split; [done|].
      split; [by rewrite set_strArrays_id|].
      split; [by apply keepsBelow_same | done]. }
  simpl.
  eexists _, _. split; [done|].
  assert (Hrest : handlers σ5 = handlers σ ∧ styles σ5 = styles σ
                  ∧ levelMaps σ5 = levelMaps σ ∧ pcCaches σ5 = pcCaches σ
                  ∧ poolOut σ5 = poolOut σ
                  ∧ poolFree σ5 = "" :: f0).
  { rewrite H5, H3, H2, H1, H0. done. }
  destruct Hrest as (Hh & Hst & Hlm & Hpc & Hpo & Hpf).
  assert (K : keepsBelow (length (strArrays σ)) σ σ5).
  { repeat (eapply keepsBelow_trans; [|eassumption]). apply keepsBelow_refl. }
  split; [|split; [|split]].
  - apply ancestorKept_alloc; try done.
    intros Hc. unfold poolClean. rewrite Hpf. constructor; [done|].
    by apply Hc0.
  - exact K.
  - intros ->. done.
  - intros _. eexists. split; [by rewrite Hh|]. simpl.
    split; [by rewrite Hh|]. split; [done|].
    destruct gc; [|done]. exact Vgc.
Qed.

(** [WithGroup] *)
Lemma WithGroup_kept (p : loc) (h : CLIHandler.t) (name : string) (σ : Store.t) :
  handlers σ !! p = Some h →
  validOpt σ (CLIHandler.groups h) → validOpt σ (CLIHandler.groupsCache h) →
  ∃ p' σ',
    WithGroup p name σ = Some (p', σ')
    ∧ ancestorKept p h σ σ'
    ∧ keepsBelow (length (strArrays σ)) σ σ'
    ∧ (name = "" → p' = p ∧ σ' = σ)
    ∧ (name ≠ "" →
         ∃ h2, p' = length (handlers σ)
               ∧ handlers σ' = handlers σ ++ [h2]
               ∧ validOpt σ' (CLIHandler.groups h2)
               ∧ validOpt σ' (CLIHandler.groupsCache h2)).
Proof.
  intros Hp Hg Hgc. unfold Handler.WithGroup.
  case_decide as Hn.
  { exists p, σ. split; [done|]. split; [by apply ancestorKept_refl|].
    split; [apply keepsBelow_refl | done]. }
  rewrite Hp. cbn [mbind option_bind].
  set (n := slen (CLIHandler.groups h)).
  pose proof (make_valid (S n) (S n) σ (Nat.le_refl _)) as Hv1.
  destruct (make (S n) (S n) σ) as [g σ1] eqn:Hmk.
  assert (H1 : σ1 = set_strArrays (strArrays σ ++ [replicate (S n) ""]) σ
               ∧ arr g = length (strArrays σ)).
  { unfold make in Hmk. simpl in Hmk. by injection Hmk as <- <-. }
  destruct H1 as [H1 Ha]. simpl in Hv1.
  assert (K1 : keepsBelow (length (strArrays σ)) σ σ1).
  { rewrite H1. by apply keepsBelow_alloc. }
  remember (copyStrings g (elems σ1 (CLIHandler.groups h)) σ1) as σ2 eqn:H2.
  assert (K2 : keepsBelow (length (strArrays σ)) σ1 σ2).
  { rewrite H2. unfold copyStrings. apply keepsBelow_alter. lia. }
  assert (Hv2 : valid σ2 g).
  { rewrite H2. unfold copyStrings. apply alter_valid; [|done].
    intros a Hlook. destruct Hv1 as [_ Hcap].
    unfold cap, arrayOf in Hcap. rewrite Hlook in Hcap. simpl in Hcap.
    rewrite length_app, length_take, length_drop. lia. }
  remember (storeString g n name σ2) as σ3 eqn:H3.
  assert (K3 : keepsBelow (length (strArrays σ)) σ2 σ3).
  { rewrite H3. unfold storeString. apply keepsBelow_alter. lia. }
  assert (Hv3 : valid σ3 g).
  { rewrite H3. unfold storeString. apply alter_valid; [|done].
    intros a _. by rewrite length_insert. }
  pose proof (append_strStep slack None (elems σ3 (Some g)) σ3) as H5.
  pose proof (append_nil_valid slack (elems σ3 (Some g)) σ3) as [Vgc K5].
  destruct (append slack None (elems σ3 (Some g)) σ3) as [gc σ5].
  simpl in H5, Vgc, K5.
  destruct (keepsBelow_elems σ3 σ5 (Some g) Hv3 K5) as [_ Hv5].
  simpl. eexists _, _. split; [done|].
  assert (Hrest : handlers σ5 = handlers σ ∧ styles σ5 = styles σ
                  ∧ levelMaps σ5 = levelMaps σ ∧ pcCaches σ5 = pcCaches σ
                  ∧ poolOut σ5 = poolOut σ ∧ poolFree σ5 = poolFree σ).
  { rewrite H5, H3, H2, H1. done. }
  destruct Hrest as (Hh & Hst & Hlm & Hpc & Hpo & Hpf).
  assert (K : keepsBelow (length (strArrays σ)) σ σ5).
  { eapply keepsBelow_trans; [|split; [apply K5|]].
    - repeat (eapply keepsBelow_trans; [|eassumption]). apply keepsBelow_refl.
    - intros l Hl. apply K5. destruct K1, K2, K3. lia. }
  split; [|split; [|split]].
  - apply ancestorKept_alloc; try done.
    unfold poolClean. by rewrite Hpf.
  - exact K.
  - done.
  - intros _. eexists. split; [by rewrite Hh|]. simpl.
    split; [by rewrite Hh|]. split; [exact Hv5|].
    destruct gc; [|done]. exact Vgc.
Qed.

(** What [Handle] through the ancestor returns and writes is the same in
    the store after a derivation as in the store before. *)
Lemma Handle_after_derivation (p : loc) (h : CLIHandler.t) (σ σ' : Store.t)
    (r : Record.t) (ω : World) :
  validOpt σ (CLIHandler.groups h) → validOpt σ (CLIHandler.groupsCache h) →
  poolClean σ → ancestorKept p h σ σ' →
  (Handle h r σ' ω).1.1 = (Handle h r σ ω).1.1
  ∧ (Handle h r σ' ω).2 = (Handle h r σ ω).2.
Proof.
  intros Hg Hgc Hc K.
  destruct K as [_ _ _ Eg Egc [Vg Vgc] Est Elm Epc _ Ecl].
  assert (Hst : StyleOps.readStyle σ' (CLIHandler.style h)
                = StyleOps.readStyle σ (CLIHandler.style h)).
  { unfold StyleOps.readStyle. by rewrite Est. }
  assert (Hlv : ∀ l, levelStyleFor σ' (Style.Level (StyleOps.readStyle σ' (CLIHandler.style h))) l
                = levelStyleFor σ (Style.Level (StyleOps.readStyle σ (CLIHandler.style h))) l).
  { intros l. rewrite Hst.
    unfold levelStyleFor, StyleOps.levelAt, StyleOps.levelMapOf. by rewrite Elm. }
  destruct (levelStyleFor σ (Style.Level (StyleOps.readStyle σ (CLIHandler.style h)))
              (Record.Level r)) as [ls|] eqn:Hls.
  - destruct (HandleFacts.Handle_text StringWidth Quote FormatTime FormatFloat
                FormatDuration FuncForPC slack World Write h r σ ω ls Hg Hgc Hc Hls)
      as (σ1 & ->).
    rewrite <- Hlv in Hls.
    destruct (HandleFacts.Handle_text StringWidth Quote FormatTime FormatFloat
                FormatDuration FuncForPC slack World Write h r σ' ω ls Vg Vgc (Ecl Hc) Hls)
      as (σ2 & ->).
    cbn [fst snd]. rewrite Hst, Eg. unfold pcCacheOf. rewrite Epc. done.
  - unfold Handler.Handle. rewrite Hlv, Hls. done.
Qed.

(** C6. [WithAttrs] and [WithGroup] on the handler at [p] leave the
    handler object at [p] as it was, with its attribute list, its
    attribute cache and its slice headers, and leave the arrays behind
    its groups and its group snapshot as they were, for every input; the
    handler objects, styles, level maps and caller caches that existed are
    unchanged too. The ancestor stays usable: with an orderly pool,
    [Handle] through it returns and writes after the derivation what it
    would have before. *)
Theorem derivation_leaves_ancestor (p : loc) (h : CLIHandler.t) (σ : Store.t) :
  handlers σ !! p = Some h →
  validOpt σ (CLIHandler.groups h) → validOpt σ (CLIHandler.groupsCache h) →
  (∀ attrs, ∃ p' σ',
      WithAttrs p attrs σ = Some (p', σ')
      ∧ ancestorKept p h σ σ'
      ∧ (poolClean σ → ∀ r ω,
           (Handle h r σ' ω).1.1 = (Handle h r σ ω).1.1
           ∧ (Handle h r σ' ω).2 = (Handle h r σ ω).2))
  ∧ (∀ name, ∃ p' σ',
      WithGroup p name σ = Some (p', σ')
      ∧ ancestorKept p h σ σ'
      ∧ (poolClean σ → ∀ r ω,
           (Handle h r σ' ω).1.1 = (Handle h r σ ω).1.1
           ∧ (Handle h r σ' ω).2 = (Handle h r σ ω).2)).
Proof.
  intros Hp Hg Hgc. split.
  - intros attrs.
    destruct (WithAttrs_kept p h attrs σ Hp Hg Hgc) as (p' & σ' & H1 & H2 & _).
    exists p', σ'. split; [done|]. split; [done|].
    intros Hc r ω. by apply (Handle_after_derivation p).
  - intros name.
    destruct (WithGroup_kept p h name σ Hp Hg Hgc) as (p' & σ' & H1 & H2 & _).
    exists p', σ'. split; [done|]. split; [done|].
    intros Hc r ω. by apply (Handle_after_derivation p).
Qed.

End derive.
End DeriveFacts.

(** ** Well-formed stores

    The hypotheses of the theorems on [Handle] and on derivation, that the
    groups and the group snapshot of a handler fit their arrays, hold of
    every handler of every store reached from the empty one through
    [NewCLIHandler], [WithAttrs], [WithGroup] and [Handle]. *)

Module WfFacts.
Import Store Strings Inv Handler FrameFacts AttrFacts StepFacts HandleFacts DeriveFacts.

#[local] Arguments Strings.append : simpl never.
#[local] Arguments Strings.make : simpl never.

Lemma wfStore_empty : wfStore Store.empty.
Proof. intros q h Hq. done. Qed.

Lemma wfStore_step (σ σ' : Store.t) :
  handlers σ' = handlers σ → sizesKept σ σ' → wfStore σ → wfStore σ'.
Proof.
  intros Hh S W q h Hq. rewrite Hh in Hq. destruct (W q h Hq).
  split; by eapply sizesKept_valid.
Qed.

Lemma wfStore_alloc (σ σ' : Store.t) (h2 : CLIHandler.t) :
  handlers σ' = handlers σ ++ [h2] → sizesKept σ σ' →
  validOpt σ' (CLIHandler.groups h2) → validOpt σ' (CLIHandler.groupsCache h2) →
  wfStore σ → wfStore σ'.
Proof.
  intros Hh S V1 V2 W q h Hq. rewrite Hh in Hq.
  apply lookup_app_Some in Hq as [Hq|[_ Hq]].
  - destruct (W q h Hq). split; by eapply sizesKept_valid.
  - apply list_lookup_singleton_Some in Hq as [_ <-]. done.
Qed.

Lemma keepsBelow_sizes (σ σ' : Store.t) :
  keepsBelow (length (strArrays σ)) σ σ' → sizesKept σ σ'.
Proof.
  intros [_ K] l a Ha. exists a. split; [|done].
  rewrite K; [done|]. by eapply lookup_lt_Some.
Qed.

(** *** The options *)

Lemma update_keepsGroups (f : CLIHandler.t → CLIHandler.t) :
  (∀ c, CLIHandler.groups (f c) = CLIHandler.groups c
        ∧ CLIHandler.groupsCache (f c) = CLIHandler.groupsCache c) →
  keepsGroups (update f).
Proof.
  intros Hf c σ. split; [done|]. intros q h' Hq. unfold update in Hq. simpl in Hq.
  destruct (decide (c = q)) as [->|Hne].
  - rewrite list_lookup_alter_eq in Hq.
    destruct (handlers σ !! q) as [h|] eqn:E; [|done].
    simpl in Hq. injection Hq as <-. exists h. split; [done|]. apply Hf.
  - rewrite list_lookup_alter_ne in Hq by done. by exists h'.
Qed.

Lemma WithLevel_keepsGroups (level : option Level) : keepsGroups (WithLevel level).
Proof. apply update_keepsGroups. intros c. by destruct level. Qed.

Lemma WithLabel_keepsGroups (prefix : string) : keepsGroups (WithLabel prefix).
Proof. by apply update_keepsGroups. Qed.

Lemma WithCaller_keepsGroups (has : bool) : keepsGroups (WithCaller has).
Proof. by apply update_keepsGroups. Qed.

Lemma WithTime_keepsGroups (has : bool) : keepsGroups (WithTime has).
Proof. by apply update_keepsGroups. Qed.

Lemma WithTimeFormat_keepsGroups (layout : string) :
  keepsGroups (WithTimeFormat layout).
Proof. apply update_keepsGroups. intros c. by case_decide. Qed.

Lemma WithAttrHandler_keepsGroups (fn : option (Attr → Attr)) :
  keepsGroups (WithAttrHandler fn).
Proof. apply update_keepsGroups. intros c. by destruct fn. Qed.

Lemma WithStyle_keepsGroups (s : option loc) : keepsGroups (WithStyle s).
Proof. apply update_keepsGroups. intros c. by destruct s. Qed.

Lemma keepsGroups_wf (opt : CLIHandlerOption) (c : loc) (σ : Store.t) :
  keepsGroups opt → wfStore σ → wfStore (opt c σ).
Proof.
  intros K W q h' Hq. destruct (K c σ) as [Hs Hh].
  destruct (Hh q h' Hq) as (h & Hq0 & -> & ->).
  destruct (W q h Hq0).
  split; eapply sizesKept_valid; try eassumption; by apply sizesKept_same.
Qed.

Lemma options_wf (opts : list CLIHandlerOption) (c : loc) :
  Forall keepsGroups opts →
  ∀ σ, wfStore σ → wfStore (fold_left (λ σ opt, opt c σ) opts σ).
Proof.
  induction 1 as [|opt opts K _ IH]; intros σ W; simpl; [done|].
  by apply IH, keepsGroups_wf.
Qed.

(** [NewCLIHandler] with options that leave the groups gives a
    well-formed store. *)
Lemma NewCLIHandler_wf (w : option Writer) (opts : list CLIHandlerOption)
    (σ : Store.t) :
  Forall keepsGroups opts → wfStore σ → wfStore (NewCLIHandler w opts σ).2.
Proof.
  intros K W. unfold NewCLIHandler. simpl. apply options_wf; [done|].
  eapply wfStore_alloc; [simpl; reflexivity | | done | done | exact W].
  by apply sizesKept_same.
Qed.

Section wf.
Variable StringWidth : string → Z.
Variable Quote : string → string.
Variable FormatTime : Z → string → string.
Variable FormatFloat : Z → string.
Variable FormatDuration : Z → string.
Variable FuncForPC : Z → option FuncInfo.t.
Variable slack : nat → nat → nat.
Variable World : Type.
Variable Write : Writer → string → World → World * option string.

#[local] Abbreviation writeAttr := (Handler.writeAttr Quote FormatTime FormatFloat FormatDuration slack).
#[local] Abbreviation writeAttrs := (Handler.writeAttrs Quote FormatTime FormatFloat FormatDuration slack).
#[local] Abbreviation writeRecordAttrs := (Handler.writeRecordAttrs Quote FormatTime FormatFloat FormatDuration slack).
#[local] Abbreviation handleGroups := (Handler.handleGroups slack).
#[local] Abbreviation renderHead := (Handler.renderHead StringWidth Quote FormatTime FormatFloat FormatDuration FuncForPC slack).
#[local] Abbreviation render := (Handler.render StringWidth Quote FormatTime FormatFloat FormatDuration FuncForPC slack).
#[local] Abbreviation WithAttrs := (Handler.WithAttrs Quote FormatTime FormatFloat FormatDuration slack).
#[local] Abbreviation WithGroup := (Handler.WithGroup slack).
#[local] Abbreviation Handle := (Handler.Handle StringWidth Quote FormatTime FormatFloat FormatDuration FuncForPC slack World Write).

(** *** No write resizes an array *)

Lemma make_sizes (n c : nat) (σ : Store.t) : sizesKept σ (make n c σ).2.
Proof. unfold make. simpl. apply sizesKept_alloc. Qed.

Lemma extendInPlace_sizes (g : Slice) (x : string) (σ : Store.t) :
  sizesKept σ (extendInPlace g x σ).2.
Proof.
  unfold extendInPlace. simpl. apply sizesKept_alter.
  intros a _. by rewrite length_insert.
Qed.

Lemma append_sizes (g : option Slice) (xs : list string) (σ : Store.t) :
  sizesKept σ (append slack g xs σ).2.
Proof.
  unfold append. destruct g as [g|]; repeat case_decide; simpl;
    try apply sizesKept_alloc; try apply sizesKept_refl.
  apply sizesKept_alter. intros a Ha.
  unfold cap, arrayOf in *. rewrite Ha in *. simpl in *.
  rewrite !length_app, length_take, length_drop. lia.
Qed.

Lemma writeChildren_sizes (write : Attr → string → Store.t → string * Store.t)
    (n : nat) (l : list Attr) :
  Forall (λ a, ∀ buf σ, sizesKept σ (write a buf σ).2) l →
  ∀ i buf σ, sizesKept σ (writeChildren write n i l buf σ).2.
Proof.
  induction 1 as [|a l Ha _ IH]; intros i buf σ; simpl.
  - apply sizesKept_refl.
  - specialize (Ha buf σ). destruct (write a buf σ) as [buf1 σ1]. simpl in Ha.
    eapply sizesKept_trans; [exact Ha | apply IH].
Qed.

Lemma writeAttr_sizes (a : Attr) :
  ∀ (g : option Slice) (style : loc) (tl buf : string) (σ : Store.t),
    sizesKept σ (writeAttr a g style tl buf σ).2.
Proof.
  induction a as [key v Hv|key attrs IH] using Attr_nested_ind;
    intros g style tl buf σ.
  - destruct g as [g|], v; simpl;
      try apply sizesKept_refl; try apply sizesKept_alloc;
      by destruct (Hv attrs).
  - assert (Hg : ∀ g σ,
        sizesKept σ
          (writeAttr (MkAttr key (GroupValue attrs)) (Some g) style tl buf σ).2).
    { clear g σ. intros g σ. rewrite writeAttr_group.
      assert (Hpush : ∀ p : option Slice * Store.t,
                p = (if decide (len g < cap σ g)%nat
                     then let '(g0, σ0) := extendInPlace g key σ in (Some g0, σ0)
                     else append slack (Some g) [key] σ) →
                sizesKept σ p.2).
      { intros p ->. case_decide;
          [apply extendInPlace_sizes | apply append_sizes]. }
      specialize (Hpush _ eq_refl).
      destruct (if decide (len g < cap σ g)%nat then _ else _) as [g' σ1].
      simpl in Hpush. eapply sizesKept_trans; [exact Hpush|].
      apply writeChildren_sizes.
      eapply Forall_impl; [exact IH|]. intros a Ha buf' σ'. apply Ha. }
    destruct g as [g|]; [apply Hg|].
    rewrite writeAttr_nil.
    eapply sizesKept_trans; [apply make_sizes | apply Hg].
Qed.

Lemma writeAttrs_sizes (g : option Slice) (style : loc) (tl : string)
    (attrs : list Attr) :
  ∀ buf σ, sizesKept σ (writeAttrs g style tl attrs buf σ).2.
Proof.
  unfold Handler.writeAttrs.
  induction attrs as [|a attrs IH]; intros buf σ; simpl.
  - apply sizesKept_refl.
  - case_decide; [apply IH|].
    pose proof (writeAttr_sizes a g style tl (buf +:+ " ") σ) as Ha.
    destruct (writeAttr a g style tl (buf +:+ " ") σ) as [buf1 σ1]. simpl in Ha.
    eapply sizesKept_trans; [exact Ha | apply IH].
Qed.

Lemma writeRecordAttrs_sizes (h : CLIHandler.t) (g : option Slice)
    (attrs : list Attr) :
  ∀ buf σ, sizesKept σ (writeRecordAttrs h g attrs buf σ).2.
Proof.
  unfold Handler.writeRecordAttrs.
  induction attrs as [|a attrs IH]; intros buf σ; simpl.
  - apply sizesKept_refl.
  - case_decide; [apply IH|].
    match goal with
    | |- context [Handler.writeAttr _ _ _ _ _ ?a' g ?st ?tl ?b σ] =>
        pose proof (writeAttr_sizes a' g st tl b σ) as Ha;
        destruct (writeAttr a' g st tl b σ) as [buf1 σ1]
    end.
    simpl in Ha. eapply sizesKept_trans; [exact Ha | apply IH].
Qed.

Lemma handleGroups_sizes (h : CLIHandler.t) (σ : Store.t) :
  sizesKept σ (handleGroups h σ).2.
Proof.
  unfold Handler.handleGroups.
  destruct (CLIHandler.groupsCache h) as [gc|]; simpl.
  - case_decide; [apply append_sizes | apply sizesKept_refl].
  - case_decide; simpl; [|apply sizesKept_alloc].
    eapply sizesKept_trans; [apply sizesKept_alloc | apply append_sizes].
Qed.

Lemma renderHead_sizes (h : CLIHandler.t) (r : Record.t) (ls : LevelStyle.t)
    (buf : string) (σ : Store.t) :
  sizesKept σ (renderHead h r ls buf σ).2.
Proof.
  unfold Handler.renderHead.
  pose proof (writeLevel_step StringWidth ls buf σ) as (_ & Q1%sizesKept_same & _).
  destruct (Handler.writeLevel StringWidth ls buf σ) as [buf1 σ1]. simpl in Q1.
  match goal with
  | |- context [Handler.writeCallerPart _ h r ?c buf1 σ1] =>
      pose proof (writeCallerPart_step FuncForPC h r c buf1 σ1)
        as (_ & Q2%sizesKept_same);
      destruct (Handler.writeCallerPart FuncForPC h r c buf1 σ1) as [buf2 σ2]
  end. simpl in Q2.
  match goal with
  | |- context [Handler.writeLabel _ h ?l buf2 σ2] =>
      pose proof (writeLabel_step StringWidth h l buf2 σ2)
        as (_ & Q3%sizesKept_same & _);
      destruct (Handler.writeLabel StringWidth h l buf2 σ2) as [buf3 σ3]
  end. simpl in Q3.
  pose proof (handleGroups_sizes h σ3) as Q4.
  destruct (handleGroups h σ3) as [groups σ4]. simpl in Q4.
  assert (Q : sizesKept σ σ4).
  { eapply sizesKept_trans; [|exact Q4]. eapply sizesKept_trans; [|exact Q3].
    by eapply sizesKept_trans. }
  case_decide; simpl; [done|].
  match goal with
  | |- context [Handler.writeAttrs _ _ _ _ _ groups ?st ?tl ?as' ?b σ4] =>
      pose proof (writeAttrs_sizes groups st tl as' b σ4) as Q5;
      destruct (writeAttrs groups st tl as' b σ4) as [buf5 σ5]
  end. simpl in *. by eapply sizesKept_trans.
Qed.

Lemma render_sizes (h : CLIHandler.t) (r : Record.t) (ls : LevelStyle.t)
    (buf : string) (σ : Store.t) :
  sizesKept σ (render h r ls buf σ).2.
Proof.
  unfold Handler.render.
  pose proof (renderHead_sizes h r ls buf σ) as Q1.
  destruct (renderHead h r ls buf σ) as [[buf1 groups] σ1]. simpl in Q1.
  pose proof (writeRecordAttrs_sizes h groups (Record.attrs r) buf1 σ1) as Q2.
  destruct (writeRecordAttrs h groups (Record.attrs r) buf1 σ1) as [buf2 σ2].
  simpl in *. by eapply sizesKept_trans.
Qed.

(** *** The operations on handlers *)

(** [Handle], through any handler and for any record, leaves a
    well-formed store well-formed. *)
Lemma Handle_wf (h : CLIHandler.t) (r : Record.t) (σ : Store.t) (ω : World) :
  wfStore σ → wfStore (Handle h r σ ω).1.2.
Proof.
  intros W. unfold Handler.Handle.
  destruct (levelStyleFor σ _ (Record.Level r)) as [ls|]; [|done].
  pose proof (Handle_quiet StringWidth Quote FormatTime FormatFloat
                FormatDuration FuncForPC slack World h r σ ω ls) as Q.
  pose proof (render_sizes h r ls (poolGet σ).1 (poolGet σ).2) as S.
  destruct (poolGet_spec σ) as (free & Hσ0 & _).
  destruct (poolGet σ) as [b0 σ0]. simpl in *.
  destruct (render h r ls b0 σ0) as [b1 σ1]. simpl in *.
  destruct (writeTo _ _ _ _ _) as [ω1 err]. simpl.
  eapply wfStore_step; [apply Q | | exact W].
  eapply sizesKept_trans; [|apply sizesKept_same; reflexivity].
  eapply sizesKept_trans; [|exact S].
  apply sizesKept_same. by rewrite Hσ0.
Qed.

(** [WithAttrs] and [WithGroup], when they return, leave a well-formed
    store well-formed: the handler they add has groups and a snapshot
    that fit their arrays. *)
Lemma WithAttrs_wf (p p' : loc) (attrs : list Attr) (σ σ' : Store.t) :
  wfStore σ → WithAttrs p attrs σ = Some (p', σ') → wfStore σ'.
Proof.
  intros W Hw.
  destruct (handlers σ !! p) as [h|] eqn:Hp.
  - destruct (W p h Hp) as [Vg Vgc].
    destruct (WithAttrs_kept Quote FormatTime FormatFloat FormatDuration slack
                p h attrs σ Hp Vg Vgc)
      as (p1 & σ1 & Hw1 & _ & K & Hnil & Hcons).
    rewrite Hw in Hw1. injection Hw1 as <- <-.
    destruct attrs as [|a attrs].
    + by destruct (Hnil eq_refl) as [_ ->].
    + destruct (Hcons ltac:(done)) as (h2 & _ & Hh & Hg2 & Vgc2).
      apply keepsBelow_sizes in K.
      eapply wfStore_alloc; [exact Hh | exact K | | exact Vgc2 | exact W].
      rewrite Hg2. by eapply sizesKept_valid.
  - unfold Handler.WithAttrs in Hw. case_decide; [by injection Hw as <- <-|].
    by rewrite Hp in Hw.
Qed.

Lemma WithGroup_wf (p p' : loc) (name : string) (σ σ' : Store.t) :
  wfStore σ → WithGroup p name σ = Some (p', σ') → wfStore σ'.
Proof.
  intros W Hw.
  destruct (handlers σ !! p) as [h|] eqn:Hp.
  - destruct (W p h Hp) as [Vg Vgc].
    destruct (WithGroup_kept slack p h name σ Hp Vg Vgc)
      as (p1 & σ1 & Hw1 & _ & K & Hnil & Hcons).
    rewrite Hw in Hw1. injection Hw1 as <- <-.
    destruct (decide (name = "")) as [Hn|Hn].
    + by destruct (Hnil Hn) as [_ ->].
    + destruct (Hcons Hn) as (h2 & _ & Hh & Vg2 & Vgc2).
      apply keepsBelow_sizes in K.
      by eapply wfStore_alloc.
  - unfold Handler.WithGroup in Hw. case_decide; [by injection Hw as <- <-|].
    by rewrite Hp in Hw.
Qed.

End wf.
End WfFacts.

(** ** The model on the cases of the repository's tests *)

Module Tests.
Import Store Strings Handler.

(** TestCLIHandler_writeAttr *)
Example writeAttr_int :
  (Demo.writeAttr (MkAttr "count" (Int64Value 123)) None O "" "" Demo.store0).1
    = "count=123".
Proof. reflexivity. Qed.

Example writeAttr_string_quoted :
  (Demo.writeAttr (String_ "key" "val 1") None O "" "" Demo.store0).1
    = "key=" +:+ String dquote ("val 1" +:+ String dquote "").
Proof. reflexivity. Qed.

Example writeAttr_group_simple :
  (Demo.writeAttr (Group "g1" [String_ "k1" "v1"; MkAttr "k2" (Int64Value 2)])
     None O "" "" Demo.store0).1
    = "g1.k1=v1 g1.k2=2".
Proof. reflexivity. Qed.

Example writeAttr_group_recursive :
  (Demo.writeAttr (Group "parent" [Group "child" [String_ "key" "val"]])
     None O "" "" Demo.store0).1
    = "parent.child.key=val".
Proof. reflexivity. Qed.

(** "group with existing groups": the slice holds "base". *)
Example writeAttr_existing_groups :
  (Demo.writeAttr (Group "sub" [String_ "k" "v"]) (Some (MkSlice 0 1)) O "" ""
     (set_strArrays [["base"]] Demo.store0)).1
    = "base.sub.k=v".
Proof. reflexivity. Qed.

(** Test_align *)
Example align_even : Handler.align Demo.StringWidth "" "foo" 5 = " foo ".
Proof. reflexivity. Qed.

Example align_wide_exact :
  Handler.align Demo.StringWidth ""
    (Demo.hiraganaA +:+ Demo.hiraganaA +:+ Demo.hiraganaA) 6
    = Demo.hiraganaA +:+ Demo.hiraganaA +:+ Demo.hiraganaA.
Proof. reflexivity. Qed.

(** TestCLIHandler_Handle: the plain style, level info. *)
Example Handle_info_message :
  let '(e, σ, ω) :=
    Demo.Handle (Demo.plainHandler None)
      {| Record.Time := 0; Record.Message := "info message";
Record.Level := LevelInfo; Record.PC := 0; Record.attrs := [] |}
      Demo.store0 [] in
  e = None
  ∧ ω = [(Other 1, "[INF] info message" +:+ String newline "")]
  ∧ poolFree σ = [""] ∧ poolOut σ = O.
Proof. vm_compute. repeat split. Qed.

(** "with groups and cache" *)
Example Handle_with_groups :
  (Demo.Handle Demo.groupHandler
     {| Record.Time := 0; Record.Message := "msg";
Record.Level := LevelInfo; Record.PC := 0;
Record.attrs := [String_ "key" "val"] |}
     Demo.groupStore []).2
  = [(Other 1, "[INF] msg g1.key=val" +:+ String newline "")].
Proof. reflexivity. Qed.

(** A write that fails: the error is returned, the buffer is put back. *)
Example Handle_write_error :
  let h := Demo.plainHandler None in
  let h' :=
    {| CLIHandler.w := Other 13; CLIHandler.mu := CLIHandler.mu h;
       CLIHandler.level := CLIHandler.level h;
       CLIHandler.prefix := CLIHandler.prefix h;
       CLIHandler.attrs := CLIHandler.attrs h;
       CLIHandler.attrsCache := CLIHandler.attrsCache h;
       CLIHandler.attrHandler := CLIHandler.attrHandler h;
       CLIHandler.groups := CLIHandler.groups h;
       CLIHandler.groupsCache := CLIHandler.groupsCache h;
       CLIHandler.pcCache := CLIHandler.pcCache h;
       CLIHandler.hasCaller := CLIHandler.hasCaller h;
       CLIHandler.hasTime := CLIHandler.hasTime h;
       CLIHandler.timeLayout := CLIHandler.timeLayout h;
       CLIHandler.style := CLIHandler.style h |} in
  let '(e, σ, ω) := Demo.Handle h' (Demo.record LevelError []) Demo.store0 [] in
  e = Some (ErrWrite "broken pipe") ∧ ω = []
  ∧ poolFree σ = [""] ∧ poolOut σ = O.
Proof. vm_compute. repeat split. Qed.

(** TestCLIHandler_WithAttrs, TestCLIHandler_WithGroup: a handler from
    the constructor with the plain style, attributes attached to it, then
    a group. The ancestors render as before. *)
Example derived_handlers :
  let '(p0, σ0) := NewCLIHandler (Some (Other 1)) [WithStyle (Some O)] Demo.store0 in
  let r := Demo.record LevelWarn [String_ "b" "2"] in
  match Demo.WithAttrs p0 [String_ "a" "1"] σ0 with
  | Some (p1, σ1) =>
      match Demo.WithGroup p1 "g" σ1 with
      | Some (p2, σ2) =>
          p0 ≠ p1 ∧ p1 ≠ p2
          ∧ Demo.run p0 r σ0 = Some (None, [(Other 1, "[WRN] login b=2" +:+ String newline "")])
          ∧ Demo.run p0 r σ2 = Demo.run p0 r σ0
          ∧ Demo.run p1 r σ1 = Some (None, [(Other 1, "[WRN] login a=1 b=2" +:+ String newline "")])
          ∧ Demo.run p1 r σ2 = Demo.run p1 r σ1
          ∧ CLIHandler.attrsCache <$> handlers σ2 !! p1 = Some (Some " a=1")
          ∧ CLIHandler.attrsCache <$> handlers σ2 !! p2 = Some None
      | None => False
      end
  | None => False
  end.
Proof. vm_compute. repeat split; done. Qed.

End Tests.

(** ** The theorems on concrete handlers *)

Module Examples.
Import Store Strings Inv Handler.

(** The test "unknown level": [slog.Level(1)]. *)
Lemma Handle_unknown_level_witness :
  Demo.Handle (Demo.plainHandler None) (Demo.record 1 []) Demo.store0 []
    = (Some ErrUnknownLevel, Demo.store0, []).
Proof.
  destruct (HandleFacts.Handle_unknown_level Demo.StringWidth Demo.Quote
              Demo.FormatTime Demo.FormatFloat Demo.FormatDuration Demo.FuncForPC
              Demo.slack Demo.World Demo.Write
              (Demo.plainHandler None) (Demo.record 1 []) Demo.store0 [])
    as (H & _).
  apply H. unfold classified. simpl. vm_compute. intros [?|[?|[?|?]]]; done.
Defined.

(** An attribute with the empty key, a plain one and a masked one. *)
Lemma record_attrs_redacted_once_witness :
  ∃ σ',
    Demo.Handle (Demo.plainHandler (Some Demo.mask))
      (Demo.record LevelInfo
         [String_ "" "x"; String_ "user" "bob"; String_ "password" "p@ss"])
      Demo.store0 []
    = (None, σ',
       [(Other 1, "[INF] login user=bob password=***" +:+ String newline "")]).
Proof.
  destruct (HandleFacts.record_attrs_redacted_once Demo.StringWidth Demo.Quote
              Demo.FormatTime Demo.FormatFloat Demo.FormatDuration Demo.FuncForPC
              Demo.slack Demo.World Demo.Write
              (Demo.plainHandler (Some Demo.mask))
              (Demo.record LevelInfo
                 [String_ "" "x"; String_ "user" "bob"; String_ "password" "p@ss"])
              Demo.store0 []
              (StyleOps.levelAt Demo.store0 (Some O) LevelInfo))
    as ((σ' & H) & _); [done | done | reflexivity |].
  exists σ'. exact H.
Defined.

(** The key "secret" is blanked by the redaction function; the value is
    still written, after the bare separator. *)
Lemma redacted_to_empty_key_is_emitted_witness :
  ∃ σ',
    Demo.Handle (Demo.plainHandler (Some Demo.blank))
      (Demo.record LevelInfo [String_ "user" "bob"; String_ "secret" "s3"])
      Demo.store0 []
    = (None, σ',
       [(Other 1, "[INF] login user=bob =s3" +:+ String newline "")]).
Proof.
  destruct (HandleFacts.redacted_to_empty_key_is_emitted Demo.StringWidth Demo.Quote
              Demo.FormatTime Demo.FormatFloat Demo.FormatDuration Demo.FuncForPC
              Demo.slack Demo.World Demo.Write
              (Demo.plainHandler (Some Demo.blank))
              (Demo.record LevelInfo [String_ "user" "bob"; String_ "secret" "s3"])
              Demo.store0 []
              (StyleOps.levelAt Demo.store0 (Some O) LevelInfo)
              Demo.blank (String_ "secret" "s3") [String_ "user" "bob"] [])
    as ((σ' & H) & _); try done.
  exists σ'. exact H.
Defined.

(** The handler [Demo.grouped], with a group and a cache, and further
    attributes attached to it: the ancestor keeps its cache and its
    group. *)
Lemma derivation_leaves_ancestor_witness :
  ∃ h p' σ',
    handlers Demo.groupedStore !! Demo.groupedPtr = Some h
    ∧ CLIHandler.attrsCache h = Some " g.a=1"
    ∧ Demo.WithAttrs Demo.groupedPtr [String_ "b" "2"] Demo.groupedStore = Some (p', σ')
    ∧ handlers σ' !! Demo.groupedPtr = Some h
    ∧ elems σ' (CLIHandler.groups h) = ["g"].
Proof.
  destruct (handlers Demo.groupedStore !! Demo.groupedPtr) as [h|] eqn:Hh;
    [|by vm_compute in Hh].
  destruct (DeriveFacts.derivation_leaves_ancestor Demo.StringWidth Demo.Quote
              Demo.FormatTime Demo.FormatFloat Demo.FormatDuration Demo.FuncForPC
              Demo.slack Demo.World Demo.Write Demo.groupedPtr h Demo.groupedStore Hh)
    as [H _].
  - vm_compute in Hh. injection Hh as <-. split; vm_compute; lia.
  - vm_compute in Hh. injection Hh as <-. split; vm_compute; lia.
  - destruct (H [String_ "b" "2"]) as (p' & σ' & H1 & K & _).
    exists h, p', σ'. split; [done|].
    split; [by vm_compute in Hh; injection Hh as <-|].
    split; [exact H1|]. split; [by destruct K|].
    rewrite (Inv.kept_groups _ _ _ _ K).
    vm_compute in Hh. by injection Hh as <-.
Defined.

End Examples.

(** * Further properties *)

(** ** color.go: the escape sequences *)

Module SgrFacts.
Import Color Sgr.

Lemma sgrCodes_next (cs : list Z) :
  ∀ (i : nat) (c : Z) (b : string),
    sgrCodes (S i) (c :: cs) b = b +:+ ";" +:+ joinCodes (c :: cs).
Proof.
  induction cs as [|c' cs IH]; intros i c b.
  - simpl. by rewrite StrFacts.app_assoc.
  - change (sgrCodes (S i) (c :: c' :: cs) b)
      with (sgrCodes (S (S i)) (c' :: cs) ((b +:+ ";") +:+ Str.FormatInt c)).
    rewrite IH.
    change (joinCodes (c :: c' :: cs))
      with (Str.FormatInt c +:+ ";" +:+ joinCodes (c' :: cs)).
    by rewrite !StrFacts.app_assoc.
Qed.

Lemma sgrCodes_first (c : Z) (cs : list Z) (b : string) :
  sgrCodes 0 (c :: cs) b = b +:+ joinCodes (c :: cs).
Proof.
  destruct cs as [|c' cs]; [done|].
  change (sgrCodes 0 (c :: c' :: cs) b)
    with (sgrCodes 1 (c' :: cs) (b +:+ Str.FormatInt c)).
  rewrite sgrCodes_next.
  change (joinCodes (c :: c' :: cs))
    with (Str.FormatInt c +:+ ";" +:+ joinCodes (c' :: cs)).
  by rewrite !StrFacts.app_assoc.
Qed.

Lemma makeSGR_cons (c : Z) (cs : list Z) :
  makeSGR (c :: cs) = Some (sequence (c :: cs)).
Proof.
  unfold makeSGR, sequence. rewrite decide_False by done.
  rewrite sgrCodes_first. by rewrite !StrFacts.app_assoc.
Qed.

Lemma Write_wrap (c : option Color.Color) (buf s : string) :
  WriteString c buf s = buf +:+ wrap c s
  ∧ WriteBytes c buf s = buf +:+ wrap c s.
Proof.
  assert (Hb : ∀ b : option string,
            (if decide (0 < blen b)%nat then buf +:+ bytes b else buf)
            = buf +:+ bytes b).
  { intros [[|a b]|]; simpl; by rewrite ?StrFacts.app_nil_r. }
  assert (He : ∀ (x : string) (b : option string),
            (if decide (0 < blen b)%nat then x +:+ bytes b else x)
            = x +:+ bytes b).
  { intros x [[|a b]|]; simpl; by rewrite ?StrFacts.app_nil_r. }
  assert (Hs : ∀ x : string,
            (if decide (s ≠ "") then x +:+ s else x) = x +:+ s).
  { intros x. case_decide as Hne; [done|].
    subst s. by rewrite StrFacts.app_nil_r. }
  assert (Hl : ∀ x : string,
            (if decide (0 < String.length s)%nat then x +:+ s else x) = x +:+ s).
  { intros x. destruct s; simpl; by rewrite ?StrFacts.app_nil_r. }
  unfold WriteString, WriteBytes, wrap. destruct c as [c'|].
  - rewrite Hb, Hs, Hl, !He. by rewrite !StrFacts.app_assoc.
  - by rewrite Hs, Hl.
Qed.

(** X1. [makeSGR] gives nil for no codes and, for one code or more, the
    bytes ESC, bracket, the codes in decimal separated by semicolons,
    and the letter m: no semicolon before the first code or after the
    last. A colour built from codes keeps them, activates with their
    sequence and resets with the sequence of code 0. *)
Theorem makeSGR_format :
  makeSGR [] = None
  ∧ ∀ (c : Z) (cs : list Z),
      makeSGR (c :: cs) = Some (sequence (c :: cs))
      ∧ sequence [c] = String "027"%char "[" +:+ Str.FormatInt c +:+ "m"
      ∧ sequence (c :: cs ++ [0])
          = String "027"%char "[" +:+ Str.FormatInt c +:+ ";"
              +:+ joinCodes (cs ++ [0]) +:+ "m"
      ∧ NewColor (Some (c :: cs))
          = {| codes := Some (c :: cs);
               prefix := Some (sequence (c :: cs));
               reset := Some (sequence [0]) |}.
Proof.
  split; [done|]. intros c cs.
  split; [apply makeSGR_cons|]. split; [done|]. split.
  - unfold sequence. destruct cs; simpl; by rewrite !StrFacts.app_assoc.
  - unfold NewColor. rewrite decide_False by done. simpl default.
    by rewrite !makeSGR_cons.
Qed.

(** X2. For every colour, buffer and text, [WriteString] and
    [WriteBytes] append the same bytes: the activate bytes of the
    colour, the text, the reset bytes; the tests for empty pieces change
    nothing. Through a colour built from one code or more the text comes
    out between the sequence of the codes and the sequence of code 0,
    the empty text included. *)
Theorem Write_wraps_text (c : option Color.Color) (buf s : string) :
  WriteString c buf s = buf +:+ wrap c s
  ∧ WriteBytes c buf s = WriteString c buf s
  ∧ wrap None s = s
  ∧ (∀ c', c = Some c' →
       wrap c s = bytes (prefix c') +:+ s +:+ bytes (reset c'))
  ∧ ∀ (k : Z) (ks : list Z),
      WriteString (Some (NewColor (Some (k :: ks)))) buf s
        = buf +:+ sequence (k :: ks) +:+ s +:+ sequence [0]
      ∧ WriteString (Some (NewColor (Some (k :: ks)))) buf ""
          = buf +:+ sequence (k :: ks) +:+ sequence [0].
Proof.
  destruct (Write_wrap c buf s) as [H1 H2].
  split; [exact H1|]. split; [by rewrite H1, H2|]. split; [done|].
  split; [by intros c' ->|].
  intros k ks.
  destruct (Write_wrap (Some (NewColor (Some (k :: ks)))) buf s) as [-> _].
  destruct (Write_wrap (Some (NewColor (Some (k :: ks)))) buf "") as [-> _].
  unfold wrap, NewColor. rewrite decide_False by done. simpl default.
  rewrite !makeSGR_cons. simpl bytes. by rewrite ?StrFacts.app_nil_l.
Qed.

Lemma Write_wraps_text_witness :
  WriteString (Some (NewColor (Some [1; 91]))) "" "ERR"
    = String "027"%char "[1;91mERR" +:+ String "027"%char "[0m".
Proof.
  destruct (Write_wraps_text (Some (NewColor (Some [1; 91]))) "" "ERR")
    as (_ & _ & _ & _ & H).
  destruct (H 1 [91]) as [-> _]. reflexivity.
Defined.

End SgrFacts.

(** ** handler.go: attributes under a style with colours *)

Module StyledFacts.
Import Store Strings Inv Handler FrameFacts AttrFacts PureFacts SgrFacts.

Section styled.
Variable Quote : string → string.
Variable FormatTime : Z → string → string.
Variable FormatFloat : Z → string.
Variable FormatDuration : Z → string.
Variable slack : nat → nat → nat.

#[local] Abbreviation writeAttr := (Handler.writeAttr Quote FormatTime FormatFloat FormatDuration slack).
#[local] Abbreviation writeValue := (Handler.writeValue Quote FormatTime FormatFloat FormatDuration).
#[local] Abbreviation writeScalar := (Handler.writeScalar Quote FormatTime FormatFloat FormatDuration).
#[local] Abbreviation renderAttr := (Pure.renderAttr Quote FormatTime FormatFloat FormatDuration).
#[local] Abbreviation valueText := (Pure.valueText Quote FormatTime FormatFloat FormatDuration).
#[local] Abbreviation attrText := (Styled.attrText Quote FormatTime FormatFloat FormatDuration).

Lemma WriteString_wrap (c : option Color.Color) (buf s : string) :
  Color.WriteString c buf s = buf +:+ Sgr.wrap c s.
Proof. apply Write_wrap. Qed.

Lemma WriteBytes_wrap (c : option Color.Color) (buf s : string) :
  Color.WriteBytes c buf s = buf +:+ Sgr.wrap c s.
Proof. apply Write_wrap. Qed.

Lemma writeValue_wrap (vc : option Color.Color) (tl : string) (v : Value)
    (buf : string) :
  (∀ attrs, v ≠ GroupValue attrs) →
  writeValue vc tl v buf = buf +:+ Sgr.wrap vc (valueText tl v).
Proof.
  intros Hv. destruct v; try (by destruct (Hv attrs));
    try rewrite writeValue_string; simpl; repeat case_match;
    first [ apply WriteString_wrap | apply WriteBytes_wrap ].
Qed.

Lemma writeGroupPath_wrap (kc : option Color.Color) (gs : list string) :
  ∀ i n buf, (i + length gs = n)%nat → gs ≠ [] →
    writeGroupPath kc i n gs buf +:+ Sgr.wrap kc "."
      = buf +:+ Styled.pathText kc gs.
Proof.
  induction gs as [|g gs IH]; intros i n buf Hn Hne; [done|].
  simpl in *. rewrite !WriteString_wrap.
  destruct gs as [|g' gs]; simpl length in *.
  - simpl. rewrite decide_False by lia.
    by rewrite !StrFacts.app_assoc, StrFacts.app_nil_r.
  - rewrite decide_True by lia.
    rewrite (IH (S i) n) by (done || lia).
    by rewrite !StrFacts.app_assoc.
Qed.

Lemma writeScalar_wrap (st : Style.t) (tl key : string) (v : Value)
    (gs : list string) (buf : string) :
  (∀ attrs, v ≠ GroupValue attrs) →
  writeScalar st tl key v gs buf
    = buf +:+ attrText st tl gs (MkAttr key v).
Proof.
  intros Hnv. unfold Handler.writeScalar.
  rewrite writeValue_wrap by done. rewrite !WriteString_wrap.
  assert (Ht : attrText st tl gs (MkAttr key v)
               = Styled.pathText (AttrStyle.KeyColor (Style.Attr st)) gs
                 +:+ Sgr.wrap (AttrStyle.KeyColor (Style.Attr st)) key
                 +:+ Sgr.wrap (AttrStyle.KeyColor (Style.Attr st))
                       (AttrStyle.Separator (Style.Attr st))
                 +:+ Sgr.wrap (AttrStyle.ValueColor (Style.Attr st)) (valueText tl v)).
  { destruct v; try done. by destruct (Hnv attrs). }
  rewrite Ht. case_decide as Hgs.
  - rewrite (writeGroupPath_wrap _ gs 0 (length gs));
      [| done | intros ->; simpl in Hgs; lia].
    by rewrite !StrFacts.app_assoc.
  - destruct gs; [|simpl in Hgs; lia]. simpl.
    by rewrite !StrFacts.app_assoc.
Qed.

Lemma renderAttr_styled (st : Style.t) (tl : string) (a : Attr) :
  ∀ gs buf, renderAttr st tl gs a buf = buf +:+ attrText st tl gs a.
Proof.
  induction a as [key v Hv|key attrs IH] using Attr_nested_ind; intros gs buf.
  - rewrite <- writeScalar_wrap by done.
    destruct v; try done. by destruct (Hv attrs).
  - simpl. apply renderChildren_join; [|done].
    eapply Forall_impl; [exact IH|]. intros a Ha buf'. apply Ha.
Qed.

(** X3. Under every style, [writeAttr] appends the text of the
    attribute and nothing else. For a scalar that is every group name
    followed by a dot, the key and the separator, each piece between the
    activate and reset bytes of the key colour, then the value between
    those of the value colour. For a group it is the texts of the
    children under the path extended by the key of the group, with one
    uncoloured space between neighbours, so a group without children
    writes nothing. The group names are those of the slice handed in,
    none for a nil slice. *)
Theorem writeAttr_styled (style : loc) (σ : Store.t) (tl buf : string)
    (a : Attr) :
  let st := StyleOps.readStyle σ style in
  let kc := AttrStyle.KeyColor (Style.Attr st) in
  let vc := AttrStyle.ValueColor (Style.Attr st) in
  (writeAttr a None style tl buf σ).1 = buf +:+ attrText st tl [] a
  ∧ (∀ g, valid σ g →
       (writeAttr a (Some g) style tl buf σ).1
         = buf +:+ attrText st tl (elems σ (Some g)) a)
  ∧ (∀ gs key v, (∀ attrs, v ≠ GroupValue attrs) →
       attrText st tl gs (MkAttr key v)
         = Styled.pathText kc gs +:+ Sgr.wrap kc key
             +:+ Sgr.wrap kc (AttrStyle.Separator (Style.Attr st))
             +:+ Sgr.wrap vc (valueText tl v))
  ∧ (∀ gs key attrs,
       attrText st tl gs (Group key attrs)
         = Pure.joinSpace (map (attrText st tl (gs ++ [key])) attrs))
  ∧ (∀ gs key, attrText st tl gs (Group key []) = "")
  ∧ (∀ g gs, Styled.pathText kc (g :: gs)
             = Sgr.wrap kc g +:+ Sgr.wrap kc "." +:+ Styled.pathText kc gs)
  ∧ Styled.pathText kc [] = "".
Proof.
  intros st kc vc.
  split; [|split; [|split; [|split; [|split; [|split]]]]]; try done.
  - destruct (writeAttr_nil_spec Quote FormatTime FormatFloat FormatDuration slack
                a style tl buf σ) as (σ' & -> & _).
    simpl. apply renderAttr_styled.
  - intros g Hg.
    destruct (writeAttr_spec Quote FormatTime FormatFloat FormatDuration slack
                a g style tl buf σ Hg) as (σ' & -> & _).
    simpl. apply renderAttr_styled.
  - intros gs key v Hv. destruct v; try done. by destruct (Hv attrs).
Qed.

End styled.

(** The default style [Style1] writes keys and separators in the
    colour 90 and values without colour. *)
Lemma writeAttr_styled_witness :
  (Handler.writeAttr Demo.Quote Demo.FormatTime Demo.FormatFloat
     Demo.FormatDuration Demo.slack
     (Group "g" [String_ "k" "v"; MkAttr "n" (Int64Value 7)])
     None O "" "msg " (StyleOps.Style1 Store.empty).2).1
  = "msg " +:+ String "027"%char "[90mg" +:+ String "027"%char "[0m"
      +:+ String "027"%char "[90m." +:+ String "027"%char "[0m"
      +:+ String "027"%char "[90mk" +:+ String "027"%char "[0m"
      +:+ String "027"%char "[90m=" +:+ String "027"%char "[0m"
      +:+ "v "
      +:+ String "027"%char "[90mg" +:+ String "027"%char "[0m"
      +:+ String "027"%char "[90m." +:+ String "027"%char "[0m"
      +:+ String "027"%char "[90mn" +:+ String "027"%char "[0m"
      +:+ String "027"%char "[90m=" +:+ String "027"%char "[0m"
      +:+ "7".
Proof.
  destruct (writeAttr_styled Demo.Quote Demo.FormatTime Demo.FormatFloat
              Demo.FormatDuration Demo.slack O (StyleOps.Style1 Store.empty).2
              "" "msg " (Group "g" [String_ "k" "v"; MkAttr "n" (Int64Value 7)]))
    as (-> & _).
  reflexivity.
Defined.

End StyledFacts.

(** ** style.go: options and presets *)

Module StyleOptionFacts.
Import Store StyleOps.

#[local] Arguments levelMapOf : simpl never.

Lemma readStyle_writeStyle (s : loc) (v : Style.t) (σ : Store.t) :
  (s < length (styles σ))%nat → readStyle (writeStyle s v σ) s = v.
Proof.
  intros Hs. unfold readStyle, writeStyle. simpl.
  by rewrite list_lookup_insert_eq.
Qed.

Lemma writeStyle_ge (s : loc) (v : Style.t) (σ : Store.t) :
  (length (styles σ) ≤ s)%nat → writeStyle s v σ = set_styles (styles σ) σ.
Proof. intros Hs. unfold writeStyle. by rewrite list_insert_ge. Qed.

Lemma writeStyle_writeStyle (s : loc) (u v : Style.t) (σ : Store.t) :
  writeStyle s v (writeStyle s u σ) = writeStyle s v σ.
Proof. unfold writeStyle. simpl. by rewrite list_insert_insert_eq. Qed.

Lemma readStyle_ge (s : loc) (σ : Store.t) :
  (length (styles σ) ≤ s)%nat → readStyle σ s = Style.zero.
Proof. intros Hs. unfold readStyle. by rewrite lookup_ge_None_2. Qed.

(** The three options that replace one part of a style, as one. *)
Ltac style_opts s σ :=
  unfold WithLabelStyle, WithAttrStyle, WithCallerStyle;
  destruct (decide (s < length (styles σ))%nat) as [Hs|Hs];
  [ rewrite !readStyle_writeStyle by done;
    rewrite ?writeStyle_writeStyle; try done
  | rewrite !(writeStyle_ge s _ σ) by lia;
    rewrite ?(readStyle_ge s (set_styles (styles σ) σ)) by (simpl; lia);
    rewrite ?(writeStyle_ge s _ (set_styles (styles σ) σ)) by (simpl; lia);
    done ].

(** X4. [WithLevelStyle] merges the given map into the level map of the
    style: afterwards every level of the given map has the given style
    and every other level the style it had. A style with a level map
    keeps that map object, which is updated in place; a style without
    one gets a new map object. The given map is only read: the style
    never points to it, and it and every map other than the style's are
    as before, as are the label, attribute and caller parts and every
    other style. *)
Theorem WithLevelStyle_merges (levels : option loc) (s : loc) (st : Style.t)
    (σ : Store.t) :
  styles σ !! s = Some st →
  (∀ m, Style.Level st = Some m → is_Some (levelMaps σ !! m)) →
  (∀ l, levels = Some l → is_Some (levelMaps σ !! l)) →
  let σ' := WithLevelStyle levels s σ in
  ∃ m' : loc,
    readStyle σ' s
      = {| Style.Level := Some m'; Style.Label := Style.Label st;
           Style.Attr := Style.Attr st; Style.Caller := Style.Caller st |}
    ∧ (∀ m, Style.Level st = Some m → m' = m)
    ∧ (Style.Level st = None →
         m' = length (levelMaps σ) ∧ levels ≠ Some m')
    ∧ (∀ k, levelMapOf σ' (Some m') !! k
            = match levelMapOf σ levels !! k with
              | Some v => Some v
              | None => levelMapOf σ (Style.Level st) !! k
              end)
    ∧ (∀ l, l ≠ m' → levelMaps σ' !! l = levelMaps σ !! l)
    ∧ (∀ q, q ≠ s → styles σ' !! q = styles σ !! q).
Proof.
  intros Hs Hm Hl σ'. subst σ'. unfold WithLevelStyle.
  assert (Hr : readStyle σ s = st) by (unfold readStyle; by rewrite Hs).
  rewrite Hr.
  assert (Hlt : (s < length (styles σ))%nat) by (by eapply lookup_lt_Some).
  destruct (Style.Level st) as [m|] eqn:Hlv.
  - destruct (Hm m eq_refl) as [ms Hms].
    exists m. unfold mapsCopy.
    split; [|split; [|split; [|split; [|split]]]]; try done.
    + unfold readStyle. simpl. rewrite Hs. simpl.
      destruct st; simpl in *; by subst.
    + by intros m0 [= <-].
    + intros k. unfold levelMapOf at 1. simpl.
      rewrite list_lookup_alter_eq, Hms. simpl.
      rewrite lookup_union.
      unfold levelMapOf at 3. rewrite Hms. simpl.
      by destruct (levelMapOf σ levels !! k), (ms !! k).
    + intros l Hne. simpl. by rewrite list_lookup_alter_ne.
  - exists (length (levelMaps σ)). unfold newLevelMap, mapsCopy. simpl.
    assert (Hsrc : levelMapOf
              (writeStyle s
                 {| Style.Level := Some (length (levelMaps σ));
                    Style.Label := Style.Label st; Style.Attr := Style.Attr st;
                    Style.Caller := Style.Caller st |}
                 (set_levelMaps (levelMaps σ ++ [∅]) σ)) levels
            = levelMapOf σ levels).
    { destruct levels as [l|]; [|done]. destruct (Hl l eq_refl) as [ml Hml].
      unfold levelMapOf. simpl. by rewrite (lookup_app_l_Some _ _ _ _ Hml), Hml. }
    rewrite Hsrc.
    split; [|split; [|split; [|split; [|split]]]]; try done.
    + unfold readStyle. simpl. by rewrite list_lookup_insert_eq.
    + intros _. split; [done|]. intros ->.
      destruct (Hl _ eq_refl) as [ml Hml]. apply lookup_lt_Some in Hml. lia.
    + intros k. unfold levelMapOf at 1. simpl.
      rewrite alter_app_r_alt by lia. rewrite Nat.sub_diag. simpl.
      rewrite list_lookup_middle by done. simpl.
      rewrite lookup_union, lookup_empty.
      by destruct (levelMapOf σ levels !! k).
    + intros l Hne. simpl.
      rewrite alter_app_r_alt by lia. rewrite Nat.sub_diag. simpl.
      destruct (decide (l < length (levelMaps σ))%nat).
      * by rewrite lookup_app_l.
      * rewrite !lookup_ge_None_2; [done | lia |].
        rewrite length_app. simpl. lia.
    + intros q Hne. simpl. by rewrite list_lookup_insert_ne.
Qed.

(** A partial map given to [NewStyle] through [WithLevelStyle]: the
    warn level is replaced, the info level keeps the tag of
    [Style0]. *)
Lemma WithLevelStyle_merges_witness :
  let σ0 := (newLevelMap {[LevelWarn := lvl "WARN!" None 0]} Store.empty).2 in
  let σ1 := (Style0 σ0).2 in
  let σ' := WithLevelStyle (Some O) O σ1 in
  LevelStyle.Text (levelAt σ' (Style.Level (readStyle σ' O)) LevelWarn) = "WARN!"
  ∧ LevelStyle.Text (levelAt σ' (Style.Level (readStyle σ' O)) LevelInfo) = "[INF]"
  ∧ levelMapOf σ' (Some O) = {[LevelWarn := lvl "WARN!" None 0]}.
Proof.
  intros σ0 σ1 σ'.
  pose proof (WithLevelStyle_merges (Some O) O (readStyle σ1 O) σ1) as H.
  cbv zeta in H. fold σ' in H.
  destruct H as (m' & Hr & Hm & _ & Hk & Ho & _).
  - reflexivity.
  - intros m [= <-]. by eexists.
  - intros l [= <-]. by eexists.
  - pose proof (Hm 1%nat eq_refl) as ->.
    unfold levelAt. rewrite Hr. simpl Style.Level.
    rewrite !Hk. split; [reflexivity|]. split; [reflexivity|].
    unfold levelMapOf. rewrite (Ho O) by done. reflexivity.
Defined.

(** X5. The options [WithLabelStyle], [WithAttrStyle] and
    [WithCallerStyle] each replace one part of the style: given twice,
    the later value stays; options for different parts can be given in
    either order. [NewStyle] without options is [Style0], and with one
    option of each kind it is the level map of [Style0] with the three
    given parts. *)
Theorem style_options_compose (s : loc) (σ : Store.t)
    (a b : LabelStyle.t) (x y : AttrStyle.t) (c d : CallerStyle.t) :
  WithLabelStyle b s (WithLabelStyle a s σ) = WithLabelStyle b s σ
  ∧ WithAttrStyle y s (WithAttrStyle x s σ) = WithAttrStyle y s σ
  ∧ WithCallerStyle d s (WithCallerStyle c s σ) = WithCallerStyle d s σ
  ∧ WithAttrStyle x s (WithLabelStyle a s σ)
      = WithLabelStyle a s (WithAttrStyle x s σ)
  ∧ WithCallerStyle c s (WithLabelStyle a s σ)
      = WithLabelStyle a s (WithCallerStyle c s σ)
  ∧ WithCallerStyle c s (WithAttrStyle x s σ)
      = WithAttrStyle x s (WithCallerStyle c s σ)
  ∧ NewStyle [] σ = Style0 σ
  ∧ (NewStyle [WithLabelStyle a; WithAttrStyle x; WithCallerStyle c] σ).1
      = length (styles σ)
  ∧ readStyle
      (NewStyle [WithLabelStyle a; WithAttrStyle x; WithCallerStyle c] σ).2
      (length (styles σ))
      = {| Style.Level := Some (length (levelMaps σ)); Style.Label := a;
           Style.Attr := x; Style.Caller := c |}.
Proof.
  split; [style_opts s σ|]. split; [style_opts s σ|].
  split; [style_opts s σ|]. split; [style_opts s σ|].
  split; [style_opts s σ|]. split; [style_opts s σ|].
  split; [done|]. split; [done|].
  unfold NewStyle, Style0, newLevelMap, newStyle. simpl.
  unfold WithLabelStyle, WithAttrStyle, WithCallerStyle, readStyle, writeStyle.
  simpl.
  rewrite !list_lookup_insert_eq, ?list_insert_insert_eq;
    rewrite ?length_insert, ?length_app; simpl; try lia.
  rewrite list_lookup_middle by done. simpl. done.
Qed.

(** X6. Every preset, [Style0] to [Style4], builds a new style object
    with a new level map of its own and leaves the styles and maps that
    existed. The map has exactly the four levels debug, info, warn and
    error, each with a non-empty tag, so under a preset every level that
    [Handle] accepts has a tag; the separator is the equals sign and the
    caller is written between angle brackets. *)
Theorem presets_define_levels :
  Forall
    (λ preset : Store.t → loc * Store.t,
       ∀ σ : Store.t, ∃ (st : Style.t) (m : gmap Z LevelStyle.t),
         preset σ
           = (length (styles σ),
              set_styles (styles σ ++ [st])
                (set_levelMaps (levelMaps σ ++ [m]) σ))
         ∧ Style.Level st = Some (length (levelMaps σ))
         ∧ dom m = ({[LevelDebug; LevelInfo; LevelWarn; LevelError]} : gset Z)
         ∧ (∀ k ls, m !! k = Some ls → LevelStyle.Text ls ≠ "")
         ∧ (∀ l ls,
              Handler.levelStyleFor (preset σ).2 (Style.Level st) l = Some ls →
              LevelStyle.Text ls ≠ "")
         ∧ AttrStyle.Separator (Style.Attr st) = "="
         ∧ AffixStyle.Text (CallerStyle.Prefix (Style.Caller st)) = "<"
         ∧ AffixStyle.Text (CallerStyle.Suffix (Style.Caller st)) = ">")
    Presets.all.
Proof.
  assert (Hdom : ∀ a b c d : LevelStyle.t,
            dom (<[LevelDebug := a]> (<[LevelInfo := b]>
                   (<[LevelWarn := c]> (<[LevelError := d]> (∅ : gmap Z LevelStyle.t)))))
            = ({[LevelDebug; LevelInfo; LevelWarn; LevelError]} : gset Z)).
  { intros. rewrite !dom_insert_L, dom_empty_L. set_solver. }
  assert (Hin : ∀ (a b c d : LevelStyle.t) k ls,
            (<[LevelDebug := a]> (<[LevelInfo := b]>
               (<[LevelWarn := c]> (<[LevelError := d]> (∅ : gmap Z LevelStyle.t)))))
              !! k = Some ls →
            ls = a ∨ ls = b ∨ ls = c ∨ ls = d).
  { intros a b c d k ls.
    rewrite !lookup_insert_Some, lookup_empty.
    intros [[_ <-]|[_ [[_ <-]|[_ [[_ <-]|[_ [[_ <-]|[_ [=]]]]]]]]]; auto. }
  assert (Hlv : ∀ (σ : Store.t) (m : gmap Z LevelStyle.t) (st : Style.t) l ls,
            (∀ k, k = LevelDebug ∨ k = LevelInfo ∨ k = LevelWarn ∨ k = LevelError →
                  ∃ v, m !! k = Some v ∧ LevelStyle.Text v ≠ "") →
            Handler.levelStyleFor
              (set_styles (styles σ ++ [st]) (set_levelMaps (levelMaps σ ++ [m]) σ))
              (Some (length (levelMaps σ))) l = Some ls →
            LevelStyle.Text ls ≠ "").
  { intros σ m st l ls Hm. unfold Handler.levelStyleFor, levelAt, levelMapOf.
    simpl. rewrite list_lookup_middle by done. simpl.
    repeat case_decide; intros [= <-];
      match goal with
      | |- context [m !! ?k] =>
          destruct (Hm k) as (v & -> & Hv); [tauto | exact Hv]
      end. }
  assert (Hone : ∀ (a b c d : LevelStyle.t) (lab : LabelStyle.t)
                   (att : AttrStyle.t) (cal : CallerStyle.t)
                   (preset : Store.t → loc * Store.t),
            (∀ σ, preset σ
                  = (length (styles σ),
                     set_styles
                       (styles σ
                        ++ [ {| Style.Level := Some (length (levelMaps σ));
                                Style.Label := lab; Style.Attr := att;
                                Style.Caller := cal |} ])
                       (set_levelMaps
                          (levelMaps σ
                           ++ [ <[LevelDebug := a]> (<[LevelInfo := b]>
                                  (<[LevelWarn := c]> (<[LevelError := d]> ∅))) ]) σ))) →
            LevelStyle.Text a ≠ "" → LevelStyle.Text b ≠ "" →
            LevelStyle.Text c ≠ "" → LevelStyle.Text d ≠ "" →
            AttrStyle.Separator att = "=" →
            AffixStyle.Text (CallerStyle.Prefix cal) = "<" →
            AffixStyle.Text (CallerStyle.Suffix cal) = ">" →
            ∀ σ : Store.t, ∃ (st : Style.t) (m : gmap Z LevelStyle.t),
              preset σ
                = (length (styles σ),
                   set_styles (styles σ ++ [st])
                     (set_levelMaps (levelMaps σ ++ [m]) σ))
              ∧ Style.Level st = Some (length (levelMaps σ))
              ∧ dom m = ({[LevelDebug; LevelInfo; LevelWarn; LevelError]} : gset Z)
              ∧ (∀ k ls, m !! k = Some ls → LevelStyle.Text ls ≠ "")
              ∧ (∀ l ls,
                   Handler.levelStyleFor (preset σ).2 (Style.Level st) l = Some ls →
                   LevelStyle.Text ls ≠ "")
              ∧ AttrStyle.Separator (Style.Attr st) = "="
              ∧ AffixStyle.Text (CallerStyle.Prefix (Style.Caller st)) = "<"
              ∧ AffixStyle.Text (CallerStyle.Suffix (Style.Caller st)) = ">").
  { intros a b c d lab att cal preset Hp Ha Hb Hc Hd Hsep Hpre Hsuf σ.
    eexists _, _. split; [apply Hp|]. split; [done|].
    split; [apply Hdom|].
    split; [by intros k ls [->|[->|[->| ->]]]%Hin|].
    split; [|done].
    intros l ls. rewrite Hp. simpl. apply Hlv.
    intros k [->|[->|[->| ->]]]; eexists; (split; [reflexivity | done]). }
  unfold Presets.all.
  repeat (apply List.Forall_cons;
            [ eapply Hone; [intros σ; reflexivity | done ..] |]).
  apply List.Forall_nil.
Qed.

End StyleOptionFacts.

(** ** handler.go: the constructor and its options *)

Module OptionFacts.
Import Store Handler.

Lemma update_last (f : CLIHandler.t → CLIHandler.t) (hs : list CLIHandler.t)
    (h : CLIHandler.t) (σ : Store.t) :
  update f (length hs) (set_handlers (hs ++ [h]) σ)
    = set_handlers (hs ++ [f h]) σ.
Proof.
  unfold update. simpl. rewrite alter_app_r_alt by lia.
  by rewrite Nat.sub_diag.
Qed.

Lemma updates_last (fs : list (CLIHandler.t → CLIHandler.t))
    (hs : list CLIHandler.t) (σ : Store.t) :
  ∀ h,
    fold_left (λ σ opt, opt (length hs) σ) (update <$> fs)
      (set_handlers (hs ++ [h]) σ)
    = set_handlers (hs ++ [fold_left (λ h f, f h) fs h]) σ.
Proof.
  induction fs as [|f fs IH]; intros h; [done|].
  simpl. rewrite update_last. apply IH.
Qed.

Lemma update_id (f : CLIHandler.t → CLIHandler.t) (c : loc) (σ : Store.t) :
  (∀ h, f h = h) → update f c σ = σ.
Proof.
  intros Hf. unfold update. rewrite list_alter_id by done. by destruct σ.
Qed.

Lemma update_update (f g : CLIHandler.t → CLIHandler.t) (c : loc) (σ : Store.t) :
  update g c (update f c σ) = update (g ∘ f) c σ.
Proof. unfold update. simpl. by rewrite list_alter_alter_eq. Qed.

Lemma update_ext (f g : CLIHandler.t → CLIHandler.t) (c : loc) (σ : Store.t) :
  (∀ h, f h = g h) → update f c σ = update g c σ.
Proof.
  intros Hfg. unfold update. f_equal.
  apply list_alter_ext; [|done]. intros h _. apply Hfg.
Qed.

(** X7. [NewCLIHandler] adds to the store one handler object, one style
    object holding [Style1] with a level map of its own, one empty
    caller cache and one mutex, and nothing else: every handler, style,
    level map, caller cache and string array that existed is as before,
    and so is the pool. Before the options the handler has the writer
    made colour-capable, the level info, the layout RFC 3339, no label,
    no caller, no time, no attributes, groups or redaction function;
    options that update handler fields are then applied to it in the
    order given. With one option of each kind the handler has the given
    level, label, caller and time switches, layout, redaction function
    and style. *)
Theorem NewCLIHandler_allocates (w : option Writer)
    (fs : list (CLIHandler.t → CLIHandler.t)) (σ : Store.t) :
  let h0 :=
    {| CLIHandler.w := setColorable w;
       CLIHandler.mu := mutexes σ;
       CLIHandler.level := Some LevelInfo;
       CLIHandler.prefix := "";
       CLIHandler.attrs := [];
       CLIHandler.attrsCache := None;
       CLIHandler.attrHandler := None;
       CLIHandler.groups := None;
       CLIHandler.groupsCache := None;
       CLIHandler.pcCache := length (pcCaches σ);
       CLIHandler.hasCaller := false;
       CLIHandler.hasTime := false;
       CLIHandler.timeLayout := RFC3339;
       CLIHandler.style := length (styles σ) |} in
  (∃ (st : Style.t) (m : gmap Z LevelStyle.t),
     StyleOps.Style1 σ
       = (length (styles σ),
          set_styles (styles σ ++ [st]) (set_levelMaps (levelMaps σ ++ [m]) σ))
     ∧ NewCLIHandler w (update <$> fs) σ
       = (length (handlers σ),
          {| levelMaps := levelMaps σ ++ [m];
             styles := styles σ ++ [st];
             strArrays := strArrays σ;
             pcCaches := pcCaches σ ++ [∅];
             handlers := handlers σ ++ [fold_left (λ h f, f h) fs h0];
             mutexes := S (mutexes σ);
             poolFree := poolFree σ;
             poolOut := poolOut σ |}))
  ∧ ∀ (l : Level) (label : string) (caller time : bool) (layout : string)
      (fn : Attr → Attr) (s : loc),
      layout ≠ "" →
      handlers
        (NewCLIHandler w
           [WithLevel (Some l); WithLabel label; WithCaller caller;
            WithTime time; WithTimeFormat layout; WithAttrHandler (Some fn);
            WithStyle (Some s)] σ).2
        !! length (handlers σ)
      = Some
          {| CLIHandler.w := setColorable w;
             CLIHandler.mu := mutexes σ;
             CLIHandler.level := Some l;
             CLIHandler.prefix := label;
             CLIHandler.attrs := [];
             CLIHandler.attrsCache := None;
             CLIHandler.attrHandler := Some fn;
             CLIHandler.groups := None;
             CLIHandler.groupsCache := None;
             CLIHandler.pcCache := length (pcCaches σ);
             CLIHandler.hasCaller := caller;
             CLIHandler.hasTime := time;
             CLIHandler.timeLayout := layout;
             CLIHandler.style := s |}.
Proof.
  intros h0.
  assert (Hnew : ∀ fs',
            NewCLIHandler w (update <$> fs') σ
            = (length (handlers σ),
               set_handlers (handlers σ ++ [fold_left (λ h f, f h) fs' h0])
                 (set_pcCaches (pcCaches σ ++ [∅])
                    (StyleOps.Style1 (set_mutexes (S (mutexes σ)) σ)).2))).
  { intros fs'. unfold NewCLIHandler. simpl. f_equal.
    apply (updates_last fs' (handlers σ)). }
  split.
  - eexists _, _. split; [reflexivity|]. by rewrite Hnew.
  - intros l label caller time layout fn s Hlayout.
    unfold WithLevel, WithLabel, WithCaller, WithTime, WithTimeFormat,
      WithAttrHandler, WithStyle.
    match goal with
    | |- context [NewCLIHandler w ?opts σ] =>
        match opts with
        | [update ?f1; update ?f2; update ?f3; update ?f4; update ?f5;
           update ?f6; update ?f7] =>
            change opts with (update <$> [f1; f2; f3; f4; f5; f6; f7])
        end
    end.
    rewrite Hnew. simpl. rewrite list_lookup_middle by done.
    by rewrite decide_True.
Qed.

Lemma NewCLIHandler_allocates_witness :
  ∃ h,
    handlers
      (NewCLIHandler (Some (File 2))
         [WithLevel (Some LevelDebug); WithLabel "app"; WithCaller true;
          WithTime true; WithTimeFormat "15:04"; WithAttrHandler (Some Demo.mask);
          WithStyle (Some O)] Demo.store0).2 !! O = Some h
    ∧ CLIHandler.w h = Colorable 2
    ∧ CLIHandler.level h = Some LevelDebug
    ∧ CLIHandler.timeLayout h = "15:04"
    ∧ CLIHandler.style h = O.
Proof.
  destruct (NewCLIHandler_allocates (Some (File 2)) [] Demo.store0) as [_ H].
  eexists. split.
  - apply (H LevelDebug "app" true true "15:04" Demo.mask O). done.
  - done.
Defined.

(** X8. An option given a nil or empty value is ignored: [WithLevel] of
    nil, [WithTimeFormat] of the empty layout, [WithAttrHandler] of nil
    and [WithStyle] of nil leave the store as it is, so they keep what an
    earlier option or the constructor has set. Of two options of one
    kind with proper values the later one stays. [WithLabel] has no such
    test: the empty label replaces an earlier one. *)
Theorem ignored_options (c : loc) (σ : Store.t) :
  WithLevel None c σ = σ
  ∧ WithTimeFormat "" c σ = σ
  ∧ WithAttrHandler None c σ = σ
  ∧ WithStyle None c σ = σ
  ∧ (∀ a b, WithLevel (Some b) c (WithLevel (Some a) c σ) = WithLevel (Some b) c σ)
  ∧ (∀ a b, WithLevel b c (WithLevel (Some a) c σ)
            = WithLevel (Some (default a b)) c σ)
  ∧ (∀ a b, b ≠ "" →
       WithTimeFormat b c (WithTimeFormat a c σ) = WithTimeFormat b c σ)
  ∧ (∀ a b, WithStyle (Some b) c (WithStyle a c σ) = WithStyle (Some b) c σ)
  ∧ (∀ a b, WithLabel b c (WithLabel a c σ) = WithLabel b c σ)
  ∧ (∀ a h, handlers σ !! c = Some h →
       CLIHandler.prefix <$> handlers (WithLabel "" c (WithLabel a c σ)) !! c
         = Some "").
Proof.
  split; [by apply update_id|]. split; [by apply update_id|].
  split; [by apply update_id|]. split; [by apply update_id|].
  split; [intros a b; unfold WithLevel; rewrite update_update; by apply update_ext|].
  split.
  { intros a [b|]; unfold WithLevel; rewrite update_update; by apply update_ext. }
  split.
  { intros a b Hb. unfold WithTimeFormat. rewrite update_update.
    apply update_ext. intros h. unfold compose.
    rewrite !(decide_True _ _ Hb). by case_decide. }
  split.
  { intros [a|] b; unfold WithStyle; rewrite update_update; by apply update_ext. }
  split; [intros a b; unfold WithLabel; rewrite update_update; by apply update_ext|].
  intros a h Hc. unfold WithLabel. rewrite update_update. unfold update. simpl.
  by rewrite list_lookup_alter_eq, Hc.
Qed.

End OptionFacts.

(** ** handler.go: what a derived handler holds *)

Module DerivedFacts.
Import Store Strings Inv Handler FrameFacts AttrFacts PureFacts StepFacts
  HandleFacts DeriveFacts Derived.

#[local] Arguments Strings.append : simpl never.
#[local] Arguments Strings.make : simpl never.
#[local] Arguments Strings.elems : simpl never.

Lemma elems_length (σ : Store.t) (o : option Slice) :
  validOpt σ o → length (elems σ o) = slen o.
Proof.
  destruct o as [s|]; [|done]. intros [_ Hl]. unfold elems, cap, slen in *.
  rewrite length_take. lia.
Qed.

Lemma elems_grown (σ σ1 : Store.t) (more : list (list string)) (o : option Slice) :
  strArrays σ1 = strArrays σ ++ more → validOpt σ o → elems σ1 o = elems σ o.
Proof.
  intros Hs Hv. destruct o as [s|]; [|done]. destruct Hv as [Ha _].
  unfold elems, arrayOf. rewrite Hs. by rewrite lookup_app_l.
Qed.

Lemma valid_grown (σ σ1 : Store.t) (more : list (list string)) (o : option Slice) :
  strArrays σ1 = strArrays σ ++ more → validOpt σ o → validOpt σ1 o.
Proof.
  intros Hs Hv. destruct o as [s|]; [|done]. destruct Hv as [Ha Hl].
  split; [rewrite Hs, length_app; lia|].
  unfold cap, arrayOf in *. rewrite Hs. by rewrite lookup_app_l.
Qed.

Section derived.
Variable StringWidth : string → Z.
Variable Quote : string → string.
Variable FormatTime : Z → string → string.
Variable FormatFloat : Z → string.
Variable FormatDuration : Z → string.
Variable FuncForPC : Z → option FuncInfo.t.
Variable slack : nat → nat → nat.
Variable World : Type.
Variable Write : Writer → string → World → World * option string.

#[local] Abbreviation writeAttrs := (Handler.writeAttrs Quote FormatTime FormatFloat FormatDuration slack).
#[local] Abbreviation WithAttrs := (Handler.WithAttrs Quote FormatTime FormatFloat FormatDuration slack).
#[local] Abbreviation WithGroup := (Handler.WithGroup slack).
#[local] Abbreviation Handle := (Handler.Handle StringWidth Quote FormatTime FormatFloat FormatDuration FuncForPC slack World Write).
#[local] Abbreviation writeTo := (Handler.writeTo World Write).
#[local] Abbreviation attachedSegments := (Pure.attachedSegments Quote FormatTime FormatFloat FormatDuration).
#[local] Abbreviation headText := (Pure.headText StringWidth Quote FormatTime FormatFloat FormatDuration FuncForPC).
#[local] Abbreviation lineText := (Pure.lineText StringWidth Quote FormatTime FormatFloat FormatDuration FuncForPC).

Lemma append_nil_elems (xs : list string) (σ : Store.t) :
  elems (append slack None xs σ).2 (append slack None xs σ).1 = xs.
Proof.
  unfold append. simpl. case_decide as Hn; simpl.
  - by destruct xs.
  - unfold elems, arrayOf. simpl. rewrite list_lookup_middle by done. simpl.
    change (elems σ None) with (@nil string). simpl.
    by rewrite take_app_length.
Qed.

(** The store and the handler [WithGroup] builds. *)
Lemma WithGroup_closed (p : loc) (h : CLIHandler.t) (name : string) (σ : Store.t) :
  handlers σ !! p = Some h → name ≠ "" → validOpt σ (CLIHandler.groups h) →
  let gs := elems σ (CLIHandler.groups h) ++ [name] in
  let n := slen (CLIHandler.groups h) in
  WithGroup p name σ
    = Some
        (length (handlers σ),
         set_handlers
           (handlers σ
            ++ [ {| CLIHandler.w := CLIHandler.w h;
                    CLIHandler.mu := CLIHandler.mu h;
                    CLIHandler.level := CLIHandler.level h;
                    CLIHandler.prefix := CLIHandler.prefix h;
                    CLIHandler.attrs := CLIHandler.attrs h;
                    CLIHandler.attrsCache := None;
                    CLIHandler.attrHandler := CLIHandler.attrHandler h;
                    CLIHandler.groups :=
                      Some (MkSlice (length (strArrays σ)) (S n));
                    CLIHandler.groupsCache :=
                      Some (MkSlice (S (length (strArrays σ))) (S n));
                    CLIHandler.pcCache := CLIHandler.pcCache h;
                    CLIHandler.hasCaller := CLIHandler.hasCaller h;
                    CLIHandler.hasTime := CLIHandler.hasTime h;
                    CLIHandler.timeLayout := CLIHandler.timeLayout h;
                    CLIHandler.style := CLIHandler.style h |} ])
           (set_strArrays
              (strArrays σ ++ [gs; gs ++ replicate (slack O (S n)) ""]) σ)).
Proof.
  intros Hp Hn Hv gs n. unfold Handler.WithGroup.
  rewrite decide_False by done. rewrite Hp. cbn [mbind option_bind].
  fold n. unfold make. cbn [Heap.alloc fst snd].
  pose proof (elems_length σ _ Hv) as Hlen. fold n in Hlen.
  set (σ1 := set_strArrays (strArrays σ ++ [replicate (S n) ""]) σ).
  assert (He1 : elems σ1 (CLIHandler.groups h) = elems σ (CLIHandler.groups h)).
  { by apply (elems_grown σ σ1 [replicate (S n) ""]). }
  rewrite He1.
  assert (H3 : storeString (MkSlice (length (strArrays σ)) (S n)) n name
                 (copyStrings (MkSlice (length (strArrays σ)) (S n))
                    (elems σ (CLIHandler.groups h)) σ1)
               = set_strArrays (strArrays σ ++ [gs]) σ).
  { unfold storeString, copyStrings, σ1.
    cbn [len arr strArrays set_strArrays].
    rewrite Hlen. rewrite Nat.min_r by lia.
    rewrite !alter_app_r_alt by lia. rewrite Nat.sub_diag.
    cbn [alter list_alter].
    rewrite take_ge by lia.
    rewrite drop_replicate. replace (S n - n)%nat with 1%nat by lia.
    cbn [replicate].
    rewrite insert_app_r_alt by lia. rewrite Hlen, Nat.sub_diag. done. }
  rewrite H3.
  set (σ3 := set_strArrays (strArrays σ ++ [gs]) σ).
  assert (He3 : elems σ3 (Some (MkSlice (length (strArrays σ)) (S n))) = gs).
  { unfold elems, arrayOf, σ3. simpl. rewrite list_lookup_middle by done.
    simpl. rewrite take_ge; [done|]. unfold gs. rewrite length_app. simpl. lia. }
  rewrite He3.
  assert (H5 : append slack None gs σ3
               = (Some (MkSlice (S (length (strArrays σ))) (S n)),
                  set_strArrays
                    (strArrays σ ++ [gs; gs ++ replicate (slack O (S n)) ""]) σ)).
  { unfold append. cbn [slen]. rewrite decide_False.
    - unfold σ3. simpl. rewrite length_app. simpl.
      change (elems _ None) with (@nil string). simpl.
      assert (Hgs : length gs = S n)
        by (unfold gs; rewrite length_app; simpl; lia).
      rewrite Hgs. replace (length (strArrays σ) + 1)%nat
        with (S (length (strArrays σ))) by lia.
      by rewrite <- app_assoc.
    - unfold gs. rewrite length_app. simpl. lia. }
  rewrite H5. done.
Qed.

(** The handler [WithAttrs] builds, and the store it leaves. *)
Lemma WithAttrs_content (p : loc) (h : CLIHandler.t) (attrs : list Attr)
    (σ : Store.t) :
  handlers σ !! p = Some h → attrs ≠ [] → validOpt σ (CLIHandler.groups h) →
  let st := StyleOps.readStyle σ (CLIHandler.style h) in
  let gs := elems σ (CLIHandler.groups h) in
  let text := attachedSegments st (CLIHandler.timeLayout h) gs (attached h attrs) in
  ∃ (gc : option Slice) (σb : Store.t),
    WithAttrs p attrs σ
      = Some
          (length (handlers σ),
           set_handlers
             (handlers σ
              ++ [ {| CLIHandler.w := CLIHandler.w h;
                      CLIHandler.mu := CLIHandler.mu h;
                      CLIHandler.level := CLIHandler.level h;
                      CLIHandler.prefix := CLIHandler.prefix h;
                      CLIHandler.attrs := attached h attrs;
                      CLIHandler.attrsCache :=
                        if decide (0 < String.length text)%nat
                        then Some text else None;
                      CLIHandler.attrHandler := CLIHandler.attrHandler h;
                      CLIHandler.groups := CLIHandler.groups h;
                      CLIHandler.groupsCache := gc;
                      CLIHandler.pcCache := CLIHandler.pcCache h;
                      CLIHandler.hasCaller := CLIHandler.hasCaller h;
                      CLIHandler.hasTime := CLIHandler.hasTime h;
                      CLIHandler.timeLayout := CLIHandler.timeLayout h;
                      CLIHandler.style := CLIHandler.style h |} ])
             σb)
    ∧ handlers σb = handlers σ ∧ styles σb = styles σ
    ∧ levelMaps σb = levelMaps σ ∧ pcCaches σb = pcCaches σ
    ∧ poolOut σb = poolOut σ ∧ (poolClean σ → poolClean σb)
    ∧ keepsBelow (length (strArrays σ)) σ σb
    ∧ elems σb gc = gs ∧ validOpt σb gc
    ∧ (slen (CLIHandler.groups h) = O → gc = None).
Proof.
  intros Hp Hne Hg st gs text. unfold Handler.WithAttrs.
  rewrite decide_False by (by destruct attrs).
  rewrite Hp. cbn [mbind option_bind].
  change (match CLIHandler.attrHandler h with
          | Some f => (f <$> CLIHandler.attrs h) ++ (f <$> attrs)
          | None => CLIHandler.attrs h ++ attrs
          end) with (attached h attrs).
  (* the buffer *)
  destruct (poolGet_spec σ) as (f0 & H0 & Hc0).
  destruct (poolGet σ) as [b0 σ0]. simpl in H0.
  (* the local groups *)
  pose proof (make_valid 0 (slen (CLIHandler.groups h)) σ0 (Nat.le_0_l _)) as Hv1.
  destruct (make 0 (slen (CLIHandler.groups h)) σ0) as [g0 σ1] eqn:Hmk.
  assert (H1 : σ1 = set_strArrays (strArrays σ ++ [replicate (slen (CLIHandler.groups h)) ""]) σ0
               ∧ arr g0 = length (strArrays σ) ∧ len g0 = O).
  { unfold make in Hmk. simpl in Hmk. rewrite H0 in Hmk. simpl in Hmk.
    injection Hmk as <- <-. by rewrite H0. }
  destruct H1 as (H1 & Ha0 & Hl0). simpl in Hv1.
  assert (K1 : keepsBelow (length (strArrays σ)) σ σ1).
  { rewrite H1, H0. by apply (keepsBelow_alloc _ σ). }
  assert (He1 : elems σ1 (CLIHandler.groups h) = gs).
  { apply (elems_grown σ σ1 [replicate (slen (CLIHandler.groups h)) ""]); [|done].
    by rewrite H1. }
  assert (∃ g2 σ2,
            (if decide (0 < slen (CLIHandler.groups h))%nat
             then append slack (Some g0) (elems σ1 (CLIHandler.groups h)) σ1
             else (Some g0, σ1)) = (Some g2, σ2)
            ∧ valid σ2 g2 ∧ σ2 = set_strArrays (strArrays σ2) σ1
            ∧ (length (strArrays σ) ≤ arr g2)%nat
            ∧ keepsBelow (length (strArrays σ)) σ1 σ2
            ∧ elems σ2 (Some g2) = gs)
    as (g2 & σ2 & -> & Hv2 & H2 & Ha2 & K2 & He2).
  { case_decide as Hpos.
    - destruct (append_empty_spec slack g0 g0 (elems σ1 (CLIHandler.groups h)) σ1 Hv1 Hl0)
        as (g2 & σ2 & -> & Hv2 & He & HR & HG & HO & Harr & _); [by destruct Hv1|].
      exists g2, σ2. split; [done|]. split; [done|]. split; [done|].
      destruct K1 as [G1 _]. split; [|split].
      + destruct Harr as [-> | ->]; lia.
      + split; [done|]. intros l Hl. apply HO; lia.
      + by rewrite He.
    - exists g0, σ1. split; [done|]. split; [done|].
      split; [by rewrite set_strArrays_id|]. split; [lia|].
      split; [apply keepsBelow_refl|].
      unfold elems. rewrite Hl0. simpl.
      pose proof (elems_length σ _ Hg) as Hlen. fold gs in Hlen.
      destruct gs; [done | simpl in Hlen; lia]. }
  (* the rendering *)
  destruct (HandleFacts.writeAttrs_spec Quote FormatTime FormatFloat
              FormatDuration slack g2 (CLIHandler.style h) (CLIHandler.timeLayout h)
              (attached h attrs) "" σ2 Hv2) as (σ3 & -> & F3).
  assert (K3 : keepsBelow (length (strArrays σ)) σ2 σ3).
  { eapply keepsBelow_frame; [exact Ha2 | | exact F3].
    destruct K1, K2. lia. }
  pose proof (frame_rest _ _ _ F3) as H3.
  assert (Hst2 : StyleOps.readStyle σ2 (CLIHandler.style h) = st).
  { unfold st, StyleOps.readStyle. rewrite H2, H1, H0. done. }
  rewrite Hst2, He2, StrFacts.app_nil_l. fold text.
  (* the snapshot *)
  assert (K4 : keepsBelow (length (strArrays σ)) σ (poolPut "" σ3)).
  { eapply keepsBelow_trans; [|apply keepsBelow_same; reflexivity].
    repeat (eapply keepsBelow_trans; [|eassumption]). apply keepsBelow_refl. }
  destruct (keepsBelow_elems σ (poolPut "" σ3) _ Hg K4) as [He4 Hv4].
  rewrite He4. fold gs.
  assert (∃ gc σ5,
            (if decide (0 < slen (CLIHandler.groups h))%nat
             then append slack None gs (poolPut "" σ3)
             else (None, poolPut "" σ3)) = (gc, σ5)
            ∧ σ5 = set_strArrays (strArrays σ5) (poolPut "" σ3)
            ∧ keepsBelow (length (strArrays σ)) (poolPut "" σ3) σ5
            ∧ validOpt σ5 gc ∧ elems σ5 gc = gs
            ∧ (slen (CLIHandler.groups h) = O → gc = None))
    as (gc & σ5 & -> & H5 & K5 & Vgc & Egc & Ngc).
  { case_decide as Hpos.
    - pose proof (append_strStep slack None gs (poolPut "" σ3)) as HS.
      pose proof (append_nil_valid slack gs (poolPut "" σ3)) as [HV [HG HK]].
      pose proof (append_nil_elems gs (poolPut "" σ3)) as HE.
      destruct (append slack None gs (poolPut "" σ3)) as [gc σ5].
      exists gc, σ5. simpl in *. split; [done|]. split; [done|].
      split; [|split; [done|split; [done|lia]]]. split; [done|].
      intros l Hl. apply HK. destruct K4. simpl in *. lia.
    - exists None, (poolPut "" σ3). split; [done|].
      split; [by rewrite set_strArrays_id|].
      split; [apply keepsBelow_refl|]. split; [done|]. split; [|done].
      pose proof (elems_length σ _ Hg) as Hlen. fold gs in Hlen.
      destruct gs; [done | simpl in Hlen; lia]. }
  cbn [Heap.alloc].
  assert (Hrest : handlers σ5 = handlers σ ∧ styles σ5 = styles σ
                  ∧ levelMaps σ5 = levelMaps σ ∧ pcCaches σ5 = pcCaches σ
                  ∧ poolOut σ5 = poolOut σ
                  ∧ poolFree σ5 = "" :: f0).
  { rewrite H5, H3, H2, H1, H0. done. }
  destruct Hrest as (Hh & Hst & Hlm & Hpc & Hpo & Hpf).
  exists gc, σ5. rewrite Hh.
  split; [done|]. split; [done|]. split; [done|]. split; [done|].
  split; [done|]. split; [done|]. split.
  { intros Hc. unfold poolClean. rewrite Hpf. constructor; [done|]. by apply Hc0. }
  split; [by eapply keepsBelow_trans|]. done.
Qed.

Lemma sameSettings_refl (h : CLIHandler.t) : sameSettings h h.
Proof. by repeat split. Qed.

(** The line of a record depends on the handler through the fields a
    derivation copies, the attributes and their cache. *)
Lemma lineText_settings (h h2 : CLIHandler.t) (r : Record.t) (ls : LevelStyle.t)
    (st : Style.t) (pcs : gmap Z string) (gs : list string) :
  sameSettings h h2 →
  CLIHandler.attrs h2 = CLIHandler.attrs h →
  CLIHandler.attrsCache h2 = CLIHandler.attrsCache h →
  lineText h2 r ls st pcs gs = lineText h r ls st pcs gs.
Proof.
  intros (_ & _ & _ & Hp & Hf & _ & Hc & Ht & Hl & _) Ha Hac.
  unfold Pure.lineText, Pure.headText, Pure.recordSegments, Pure.redact,
    Pure.callerText, Pure.labelText, Handler.writeTime.
  by rewrite Hp, Hf, Hc, Ht, Hl, Ha, Hac.
Qed.

(** X9. [Enabled] is upward closed: a handler enabled for a level is
    enabled for every higher level. A handler derived by [WithAttrs] or
    [WithGroup] has the writer, mutex, level, label, redaction function,
    caller cache, caller and time switches, layout and style of the
    handler it is derived from, so it is enabled for exactly the same
    levels. *)
Theorem Enabled_upward_inherited :
  (∀ (h : CLIHandler.t) (l l' : Level),
      l ≤ l' → Enabled h l = true → Enabled h l' = true)
  ∧ (∀ (p : loc) (h : CLIHandler.t) (attrs : list Attr) (σ : Store.t)
       (p' : loc) (σ' : Store.t),
       handlers σ !! p = Some h → validOpt σ (CLIHandler.groups h) →
       WithAttrs p attrs σ = Some (p', σ') →
       ∃ h2, handlers σ' !! p' = Some h2 ∧ sameSettings h h2
             ∧ ∀ l, Enabled h2 l = Enabled h l)
  ∧ (∀ (p : loc) (h : CLIHandler.t) (name : string) (σ : Store.t)
       (p' : loc) (σ' : Store.t),
       handlers σ !! p = Some h → validOpt σ (CLIHandler.groups h) →
       WithGroup p name σ = Some (p', σ') →
       ∃ h2, handlers σ' !! p' = Some h2 ∧ sameSettings h h2
             ∧ ∀ l, Enabled h2 l = Enabled h l).
Proof.
  split; [|split].
  - intros h l l' Hle. unfold Enabled.
    destruct (CLIHandler.level h) as [t|]; [|done].
    rewrite !bool_decide_eq_true. lia.
  - intros p h attrs σ p' σ' Hp Hg Hw.
    destruct attrs as [|a attrs].
    + unfold Handler.WithAttrs in Hw. simpl in Hw. injection Hw as <- <-.
      exists h. split; [done|]. split; [apply sameSettings_refl | done].
    + destruct (WithAttrs_content p h (a :: attrs) σ Hp ltac:(done) Hg)
        as (gc & σb & Hw' & Hh & _).
      rewrite Hw in Hw'. injection Hw' as -> ->.
      eexists. split.
      * simpl. by rewrite list_lookup_middle.
      * split; [by repeat split | done].
  - intros p h name σ p' σ' Hp Hg Hw.
    destruct (decide (name = "")) as [->|Hn].
    + unfold Handler.WithGroup in Hw. simpl in Hw. injection Hw as <- <-.
      exists h. split; [done|]. split; [apply sameSettings_refl | done].
    + rewrite (WithGroup_closed p h name σ Hp Hn Hg) in Hw.
      injection Hw as <- <-.
      eexists. split.
      * simpl. by rewrite list_lookup_middle.
      * split; [by repeat split | done].
Qed.

(** X10. [WithGroup] with a non-empty name builds a handler with the
    settings and the attributes of the receiver, no rendered attribute
    cache, and group names that are those of the receiver followed by
    the name, held in a new array, with a snapshot of them in another
    new array. With an orderly pool, [Handle] through the new handler
    writes the line the receiver would write without its attribute cache
    under the extended group names: the attributes of the record and the
    attributes attached before the group are all written under the new
    name. *)
Theorem WithGroup_extends_path (p : loc) (h : CLIHandler.t) (name : string)
    (σ : Store.t) :
  handlers σ !! p = Some h → name ≠ "" → validOpt σ (CLIHandler.groups h) →
  let st := StyleOps.readStyle σ (CLIHandler.style h) in
  let gs := elems σ (CLIHandler.groups h) ++ [name] in
  ∃ (h2 : CLIHandler.t) (σ' : Store.t),
    WithGroup p name σ = Some (length (handlers σ), σ')
    ∧ handlers σ' !! length (handlers σ) = Some h2
    ∧ sameSettings h h2
    ∧ CLIHandler.attrs h2 = CLIHandler.attrs h
    ∧ CLIHandler.attrsCache h2 = None
    ∧ elems σ' (CLIHandler.groups h2) = gs
    ∧ elems σ' (CLIHandler.groupsCache h2) = gs
    ∧ (∀ g gc, CLIHandler.groups h2 = Some g →
         CLIHandler.groupsCache h2 = Some gc →
         arr g ≠ arr gc
         ∧ (length (strArrays σ) ≤ arr g)%nat
         ∧ (length (strArrays σ) ≤ arr gc)%nat)
    ∧ (poolClean σ →
       ∀ (r : Record.t) (ω : World) (ls : LevelStyle.t),
         levelStyleFor σ (Style.Level st) (Record.Level r) = Some ls →
         let line :=
           lineText (uncached h) r ls st (pcCacheOf σ (CLIHandler.pcCache h)) gs in
         ∃ σ'',
           Handle h2 r σ' ω
             = (ErrWrite <$> (writeTo (CLIHandler.w h) line ω).2, σ'',
                (writeTo (CLIHandler.w h) line ω).1)).
Proof.
  intros Hp Hn Hg st gs.
  pose proof (WithGroup_closed p h name σ Hp Hn Hg) as Hw. cbv zeta in Hw.
  fold gs in Hw.
  eexists _, _. split; [exact Hw|].
  set (n := slen (CLIHandler.groups h)) in *.
  assert (Hlen : length gs = S n).
  { unfold gs. rewrite length_app, (elems_length σ _ Hg). simpl. lia. }
  split; [simpl; by rewrite list_lookup_middle|].
  split; [by repeat split|]. split; [done|]. split; [done|].
  assert (E1 : ∀ x, elems
            (set_handlers x
               (set_strArrays
                  (strArrays σ ++ [gs; gs ++ replicate (slack O (S n)) ""]) σ))
            (Some (MkSlice (length (strArrays σ)) (S n))) = gs).
  { intros x. unfold elems, arrayOf. simpl.
    rewrite (list_lookup_middle _ _ gs) by done. simpl.
    rewrite take_ge; [done | lia]. }
  assert (E2 : ∀ x, elems
            (set_handlers x
               (set_strArrays
                  (strArrays σ ++ [gs; gs ++ replicate (slack O (S n)) ""]) σ))
            (Some (MkSlice (S (length (strArrays σ))) (S n))) = gs).
  { intros x. unfold elems, arrayOf. simpl.
    rewrite (lookup_app_r _ _ (S (length (strArrays σ)))) by lia.
    replace (S (length (strArrays σ)) - length (strArrays σ))%nat with 1%nat by lia.
    simpl. rewrite <- Hlen. by rewrite take_app_length. }
  split; [apply E1|]. split; [apply E2|].
  split.
  { intros g gc [= <-] [= <-]. simpl. lia. }
  intros Hc r ω ls Hls line.
  match goal with
  | |- context [Handle ?h2 r ?σ' ω] =>
      destruct (HandleFacts.Handle_text StringWidth Quote FormatTime FormatFloat
                  FormatDuration FuncForPC slack World Write h2 r σ' ω ls)
        as (σ'' & Hh)
  end.
  - split; simpl; [rewrite length_app; simpl; lia|].
    unfold cap, arrayOf. simpl.
    rewrite (list_lookup_middle _ _ gs) by done. simpl. lia.
  - split; simpl; [rewrite length_app; simpl; lia|].
    unfold cap, arrayOf. simpl.
    rewrite (lookup_app_r _ _ (S (length (strArrays σ)))) by lia.
    replace (S (length (strArrays σ)) - length (strArrays σ))%nat with 1%nat by lia.
    simpl. rewrite length_app. lia.
  - exact Hc.
  - exact Hls.
  - exists σ''. rewrite Hh. cbn [CLIHandler.w CLIHandler.groups].
    rewrite E1. done.
Qed.

(** X11. [WithAttrs] with attributes builds a handler with the settings
    and the groups of the receiver whose attributes are those of the
    receiver followed by the new ones, each passed through the redaction
    function when there is one, the attributes of the receiver among
    them. Its cache holds their rendering under the style and the groups
    at the time of the call, or is nil when that rendering is empty, as
    when every key is empty. The cache changes nothing in the output:
    the head of a line is the same with the cache as without it, and with
    an orderly pool [Handle] through the new handler writes the line of
    the record under the groups of the receiver. *)
Theorem WithAttrs_renders_once (p : loc) (h : CLIHandler.t) (attrs : list Attr)
    (σ : Store.t) :
  handlers σ !! p = Some h → attrs ≠ [] → validOpt σ (CLIHandler.groups h) →
  let st := StyleOps.readStyle σ (CLIHandler.style h) in
  let gs := elems σ (CLIHandler.groups h) in
  let text := attachedSegments st (CLIHandler.timeLayout h) gs (attached h attrs) in
  ∃ (h2 : CLIHandler.t) (σ' : Store.t),
    WithAttrs p attrs σ = Some (length (handlers σ), σ')
    ∧ handlers σ' !! length (handlers σ) = Some h2
    ∧ sameSettings h h2
    ∧ CLIHandler.groups h2 = CLIHandler.groups h
    ∧ CLIHandler.attrs h2 = attached h attrs
    ∧ (CLIHandler.attrHandler h = None →
         CLIHandler.attrs h2 = CLIHandler.attrs h ++ attrs)
    ∧ (∀ f, CLIHandler.attrHandler h = Some f →
         CLIHandler.attrs h2 = (f <$> CLIHandler.attrs h) ++ (f <$> attrs))
    ∧ (text ≠ "" → CLIHandler.attrsCache h2 = Some text)
    ∧ (text = "" → CLIHandler.attrsCache h2 = None)
    ∧ (Forall (λ a, Key a = "") (attached h attrs) → text = "")
    ∧ elems σ' (CLIHandler.groupsCache h2) = gs
    ∧ (∀ r ls pcs buf,
         headText h2 r ls st pcs gs buf
           = headText (uncached h2) r ls st pcs gs buf)
    ∧ (poolClean σ →
       ∀ (r : Record.t) (ω : World) (ls : LevelStyle.t),
         levelStyleFor σ (Style.Level st) (Record.Level r) = Some ls →
         let line :=
           lineText (uncached h2) r ls st (pcCacheOf σ (CLIHandler.pcCache h)) gs in
         ∃ σ'',
           Handle h2 r σ' ω
             = (ErrWrite <$> (writeTo (CLIHandler.w h) line ω).2, σ'',
                (writeTo (CLIHandler.w h) line ω).1)).
Proof.
  intros Hp Hne Hg st gs text.
  destruct (WithAttrs_content p h attrs σ Hp Hne Hg)
    as (gc & σb & Hw & Hh & Hst & Hlm & Hpc & Hpo & Hcl & K & Egc & Vgc & _).
  fold st gs text in Hw.
  eexists _, _. split; [exact Hw|].
  split; [simpl; by rewrite list_lookup_middle|].
  split; [by repeat split|]. split; [done|]. split; [done|].
  split; [by intros Hf; unfold attached; rewrite Hf|].
  split; [by intros f Hf; unfold attached; rewrite Hf|].
  assert (Hpos : text ≠ "" ↔ (0 < String.length text)%nat).
  { destruct text; simpl; split; try done; lia. }
  split.
  { intros Ht. simpl. by rewrite decide_True by (by apply Hpos). }
  split.
  { intros Ht. simpl. rewrite decide_False; [done|]. rewrite Ht. simpl. lia. }
  split.
  { unfold text, Pure.attachedSegments. generalize (attached h attrs).
    induction 1 as [|a l Ha _ IH]; [done|]. simpl.
    by rewrite decide_True, IH by done. }
  split; [exact Egc|].
  assert (Hhead : ∀ r ls pcs buf,
            headText
              {| CLIHandler.w := CLIHandler.w h; CLIHandler.mu := CLIHandler.mu h;
                 CLIHandler.level := CLIHandler.level h;
                 CLIHandler.prefix := CLIHandler.prefix h;
                 CLIHandler.attrs := attached h attrs;
                 CLIHandler.attrsCache :=
                   if decide (0 < String.length text)%nat then Some text else None;
                 CLIHandler.attrHandler := CLIHandler.attrHandler h;
                 CLIHandler.groups := CLIHandler.groups h;
                 CLIHandler.groupsCache := gc;
                 CLIHandler.pcCache := CLIHandler.pcCache h;
                 CLIHandler.hasCaller := CLIHandler.hasCaller h;
                 CLIHandler.hasTime := CLIHandler.hasTime h;
                 CLIHandler.timeLayout := CLIHandler.timeLayout h;
                 CLIHandler.style := CLIHandler.style h |} r ls st pcs gs buf
            = headText
                (uncached
                   {| CLIHandler.w := CLIHandler.w h; CLIHandler.mu := CLIHandler.mu h;
                      CLIHandler.level := CLIHandler.level h;
                      CLIHandler.prefix := CLIHandler.prefix h;
                      CLIHandler.attrs := attached h attrs;
                      CLIHandler.attrsCache :=
                        if decide (0 < String.length text)%nat then Some text else None;
                      CLIHandler.attrHandler := CLIHandler.attrHandler h;
                      CLIHandler.groups := CLIHandler.groups h;
                      CLIHandler.groupsCache := gc;
                      CLIHandler.pcCache := CLIHandler.pcCache h;
                      CLIHandler.hasCaller := CLIHandler.hasCaller h;
                      CLIHandler.hasTime := CLIHandler.hasTime h;
                      CLIHandler.timeLayout := CLIHandler.timeLayout h;
                      CLIHandler.style := CLIHandler.style h |}) r ls st pcs gs buf).
  { intros r ls pcs buf. unfold Pure.headText.
    cbn [uncached CLIHandler.attrsCache CLIHandler.attrs CLIHandler.timeLayout
         Color.blen Color.bytes].
    rewrite (decide_False (P := (0 < 0)%nat)) by lia.
    destruct (decide (0 < String.length text)%nat) as [Hl|Hl];
      cbn [Color.blen Color.bytes default].
    - rewrite decide_True by done. reflexivity.
    - rewrite decide_False by (simpl; lia). reflexivity. }
  split; [exact Hhead|].
  intros Hc r ω ls Hls line.
  destruct (keepsBelow_elems σ σb _ Hg K) as [Eg Vg].
  match goal with
  | |- context [Handle ?h2 r ?σ' ω] =>
      destruct (HandleFacts.Handle_text StringWidth Quote FormatTime FormatFloat
                  FormatDuration FuncForPC slack World Write h2 r σ' ω ls)
        as (σ'' & Hhd)
  end.
  - destruct (CLIHandler.groups h) as [g|]; [|done].
    unfold validOpt, valid, cap, arrayOf in *. by simpl.
  - destruct gc as [g|]; [|done].
    unfold validOpt, valid, cap, arrayOf in *. by simpl.
  - apply Hcl, Hc.
  - cbn [CLIHandler.style]. unfold StyleOps.readStyle, levelStyleFor,
      StyleOps.levelAt, StyleOps.levelMapOf in *. simpl. by rewrite Hst, Hlm.
  - exists σ''. rewrite Hhd. cbn [CLIHandler.w CLIHandler.groups CLIHandler.style
      CLIHandler.pcCache].
    assert (Hs : StyleOps.readStyle
              (set_handlers (handlers σ ++ [uncached h]) σb) (CLIHandler.style h) = st).
    { unfold st, StyleOps.readStyle. simpl. by rewrite Hst. }
    assert (He : ∀ o x, elems (set_handlers x σb) o = elems σb o) by done.
    assert (Hp2 : ∀ x, pcCacheOf (set_handlers x σb) (CLIHandler.pcCache h)
                       = pcCacheOf σ (CLIHandler.pcCache h)).
    { intros x. unfold pcCacheOf. simpl. by rewrite Hpc. }
    unfold StyleOps.readStyle in *. simpl styles in *. rewrite Hst.
    fold (StyleOps.readStyle σ (CLIHandler.style h)). fold st.
    rewrite He, Eg, Hp2. fold gs.
    subst line. unfold Pure.lineText. rewrite Hhead. done.
Qed.

(** X12. Deriving twice with [WithAttrs] from a handler with a redaction
    function passes the attributes of the first call through the
    function a second time, while those of the second call pass once:
    the function is applied to the attributes already attached at every
    later [WithAttrs]. Without a redaction function the attributes are
    appended as given. *)
Theorem WithAttrs_twice (p : loc) (h : CLIHandler.t) (as1 as2 : list Attr)
    (σ : Store.t) :
  handlers σ !! p = Some h → as1 ≠ [] → as2 ≠ [] →
  validOpt σ (CLIHandler.groups h) →
  ∃ (p1 : loc) (σ1 : Store.t) (p2 : loc) (σ2 : Store.t) (h2 : CLIHandler.t),
    WithAttrs p as1 σ = Some (p1, σ1)
    ∧ WithAttrs p1 as2 σ1 = Some (p2, σ2)
    ∧ handlers σ2 !! p2 = Some h2
    ∧ sameSettings h h2
    ∧ (CLIHandler.attrHandler h = None →
         CLIHandler.attrs h2 = CLIHandler.attrs h ++ as1 ++ as2)
    ∧ (∀ f, CLIHandler.attrHandler h = Some f →
         CLIHandler.attrs h2
           = (f <$> (f <$> CLIHandler.attrs h)) ++ (f <$> (f <$> as1)) ++ (f <$> as2)).
Proof.
  intros Hp H1 H2 Hg.
  destruct (WithAttrs_content p h as1 σ Hp H1 Hg)
    as (gc & σb & Hw & Hh & Hst & Hlm & Hpc & Hpo & Hcl & K & Egc & Vgc & _).
  cbv zeta in Hw.
  match type of Hw with
  | _ = Some (_, set_handlers (_ ++ [?h1']) _) => set (h1 := h1') in *
  end.
  assert (Hp1 : handlers (set_handlers (handlers σ ++ [h1]) σb)
                  !! length (handlers σ) = Some h1)
    by (simpl; by rewrite list_lookup_middle).
  assert (Hg1 : validOpt (set_handlers (handlers σ ++ [h1]) σb) (CLIHandler.groups h1)).
  { destruct (keepsBelow_elems σ σb _ Hg K) as [_ Vg].
    subst h1. cbn [CLIHandler.groups].
    destruct (CLIHandler.groups h) as [g|]; [|done].
    unfold validOpt, valid, cap, arrayOf in *. by simpl. }
  destruct (WithAttrs_content (length (handlers σ)) h1 as2 _ Hp1 H2 Hg1)
    as (gc2 & σb2 & Hw2 & _).
  cbv zeta in Hw2.
  eexists _, _, _, _, _. split; [exact Hw|]. split; [exact Hw2|].
  split; [simpl; by rewrite list_lookup_middle|].
  split; [by repeat split|].
  split.
  - intros Hf. simpl. unfold attached. subst h1. simpl. rewrite Hf.
    unfold attached. rewrite Hf. by rewrite <- app_assoc.
  - intros f Hf. simpl. unfold attached. subst h1. simpl. rewrite Hf.
    unfold attached. rewrite Hf. by rewrite fmap_app, <- app_assoc.
Qed.

End derived.


Lemma Enabled_upward_inherited_witness :
  ∃ h2, handlers Demo.groupedStore !! Demo.groupedPtr = Some h2
        ∧ Enabled h2 LevelWarn = true ∧ Enabled h2 LevelDebug = false.
Proof.
  destruct (Enabled_upward_inherited Demo.Quote Demo.FormatTime Demo.FormatFloat
              Demo.FormatDuration Demo.slack) as (Hup & Hattrs & _).
  pose (σ1 := default Store.empty
                (snd <$> Handler.WithGroup Demo.slack O "g"
                   (Handler.NewCLIHandler (Some (Other 1))
                      [Handler.WithStyle (Some O)] Demo.store0).2)).
  destruct (handlers σ1 !! 1%nat) as [h1|] eqn:Hh1; [|by vm_compute in Hh1].
  destruct (Hattrs 1%nat h1 [String_ "a" "1"] σ1 Demo.groupedPtr Demo.groupedStore Hh1)
    as (h2 & Hh2 & _ & He).
  - vm_compute in Hh1. injection Hh1 as <-. split; vm_compute; lia.
  - vm_compute. reflexivity.
  - exists h2. split; [exact Hh2|]. rewrite !He.
    vm_compute in Hh1. injection Hh1 as <-. split; vm_compute; reflexivity.
Defined.

Lemma WithGroup_extends_path_witness :
  ∃ (h2 : CLIHandler.t) (σ' σ'' : Store.t),
    Handler.WithGroup Demo.slack O "g" Scenario.base = Some (1%nat, σ')
    ∧ elems σ' (CLIHandler.groups h2) = ["g"]
    ∧ Demo.Handle h2 (Demo.record LevelInfo [String_ "k" "v"]) σ' []
      = (None, σ'', [(Other 1, "[INF] login g.k=v" +:+ String Handler.newline "")]).
Proof.
  destruct (WithGroup_extends_path Demo.StringWidth Demo.Quote Demo.FormatTime
              Demo.FormatFloat Demo.FormatDuration Demo.FuncForPC Demo.slack
              Demo.World Demo.Write O (Scenario.handlerAt Scenario.base O) "g"
              Scenario.base)
    as (h2 & σ' & Hw & _ & _ & _ & _ & Hg & _ & _ & Hh).
  - vm_compute. reflexivity.
  - done.
  - done.
  - destruct (Hh ltac:(by vm_compute)
                (Demo.record LevelInfo [String_ "k" "v"]) []
                (StyleOps.lvl "[INF]" None 0)) as (σ'' & Hh2).
    { vm_compute. reflexivity. }
    exists h2, σ', σ''. split; [exact Hw|]. split; [exact Hg|].
    unfold Demo.Handle. rewrite Hh2. vm_compute. reflexivity.
Defined.

Lemma WithAttrs_renders_once_witness :
  ∃ (h2 : CLIHandler.t) (σ' : Store.t),
    Demo.WithAttrs O [String_ "a" "1"; String_ "" "x"; String_ "b" "two words"]
      Scenario.base = Some (1%nat, σ')
    ∧ CLIHandler.attrsCache h2
      = Some (" a=1 b=" +:+ Demo.Quote "two words").
Proof.
  destruct (WithAttrs_renders_once Demo.StringWidth Demo.Quote Demo.FormatTime
              Demo.FormatFloat Demo.FormatDuration Demo.FuncForPC Demo.slack
              Demo.World Demo.Write O (Scenario.handlerAt Scenario.base O)
              [String_ "a" "1"; String_ "" "x"; String_ "b" "two words"]
              Scenario.base)
    as (h2 & σ' & Hw & _ & _ & _ & _ & _ & _ & Hc & _).
  - vm_compute. reflexivity.
  - done.
  - done.
  - exists h2, σ'. split; [exact Hw|]. rewrite Hc; [vm_compute; reflexivity|].
    by vm_compute.
Defined.

Lemma WithAttrs_twice_witness :
  ∃ (p1 : loc) (σ1 : Store.t) (p2 : loc) (σ2 : Store.t) (h2 : CLIHandler.t),
    Demo.WithAttrs O [String_ "a" "1"] Scenario.marking = Some (p1, σ1)
    ∧ Demo.WithAttrs p1 [String_ "b" "2"] σ1 = Some (p2, σ2)
    ∧ handlers σ2 !! p2 = Some h2
    ∧ CLIHandler.attrs h2 = [String_ "a" "1**"; String_ "b" "2*"].
Proof.
  destruct (WithAttrs_twice Demo.Quote Demo.FormatTime Demo.FormatFloat
              Demo.FormatDuration Demo.slack O
              (Scenario.handlerAt Scenario.marking O)
              [String_ "a" "1"] [String_ "b" "2"] Scenario.marking)
    as (p1 & σ1 & p2 & σ2 & h2 & H1 & H2 & H3 & _ & _ & H4).
  - vm_compute. reflexivity.
  - done.
  - done.
  - done.
  - exists p1, σ1, p2, σ2, h2. split; [exact H1|]. split; [exact H2|].
    split; [exact H3|]. rewrite (H4 Scenario.mark); reflexivity.
Defined.

End DerivedFacts.

(** ** handler.go: levels and writers in [Handle] *)

Module LevelFacts.
Import Store Strings Inv Handler FrameFacts AttrFacts PureFacts StepFacts
  HandleFacts Derived.

Section levels.
Variable StringWidth : string → Z.
Variable Quote : string → string.
Variable FormatTime : Z → string → string.
Variable FormatFloat : Z → string.
Variable FormatDuration : Z → string.
Variable FuncForPC : Z → option FuncInfo.t.
Variable slack : nat → nat → nat.
Variable World : Type.
Variable Write : Writer → string → World → World * option string.

#[local] Abbreviation render := (Handler.render StringWidth Quote FormatTime FormatFloat FormatDuration FuncForPC slack).
#[local] Abbreviation Handle := (Handler.Handle StringWidth Quote FormatTime FormatFloat FormatDuration FuncForPC slack World Write).
#[local] Abbreviation writeTo := (Handler.writeTo World Write).
#[local] Abbreviation lineText := (Pure.lineText StringWidth Quote FormatTime FormatFloat FormatDuration FuncForPC).

Lemma levelStyleFor_error (σ : Store.t) (m : option loc) (l : Level) :
  LevelError ≤ l →
  levelStyleFor σ m l = Some (StyleOps.levelAt σ m LevelError).
Proof.
  intros Hl. unfold levelStyleFor, LevelDebug, LevelInfo, LevelWarn, LevelError in *.
  repeat case_decide; try lia; done.
Qed.

(** X13. Every level at or above error is handled as the error level:
    [Handle] of a record with such a level returns, writes and leaves
    behind what it does for the same record at the level error. (The
    levels between the named ones are what [Handle] rejects.) *)
Theorem Handle_error_levels (h : CLIHandler.t) (r : Record.t) (σ : Store.t)
    (ω : World) :
  LevelError ≤ Record.Level r →
  Handle h r σ ω = Handle h (atLevel LevelError r) σ ω
  ∧ levelStyleFor σ (Style.Level (StyleOps.readStyle σ (CLIHandler.style h)))
      (Record.Level r)
    = Some (StyleOps.levelAt σ
              (Style.Level (StyleOps.readStyle σ (CLIHandler.style h))) LevelError).
Proof.
  intros Hl. split; [|by apply levelStyleFor_error].
  unfold Handler.Handle.
  rewrite (levelStyleFor_error σ _ (Record.Level r)) by done.
  rewrite (levelStyleFor_error σ _ (Record.Level (atLevel LevelError r))) by done.
  reflexivity.
Qed.

Lemma writeLevel_no_text (ls : LevelStyle.t) (buf : string) (σ : Store.t) :
  LevelStyle.Text ls = "" →
  Handler.writeLevel StringWidth ls buf σ = (buf, σ).
Proof. intros Ht. unfold Handler.writeLevel. rewrite Ht. by case_decide. Qed.

Lemma render_no_text (h : CLIHandler.t) (r : Record.t) (ls : LevelStyle.t)
    (buf : string) (σ : Store.t) :
  LevelStyle.Text ls = "" →
  render h r ls buf σ = render h r LevelStyle.zero buf σ.
Proof.
  intros Ht. unfold Handler.render, Handler.renderHead.
  rewrite (writeLevel_no_text ls) by done.
  by rewrite (writeLevel_no_text LevelStyle.zero) by done.
Qed.

(** X14. A level style with the empty text writes nothing for the
    level: no prefix, no suffix, no padding and no space, whatever its
    other fields are. That is the style a level missing from the level
    map has, and the one every level has under a nil map; [Handle] then
    still succeeds, and its line starts with the caller, the label or the
    message. *)
Theorem Handle_untagged_level (h : CLIHandler.t) (r : Record.t) (σ : Store.t)
    (ω : World) (ls : LevelStyle.t) :
  let st := StyleOps.readStyle σ (CLIHandler.style h) in
  levelStyleFor σ (Style.Level st) (Record.Level r) = Some ls →
  LevelStyle.Text ls = "" →
  (∀ buf σ0, Handler.writeLevel StringWidth ls buf σ0 = (buf, σ0))
  ∧ (∀ buf, Pure.levelText StringWidth ls buf = buf)
  ∧ Handle h r σ ω
    = (ErrWrite <$> (writeTo (CLIHandler.w h)
                       (render h r LevelStyle.zero (poolGet σ).1 (poolGet σ).2).1 ω).2,
       poolPut "" (render h r LevelStyle.zero (poolGet σ).1 (poolGet σ).2).2,
       (writeTo (CLIHandler.w h)
          (render h r LevelStyle.zero (poolGet σ).1 (poolGet σ).2).1 ω).1)
  ∧ (validOpt σ (CLIHandler.groups h) → validOpt σ (CLIHandler.groupsCache h) →
     poolClean σ →
     (render h r LevelStyle.zero (poolGet σ).1 (poolGet σ).2).1
       = lineText h r LevelStyle.zero st (pcCacheOf σ (CLIHandler.pcCache h))
           (elems σ (CLIHandler.groups h)))
  ∧ (∀ (σ0 : Store.t) (m : option loc) (l : Level),
       classified l →
       (∀ k, StyleOps.levelMapOf σ0 m !! k = None) →
       levelStyleFor σ0 m l = Some LevelStyle.zero).
Proof.
  intros st Hls Ht.
  split; [intros buf σ0; by apply writeLevel_no_text|].
  split; [intros buf; unfold Pure.levelText; rewrite Ht; by case_decide|].
  split.
  { rewrite (Handle_classified StringWidth Quote FormatTime FormatFloat
               FormatDuration FuncForPC slack World Write h r σ ω ls Hls).
    by rewrite render_no_text. }
  split.
  { intros Hg Hgc Hc.
    destruct (poolGet_spec σ) as (f0 & H0 & Hc0).
    destruct (Hc0 Hc) as [Hb0 Hf0].
    assert (Hs : strArrays (poolGet σ).2 = strArrays σ
                 ∧ styles (poolGet σ).2 = styles σ
                 ∧ pcCaches (poolGet σ).2 = pcCaches σ) by (by rewrite H0).
    destruct Hs as (Hs & Hst & Hpc).
    assert (Hel : ∀ o, elems (poolGet σ).2 o = elems σ o).
    { intros [o|]; [|done]. unfold elems, arrayOf. by rewrite Hs. }
    assert (Hval : ∀ o, validOpt σ o → validOpt (poolGet σ).2 o).
    { intros [o|]; [|done]. unfold validOpt, valid, cap, arrayOf. by rewrite Hs. }
    rewrite (render_line StringWidth Quote FormatTime FormatFloat FormatDuration
               FuncForPC slack) by auto.
    destruct (renderHead_spec StringWidth Quote FormatTime FormatFloat
                FormatDuration FuncForPC slack h r LevelStyle.zero
                (poolGet σ).1 (poolGet σ).2)
      as (head & g & σ1 & Hrh & _ & _ & _ & Htext); [auto | auto |].
    rewrite Hrh. cbn [fst snd]. rewrite Htext.
    - unfold Pure.lineText, st. rewrite Hb0, Hel.
      unfold StyleOps.readStyle, pcCacheOf. by rewrite Hst, Hpc.
    - unfold poolClean. rewrite H0. done. }
  intros σ0 m l Hc Hm. unfold levelStyleFor, StyleOps.levelAt.
  rewrite !Hm. simpl.
  destruct Hc as [->|[->|[->|Hl]]]; repeat case_decide; try done;
    unfold LevelDebug, LevelInfo, LevelWarn, LevelError in *; lia.
Qed.

(** X15. A handler whose writer is the discarding one never calls a
    writer: [Handle] leaves the world as it is, for every [Write], and
    returns no error or the unknown-level error. [setColorable] turns a
    nil writer into the discarding one, a file into its colour-capable
    wrapper, and leaves every other writer; once applied, applying it
    again changes nothing. *)
Theorem discard_is_silent :
  setColorable None = Discard
  ∧ (∀ fd, setColorable (Some (File fd)) = Colorable fd)
  ∧ (∀ w, (∀ fd, w ≠ File fd) → setColorable (Some w) = w)
  ∧ (∀ w, setColorable (Some (setColorable w)) = setColorable w)
  ∧ ∀ (h : CLIHandler.t) (r : Record.t) (σ : Store.t) (ω : World),
      CLIHandler.w h = Discard →
      (Handle h r σ ω).2 = ω
      ∧ ((Handle h r σ ω).1.1 = None
         ∨ ((Handle h r σ ω).1.1 = Some ErrUnknownLevel
            ∧ ¬ classified (Record.Level r))).
Proof.
  split; [done|]. split; [done|].
  split; [intros [| fd | |] Hw; try done; by destruct (Hw fd)|].
  split; [by intros [[]|]|].
  intros h r σ ω Hw.
  destruct (levelStyleFor σ
              (Style.Level (StyleOps.readStyle σ (CLIHandler.style h)))
              (Record.Level r)) as [ls|] eqn:Hls.
  - rewrite (Handle_classified StringWidth Quote FormatTime FormatFloat
               FormatDuration FuncForPC slack World Write h r σ ω ls Hls).
    rewrite Hw. unfold Handler.writeTo. cbn [fst snd].
    case_decide; simpl; auto.
  - unfold Handler.Handle. rewrite Hls. simpl. split; [done|]. right.
    split; [done|]. by apply levelStyleFor_None in Hls.
Qed.

End levels.

Lemma Handle_error_levels_witness :
  Demo.Handle (Scenario.handlerAt Scenario.base O)
    (Demo.record 12 [String_ "k" "v"]) Scenario.base []
  = Demo.Handle (Scenario.handlerAt Scenario.base O)
      (Demo.record LevelError [String_ "k" "v"]) Scenario.base []
  ∧ (Demo.Handle (Scenario.handlerAt Scenario.base O)
       (Demo.record 12 [String_ "k" "v"]) Scenario.base []).2
    = [(Other 1, "[ERR] login k=v" +:+ String Handler.newline "")].
Proof.
  destruct (Handle_error_levels Demo.StringWidth Demo.Quote Demo.FormatTime
              Demo.FormatFloat Demo.FormatDuration Demo.FuncForPC Demo.slack
              Demo.World Demo.Write (Scenario.handlerAt Scenario.base O)
              (Demo.record 12 [String_ "k" "v"]) Scenario.base [])
    as [H _]; [by vm_compute|].
  unfold Demo.Handle. rewrite H. split; [reflexivity|].
  vm_compute. reflexivity.
Defined.

(** A style with a nil level map. *)
Lemma Handle_untagged_level_witness :
  let σ := Store.set_styles [Style.zero] Scenario.base in
  (Demo.Handle (Scenario.handlerAt Scenario.base O)
     (Demo.record LevelWarn []) σ []).1.1 = None
  ∧ (Demo.Handle (Scenario.handlerAt Scenario.base O)
       (Demo.record LevelWarn []) σ []).2
    = [(Other 1, "login" +:+ String Handler.newline "")].
Proof.
  intros σ.
  pose proof (Handle_untagged_level Demo.StringWidth Demo.Quote Demo.FormatTime
                Demo.FormatFloat Demo.FormatDuration Demo.FuncForPC Demo.slack
                Demo.World Demo.Write (Scenario.handlerAt Scenario.base O)
                (Demo.record LevelWarn []) σ [] LevelStyle.zero) as H.
  cbv zeta in H. destruct H as (_ & _ & H & _).
  - vm_compute. reflexivity.
  - reflexivity.
  - unfold Demo.Handle. rewrite H. split; vm_compute; reflexivity.
Defined.

Lemma discard_is_silent_witness :
  let r := Handler.NewCLIHandler None [] Store.empty in
  ∃ h, handlers r.2 !! r.1 = Some h
       ∧ (Demo.Handle h (Demo.record LevelInfo [String_ "k" "v"]) r.2 []).2 = [].
Proof.
  intros r.
  destruct (discard_is_silent Demo.StringWidth Demo.Quote Demo.FormatTime
              Demo.FormatFloat Demo.FormatDuration Demo.FuncForPC Demo.slack
              Demo.World Demo.Write) as (_ & _ & _ & _ & H).
  destruct (handlers r.2 !! r.1) as [h|] eqn:Hh; [|by vm_compute in Hh].
  exists h. split; [done|].
  apply H. vm_compute in Hh. by injection Hh as <-.
Defined.

End LevelFacts.

(** ** handler.go: what [Handle] leaves for the next call *)

Module RepeatFacts.
Import Store Strings Inv Handler FrameFacts AttrFacts PureFacts StepFacts
  HandleFacts DeriveFacts WfFacts DerivedFacts.

#[local] Arguments Strings.append : simpl never.
#[local] Arguments Strings.make : simpl never.
#[local] Arguments Strings.elems : simpl never.

(** A call within the frame of [g] keeps the elements of every slice
    that is on another array or is no longer than [g]. *)
Lemma frame_keeps_elems (g : Slice) (σ σ' : Store.t) (o : option Slice) :
  frame g σ σ' → validOpt σ o →
  (∀ s, o = Some s → arr s = arr g → (len s ≤ len g)%nat) →
  elems σ' o = elems σ o.
Proof.
  intros [_ _ Hother _ Hel] Hv Hrel. destruct o as [s|]; [|done].
  destruct Hv as [Ha _]. unfold elems.
  destruct (decide (arr s = arr g)) as [Heq|Hne].
  - specialize (Hrel s eq_refl Heq).
    rewrite !(arrayOf_same_arr _ s g) by done.
    rewrite <- (Nat.min_l (len s) (len g)) by done.
    by rewrite <- !take_take, Hel.
  - unfold arrayOf. by rewrite Hother.
Qed.

Section repeat.
Variable StringWidth : string → Z.
Variable Quote : string → string.
Variable FormatTime : Z → string → string.
Variable FormatFloat : Z → string.
Variable FormatDuration : Z → string.
Variable FuncForPC : Z → option FuncInfo.t.
Variable slack : nat → nat → nat.
Variable World : Type.
Variable Write : Writer → string → World → World * option string.

#[local] Abbreviation writeAttrs := (Handler.writeAttrs Quote FormatTime FormatFloat FormatDuration slack).
#[local] Abbreviation writeRecordAttrs := (Handler.writeRecordAttrs Quote FormatTime FormatFloat FormatDuration slack).
#[local] Abbreviation handleGroups := (Handler.handleGroups slack).
#[local] Abbreviation renderHead := (Handler.renderHead StringWidth Quote FormatTime FormatFloat FormatDuration FuncForPC slack).
#[local] Abbreviation render := (Handler.render StringWidth Quote FormatTime FormatFloat FormatDuration FuncForPC slack).
#[local] Abbreviation Handle := (Handler.Handle StringWidth Quote FormatTime FormatFloat FormatDuration FuncForPC slack World Write).
#[local] Abbreviation writeTo := (Handler.writeTo World Write).
#[local] Abbreviation callerText := (Pure.callerText FuncForPC).
#[local] Abbreviation lineText := (Pure.lineText StringWidth Quote FormatTime FormatFloat FormatDuration FuncForPC).
#[local] Abbreviation cacheAfter := (CallerCache.after FuncForPC).

(** [append] of the elements of a slice to a slice of length zero keeps
    the elements of that slice, on whichever array it is. *)
Lemma append_zero_keeps (s : Slice) (o : option Slice) (σ : Store.t) :
  valid σ s → len s = O → validOpt σ o →
  elems (append slack (Some s) (elems σ o) σ).2 o = elems σ o
  ∧ ∀ g', (append slack (Some s) (elems σ o) σ).1 = Some g' → len g' = slen o.
Proof.
  intros [Harr Hcap] Hz Hv.
  pose proof (elems_length σ o Hv) as Hlen.
  unfold append. cbn [slen]. rewrite Hz. cbn [Nat.add].
  case_decide as Hfit; cbn [fst snd].
  - split; [|by intros g' [= <-]].
    destruct o as [so|]; [|done]. destruct Hv as [Hao Hlo].
    unfold elems at 1. unfold arrayOf. cbn [strArrays set_strArrays].
    destruct (decide (arr so = arr s)) as [Heq|Hne].
    + rewrite Heq, list_lookup_alter_eq.
      destruct (lookup_lt_is_Some_2 _ _ Harr) as [a Ha]. rewrite Ha. simpl.
      rewrite <- Hlen at 1. by rewrite take_app_length.
    + rewrite list_lookup_alter_ne by done. done.
  - cbn [Heap.alloc fst snd]. split; [|by intros g' [= <-]].
    destruct o as [so|]; [|done]. destruct Hv as [Hao Hlo].
    unfold elems at 1. unfold arrayOf. cbn [strArrays set_strArrays].
    by rewrite lookup_app_l.
Qed.

(** The local [groups] of [Handle] has the length of the groups of the
    handler, and building it keeps their elements. *)
Lemma handleGroups_keeps (h : CLIHandler.t) (σ : Store.t) :
  validOpt σ (CLIHandler.groups h) → validOpt σ (CLIHandler.groupsCache h) →
  ∃ g σ',
    handleGroups h σ = (Some g, σ')
    ∧ valid σ' g
    ∧ len g = slen (CLIHandler.groups h)
    ∧ elems σ' (Some g) = elems σ (CLIHandler.groups h)
    ∧ elems σ' (CLIHandler.groups h) = elems σ (CLIHandler.groups h)
    ∧ validOpt σ' (CLIHandler.groups h)
    ∧ σ' = set_strArrays (strArrays σ') σ.
Proof.
  intros Hg Hgc.
  destruct (handleGroups_spec slack h σ Hg Hgc) as (g & σ' & Hhg & Hv & He & Hr).
  pose proof (handleGroups_sizes slack h σ) as Hsz. rewrite Hhg in Hsz.
  exists g, σ'. split; [done|]. split; [done|].
  assert (Hkeep : len g = slen (CLIHandler.groups h)
                  ∧ elems σ' (CLIHandler.groups h) = elems σ (CLIHandler.groups h)).
  { revert Hhg. unfold Handler.handleGroups.
    destruct (CLIHandler.groupsCache h) as [gc|].
    - case_decide as Hn.
      + assert (Hv0 : valid σ (MkSlice (arr gc) 0)).
        { destruct Hgc as [Ha _]. split; simpl; [done | lia]. }
        destruct (append_zero_keeps (MkSlice (arr gc) 0) (CLIHandler.groups h) σ
                    Hv0 eq_refl Hg) as [K1 K2].
        intros Hhg. rewrite Hhg in K1, K2. simpl in *.
        split; [by apply K2 | done].
      + intros [= <- <-]. simpl. split; [lia | done].
    - unfold make. cbn [Heap.alloc fst snd].
      set (σ0 := set_strArrays (strArrays σ ++ [replicate (slen (CLIHandler.groups h)) ""]) σ).
      assert (He0 : elems σ0 (CLIHandler.groups h) = elems σ (CLIHandler.groups h)).
      { by apply (elems_grown σ σ0 [replicate (slen (CLIHandler.groups h)) ""]). }
      assert (Hg0 : validOpt σ0 (CLIHandler.groups h)).
      { by apply (valid_grown σ σ0 [replicate (slen (CLIHandler.groups h)) ""]). }
      case_decide as Hn.
      + assert (Hv0 : valid σ0 (MkSlice (length (strArrays σ)) 0)).
        { split; simpl; [rewrite length_app; simpl; lia | lia]. }
        destruct (append_zero_keeps (MkSlice (length (strArrays σ)) 0)
                    (CLIHandler.groups h) σ0 Hv0 eq_refl Hg0) as [K1 K2].
        intros Hhg. rewrite Hhg in K1, K2. simpl in *.
        split; [by apply K2 | by rewrite K1].
      + intros [= <- <-]. simpl. split; [lia | done]. }
  destruct Hkeep as [Hl Hk].
  split; [done|]. split; [done|]. split; [done|].
  split; [by eapply sizesKept_valid | done].
Qed.

(** [render] keeps the elements of the groups of the handler. *)
Lemma render_keeps_groups (h : CLIHandler.t) (r : Record.t) (ls : LevelStyle.t)
    (buf : string) (σ : Store.t) :
  validOpt σ (CLIHandler.groups h) → validOpt σ (CLIHandler.groupsCache h) →
  elems (render h r ls buf σ).2 (CLIHandler.groups h)
    = elems σ (CLIHandler.groups h).
Proof.
  intros Hg Hgc. unfold Handler.render, Handler.renderHead.
  pose proof (writeLevel_step StringWidth ls buf σ) as (_ & S1 & _).
  destruct (Handler.writeLevel StringWidth ls buf σ) as [buf1 σ1]. simpl in S1.
  match goal with
  | |- context [Handler.writeCallerPart _ h r ?c buf1 σ1] =>
      pose proof (writeCallerPart_step FuncForPC h r c buf1 σ1) as (_ & S2);
      destruct (Handler.writeCallerPart FuncForPC h r c buf1 σ1) as [buf2 σ2]
  end. simpl in S2.
  match goal with
  | |- context [Handler.writeLabel _ h ?l buf2 σ2] =>
      pose proof (writeLabel_step StringWidth h l buf2 σ2) as (_ & S3 & _);
      destruct (Handler.writeLabel StringWidth h l buf2 σ2) as [buf3 σ3]
  end. simpl in S3.
  assert (Hs : strArrays σ3 = strArrays σ) by congruence.
  assert (Hval : ∀ o, validOpt σ o → validOpt σ3 o).
  { intros [o|]; [|done]. unfold validOpt, valid, cap, arrayOf. by rewrite Hs. }
  assert (Hel : ∀ o, elems σ3 o = elems σ o).
  { intros [o|]; [|done]. unfold elems, arrayOf. by rewrite Hs. }
  destruct (handleGroups_keeps h σ3 (Hval _ Hg) (Hval _ Hgc))
    as (g & σ4 & -> & Hv4 & Hl4 & He4 & Hk4 & Hg4 & _).
  assert (Hrel : ∀ s, CLIHandler.groups h = Some s → arr s = arr g →
                      (len s ≤ len g)%nat).
  { intros s Hs' _. rewrite Hl4, Hs'. simpl. lia. }
  assert (∃ buf5 σ5,
            (if decide (0 < Color.blen (CLIHandler.attrsCache h))%nat
             then (writeTime FormatTime h r
                     (Style.Attr (StyleOps.readStyle σ (CLIHandler.style h)))
                     (buf3 +:+ Record.Message r)
                   +:+ Color.bytes (CLIHandler.attrsCache h), σ4)
             else writeAttrs (Some g) (CLIHandler.style h) (CLIHandler.timeLayout h)
                    (CLIHandler.attrs h)
                    (writeTime FormatTime h r
                       (Style.Attr (StyleOps.readStyle σ (CLIHandler.style h)))
                       (buf3 +:+ Record.Message r)) σ4) = (buf5, σ5)
            ∧ frame g σ4 σ5)
    as (buf5 & σ5 & -> & F5).
  { case_decide.
    - eexists _, _. split; [done | apply frame_refl].
    - destruct (writeAttrs_spec Quote FormatTime FormatFloat FormatDuration slack
                  g (CLIHandler.style h) (CLIHandler.timeLayout h) (CLIHandler.attrs h)
                  (writeTime FormatTime h r
                     (Style.Attr (StyleOps.readStyle σ (CLIHandler.style h)))
                     (buf3 +:+ Record.Message r)) σ4 Hv4) as (σ5 & -> & F5).
      by eexists _, _. }
  destruct (writeRecordAttrs_spec Quote FormatTime FormatFloat FormatDuration slack
              h g (Record.attrs r) buf5 σ5 (frame_valid _ _ _ F5 Hv4))
    as (σ6 & -> & F6).
  cbn [fst snd].
  assert (F : frame g σ4 σ6).
  { destruct Hv4. by eapply frame_trans. }
  rewrite (frame_keeps_elems g σ4 σ6 _ F Hg4 Hrel).
  by rewrite Hk4, Hel.
Qed.

(** The caller caches after [writeCallerPart], [render] and [Handle]. *)
Lemma writeCallerPart_cache (h : CLIHandler.t) (r : Record.t)
    (caller : CallerStyle.t) (buf : string) (σ : Store.t) :
  pcCaches (Handler.writeCallerPart FuncForPC h r caller buf σ).2
    = cacheAfter h (Record.PC r) caller (pcCaches σ).
Proof.
  unfold Handler.writeCallerPart, CallerCache.after, pcCacheOf, CallerCache.entry.
  repeat (case_match || case_decide); simpl; done.
Qed.

Lemma render_cache (h : CLIHandler.t) (r : Record.t) (ls : LevelStyle.t)
    (buf : string) (σ : Store.t) :
  pcCaches (render h r ls buf σ).2
    = cacheAfter h (Record.PC r)
        (Style.Caller (StyleOps.readStyle σ (CLIHandler.style h))) (pcCaches σ).
Proof.
  unfold Handler.render, Handler.renderHead.
  pose proof (writeLevel_step StringWidth ls buf σ) as (_ & _ & P1).
  destruct (Handler.writeLevel StringWidth ls buf σ) as [buf1 σ1]. simpl in P1.
  pose proof (writeCallerPart_cache h r
                (Style.Caller (StyleOps.readStyle σ (CLIHandler.style h))) buf1 σ1) as P2.
  destruct (Handler.writeCallerPart FuncForPC h r _ buf1 σ1) as [buf2 σ2].
  simpl in P2.
  match goal with
  | |- context [Handler.writeLabel _ h ?l buf2 σ2] =>
      pose proof (writeLabel_step StringWidth h l buf2 σ2) as (_ & _ & P3);
      destruct (Handler.writeLabel StringWidth h l buf2 σ2) as [buf3 σ3]
  end. simpl in P3.
  pose proof (handleGroups_strStep slack h σ3) as P4.
  destruct (handleGroups h σ3) as [groups σ4]. simpl in P4.
  assert (P5 : ∃ buf5 σ5,
            (if decide (0 < Color.blen (CLIHandler.attrsCache h))%nat
             then (writeTime FormatTime h r
                     (Style.Attr (StyleOps.readStyle σ (CLIHandler.style h)))
                     (buf3 +:+ Record.Message r)
                   +:+ Color.bytes (CLIHandler.attrsCache h), σ4)
             else writeAttrs groups (CLIHandler.style h) (CLIHandler.timeLayout h)
                    (CLIHandler.attrs h)
                    (writeTime FormatTime h r
                       (Style.Attr (StyleOps.readStyle σ (CLIHandler.style h)))
                       (buf3 +:+ Record.Message r)) σ4) = (buf5, σ5)
            ∧ pcCaches σ5 = pcCaches σ4).
  { case_decide; [by eexists _, _|].
    match goal with
    | |- context [Handler.writeAttrs _ _ _ _ _ groups ?st ?tl ?as' ?b σ4] =>
        pose proof (writeAttrs_strStep Quote FormatTime FormatFloat FormatDuration
                      slack groups st tl as' b σ4) as Q;
        destruct (writeAttrs groups st tl as' b σ4) as [buf5 σ5]
    end.
    exists buf5, σ5. split; [done|]. simpl in Q. by rewrite Q. }
  destruct P5 as (buf5 & σ5 & -> & P5).
  pose proof (writeRecordAttrs_strStep Quote FormatTime FormatFloat FormatDuration
                slack h groups (Record.attrs r) buf5 σ5) as P6.
  destruct (writeRecordAttrs h groups (Record.attrs r) buf5 σ5) as [buf6 σ6].
  cbn [fst snd] in *. rewrite P6. simpl. rewrite P5, P4. simpl.
  by rewrite P3, P2, P1.
Qed.

(** The two outcomes of the cache update of [Handle]. *)
Lemma after_cases (h : CLIHandler.t) (pc : Z) (caller : CallerStyle.t)
    (pcs : list (gmap Z string)) :
  cacheAfter h pc caller pcs = pcs
  ∨ ∃ f, CLIHandler.hasCaller h = true ∧ pc ≠ 0
         ∧ default ∅ (pcs !! CLIHandler.pcCache h) !! pc = None
         ∧ FuncForPC pc = Some f ∧ FuncInfo.File f ≠ ""
         ∧ cacheAfter h pc caller pcs
           = alter (insert pc (CallerCache.entry caller f)) (CLIHandler.pcCache h) pcs.
Proof.
  unfold CallerCache.after.
  destruct (CLIHandler.hasCaller h); [|by left].
  destruct (decide (pc = 0)) as [Hz|Hz].
  { rewrite bool_decide_eq_false_2 by (by intros H). by left. }
  rewrite bool_decide_eq_true_2 by done. simpl.
  destruct (default ∅ (pcs !! CLIHandler.pcCache h) !! pc) eqn:Hb; [by left|].
  destruct (FuncForPC pc) as [f|] eqn:Hf; [|by left].
  destruct (decide (FuncInfo.File f ≠ "")) as [Hfile|Hfile]; [|by left].
  right. by exists f.
Qed.

(** What is written for the caller of any record is the same from the
    caches after a record was handled as from the caches before. *)
Lemma callerText_after (h : CLIHandler.t) (pc : Z) (st : Style.t)
    (pcs : list (gmap Z string)) (r2 : Record.t) (buf : string) :
  callerText h r2 st
    (default ∅ (cacheAfter h pc (Style.Caller st) pcs !! CLIHandler.pcCache h)) buf
  = callerText h r2 st (default ∅ (pcs !! CLIHandler.pcCache h)) buf.
Proof.
  unfold CallerCache.after.
  destruct (CLIHandler.hasCaller h && bool_decide (pc ≠ 0)) eqn:Hon; [|done].
  destruct (default ∅ (pcs !! CLIHandler.pcCache h) !! pc) as [b|] eqn:Hb; [done|].
  destruct (FuncForPC pc) as [f|] eqn:Hf; [|done].
  destruct (decide (FuncInfo.File f ≠ "")) as [Hfile|Hfile]; [|done].
  rewrite list_lookup_alter_eq.
  destruct (pcs !! CLIHandler.pcCache h) as [m|] eqn:Hm; [|done]. simpl in *.
  unfold Pure.callerText.
  destruct (CLIHandler.hasCaller h && bool_decide (Record.PC r2 ≠ 0)); [|done].
  destruct (decide (Record.PC r2 = pc)) as [->|Hne].
  - rewrite lookup_insert_eq, Hb, Hf. by rewrite decide_True.
  - by rewrite lookup_insert_ne.
Qed.

Lemma lineText_caller (h : CLIHandler.t) (r : Record.t) (ls : LevelStyle.t)
    (st : Style.t) (pcs pcs' : gmap Z string) (gs : list string) :
  (∀ buf, callerText h r st pcs' buf = callerText h r st pcs buf) →
  lineText h r ls st pcs' gs = lineText h r ls st pcs gs.
Proof.
  intros Hc. unfold Pure.lineText, Pure.headText. by rewrite Hc.
Qed.

(** The store after [Handle] of a record of a classified level. *)
Lemma Handle_store (h : CLIHandler.t) (r : Record.t) (σ : Store.t) (ω : World) :
  validOpt σ (CLIHandler.groups h) → validOpt σ (CLIHandler.groupsCache h) →
  let σ1 := (Handle h r σ ω).1.2 in
  quiet σ σ1
  ∧ sizesKept σ σ1
  ∧ elems σ1 (CLIHandler.groups h) = elems σ (CLIHandler.groups h)
  ∧ (pcCaches σ1 = pcCaches σ
     ∨ pcCaches σ1
       = cacheAfter h (Record.PC r)
           (Style.Caller (StyleOps.readStyle σ (CLIHandler.style h))) (pcCaches σ)).
Proof.
  intros Hg Hgc σ1. subst σ1.
  destruct (levelStyleFor σ
              (Style.Level (StyleOps.readStyle σ (CLIHandler.style h)))
              (Record.Level r)) as [ls|] eqn:Hls.
  - rewrite (Handle_classified StringWidth Quote FormatTime FormatFloat
               FormatDuration FuncForPC slack World Write h r σ ω ls Hls).
    cbn [fst snd].
    assert (Hsame : strArrays (poolGet σ).2 = strArrays σ
                    ∧ styles (poolGet σ).2 = styles σ
                    ∧ pcCaches (poolGet σ).2 = pcCaches σ).
    { unfold poolGet. by destruct (poolFree σ). }
    destruct Hsame as (Hs & Hst & Hpc).
    assert (Hel : ∀ o, elems (poolGet σ).2 o = elems σ o).
    { intros [o|]; [|done]. unfold elems, arrayOf. by rewrite Hs. }
    assert (Hval : ∀ o, validOpt σ o → validOpt (poolGet σ).2 o).
    { intros [o|]; [|done]. unfold validOpt, valid, cap, arrayOf. by rewrite Hs. }
    split; [by apply (Handle_quiet StringWidth Quote FormatTime FormatFloat
                        FormatDuration FuncForPC slack World h r σ ω ls)|].
    split.
    { eapply sizesKept_trans; [|apply sizesKept_same; reflexivity].
      eapply sizesKept_trans; [|apply render_sizes]. by apply sizesKept_same. }
    split.
    { change (elems (poolPut "" ?s) ?o) with (elems s o).
      rewrite render_keeps_groups by auto. apply Hel. }
    right. change (pcCaches (poolPut "" ?s)) with (pcCaches s).
    rewrite render_cache. unfold StyleOps.readStyle. by rewrite Hst, Hpc.
  - unfold Handler.Handle. rewrite Hls. cbn [fst snd].
    split; [apply quiet_refl|]. split; [apply sizesKept_refl|]. split; [done|].
    by left.
Qed.

(** X16. Handling a record does not change what the same handler writes
    afterwards. After [Handle] through a handler, in an orderly pool,
    the styles, level maps and handler objects are as before, no string
    array has changed its size, the pool is orderly again, and the group
    names of the handler are the same; [Handle] of any record through
    that handler then returns and writes what it would have returned and
    written before. In particular a line can be written again and again:
    an entry the first call adds to the caller cache is the text a later
    call would compute. *)
Theorem Handle_leaves_output (h : CLIHandler.t) (r : Record.t) (σ : Store.t)
    (ω : World) :
  validOpt σ (CLIHandler.groups h) → validOpt σ (CLIHandler.groupsCache h) →
  poolClean σ →
  let σ1 := (Handle h r σ ω).1.2 in
  quiet σ σ1
  ∧ poolClean σ1
  ∧ validOpt σ1 (CLIHandler.groups h) ∧ validOpt σ1 (CLIHandler.groupsCache h)
  ∧ elems σ1 (CLIHandler.groups h) = elems σ (CLIHandler.groups h)
  ∧ ∀ (r2 : Record.t) (ω2 : World),
      (Handle h r2 σ1 ω2).1.1 = (Handle h r2 σ ω2).1.1
      ∧ (Handle h r2 σ1 ω2).2 = (Handle h r2 σ ω2).2.
Proof.
  intros Hg Hgc Hc σ1.
  destruct (Handle_store h r σ ω Hg Hgc) as (Q & Sz & Eg & Hpc). fold σ1 in Q, Sz, Eg, Hpc.
  pose proof (sizesKept_valid σ σ1 _ Sz Hg) as Vg.
  pose proof (sizesKept_valid σ σ1 _ Sz Hgc) as Vgc.
  pose proof (quiet_poolClean _ _ Q Hc) as Hc1.
  split; [done|]. split; [done|]. split; [done|]. split; [done|]. split; [done|].
  intros r2 ω2.
  destruct Q as [Elm Est _ _ _ _].
  assert (Hst : StyleOps.readStyle σ1 (CLIHandler.style h)
                = StyleOps.readStyle σ (CLIHandler.style h)).
  { unfold StyleOps.readStyle. by rewrite Est. }
  assert (Hlv : ∀ l, levelStyleFor σ1 (Style.Level (StyleOps.readStyle σ1 (CLIHandler.style h))) l
                = levelStyleFor σ (Style.Level (StyleOps.readStyle σ (CLIHandler.style h))) l).
  { intros l. rewrite Hst.
    unfold levelStyleFor, StyleOps.levelAt, StyleOps.levelMapOf. by rewrite Elm. }
  destruct (levelStyleFor σ (Style.Level (StyleOps.readStyle σ (CLIHandler.style h)))
              (Record.Level r2)) as [ls|] eqn:Hls.
  - destruct (Handle_text StringWidth Quote FormatTime FormatFloat
                FormatDuration FuncForPC slack World Write h r2 σ ω2 ls Hg Hgc Hc Hls)
      as (σa & ->).
    rewrite <- Hlv in Hls.
    destruct (Handle_text StringWidth Quote FormatTime FormatFloat
                FormatDuration FuncForPC slack World Write h r2 σ1 ω2 ls Vg Vgc Hc1 Hls)
      as (σb & ->).
    cbn [fst snd]. rewrite Hst, Eg.
    assert (Hline : lineText h r2 ls (StyleOps.readStyle σ (CLIHandler.style h))
                      (pcCacheOf σ1 (CLIHandler.pcCache h))
                      (elems σ (CLIHandler.groups h))
                    = lineText h r2 ls (StyleOps.readStyle σ (CLIHandler.style h))
                        (pcCacheOf σ (CLIHandler.pcCache h))
                        (elems σ (CLIHandler.groups h))).
    { apply lineText_caller. intros buf. unfold pcCacheOf.
      destruct Hpc as [-> | ->]; [done|]. apply callerText_after. }
    by rewrite Hline.
  - unfold Handler.Handle. rewrite Hlv, Hls. done.
Qed.

(** X17. [Handle] changes the caller caches by at most one entry. It
    adds one, for the program counter of the record in the cache of the
    handler, when the caller is switched on, the counter is not zero and
    has no entry yet, and the call site resolves to a function with a
    file name: the entry is the function name, or the file name under
    [Fullpath], a colon and the line. In every other case, and for a
    record of an unknown level, the caches stay as they are. An entry
    that exists is never replaced, also when it differs from what the
    call site resolves to, and it is what is written for the caller. *)
Theorem Handle_caller_cache (h : CLIHandler.t) (r : Record.t) (σ : Store.t)
    (ω : World) :
  let st := StyleOps.readStyle σ (CLIHandler.style h) in
  let c := CLIHandler.pcCache h in
  let pc := Record.PC r in
  let σ1 := (Handle h r σ ω).1.2 in
  (classified (Record.Level r) →
     pcCaches σ1 = cacheAfter h pc (Style.Caller st) (pcCaches σ))
  ∧ (¬ classified (Record.Level r) → pcCaches σ1 = pcCaches σ)
  ∧ (∀ c', c' ≠ c → pcCacheOf σ1 c' = pcCacheOf σ c')
  ∧ (∀ k, k ≠ pc → pcCacheOf σ1 c !! k = pcCacheOf σ c !! k)
  ∧ (∀ b, pcCacheOf σ c !! pc = Some b → pcCacheOf σ1 c !! pc = Some b)
  ∧ (CLIHandler.hasCaller h = false ∨ pc = 0 → pcCaches σ1 = pcCaches σ)
  ∧ (FuncForPC pc = None → pcCaches σ1 = pcCaches σ)
  ∧ (∀ f, FuncForPC pc = Some f → FuncInfo.File f = "" → pcCaches σ1 = pcCaches σ)
  ∧ (∀ f m, classified (Record.Level r) →
       CLIHandler.hasCaller h = true → pc ≠ 0 →
       pcCaches σ !! c = Some m → m !! pc = None →
       FuncForPC pc = Some f → FuncInfo.File f ≠ "" →
       pcCacheOf σ1 c !! pc = Some (CallerCache.entry (Style.Caller st) f))
  ∧ (∀ b buf, CLIHandler.hasCaller h = true → pc ≠ 0 →
       pcCacheOf σ c !! pc = Some b →
       callerText h r st (pcCacheOf σ c) buf = writeCaller buf b st).
Proof.
  intros st c pc σ1.
  assert (Hcls : classified (Record.Level r) →
            pcCaches σ1 = cacheAfter h pc (Style.Caller st) (pcCaches σ)).
  { intros Hc.
    destruct (levelStyleFor_Some σ (Style.Level st) _ Hc) as [ls Hls].
    unfold σ1.
    rewrite (Handle_classified StringWidth Quote FormatTime FormatFloat
               FormatDuration FuncForPC slack World Write h r σ ω ls Hls).
    cbn [fst snd]. change (pcCaches (poolPut "" ?s)) with (pcCaches s).
    rewrite render_cache.
    assert (Hsame : styles (poolGet σ).2 = styles σ
                    ∧ pcCaches (poolGet σ).2 = pcCaches σ).
    { unfold poolGet. by destruct (poolFree σ). }
    destruct Hsame as [Hst Hpc]. unfold StyleOps.readStyle. by rewrite Hst, Hpc. }
  assert (Hunk : ¬ classified (Record.Level r) → pcCaches σ1 = pcCaches σ).
  { intros Hn. unfold σ1, Handler.Handle.
    by rewrite (proj2 (levelStyleFor_None σ _ _) Hn). }
  assert (Hor : pcCaches σ1 = pcCaches σ
                ∨ pcCaches σ1 = cacheAfter h pc (Style.Caller st) (pcCaches σ)).
  { destruct (decide (classified (Record.Level r))); auto. }
  assert (Hafter : ∀ (P : list (gmap Z string) → Prop),
            P (pcCaches σ) →
            P (cacheAfter h pc (Style.Caller st) (pcCaches σ)) →
            P (pcCaches σ1)).
  { intros P H1 H2. by destruct Hor as [-> | ->]. }
  split; [exact Hcls|]. split; [exact Hunk|].
  split.
  { intros c' Hne. unfold pcCacheOf.
    apply (Hafter (λ x, default ∅ (x !! c') = default ∅ (pcCaches σ !! c'))); [done|].
    destruct (after_cases h pc (Style.Caller st) (pcCaches σ))
      as [-> | (f & _ & _ & _ & _ & _ & ->)]; [done|].
    by rewrite list_lookup_alter_ne. }
  split.
  { intros k Hne. unfold pcCacheOf.
    apply (Hafter (λ x, default ∅ (x !! c) !! k = default ∅ (pcCaches σ !! c) !! k));
      [done|].
    destruct (after_cases h pc (Style.Caller st) (pcCaches σ))
      as [-> | (f & _ & _ & _ & _ & _ & ->)]; [done|].
    rewrite list_lookup_alter_eq. fold c.
    destruct (pcCaches σ !! c); [|done]. simpl. by rewrite lookup_insert_ne. }
  split.
  { intros b Hb. unfold pcCacheOf in *.
    apply (Hafter (λ x, default ∅ (x !! c) !! pc = Some b)); [done|].
    destruct (after_cases h pc (Style.Caller st) (pcCaches σ))
      as [-> | (f & _ & _ & Hmiss & _)]; [done|].
    fold c in Hmiss. congruence. }
  split.
  { intros Hoff.
    apply (Hafter (λ x, x = pcCaches σ)); [done|].
    destruct (after_cases h pc (Style.Caller st) (pcCaches σ))
      as [-> | (f & Hon & Hpc & _)]; [done|].
    destruct Hoff; congruence. }
  split.
  { intros Hf. apply (Hafter (λ x, x = pcCaches σ)); [done|].
    destruct (after_cases h pc (Style.Caller st) (pcCaches σ))
      as [-> | (f & _ & _ & _ & Hf' & _)]; [done|]. congruence. }
  split.
  { intros f Hf Hfile. apply (Hafter (λ x, x = pcCaches σ)); [done|].
    destruct (after_cases h pc (Style.Caller st) (pcCaches σ))
      as [-> | (f' & _ & _ & _ & Hf' & Hfile' & _)]; [done|]. congruence. }
  split.
  { intros f m Hc Hon Hpc Hm Hmiss Hf Hfile. unfold pcCacheOf.
    rewrite (Hcls Hc). unfold CallerCache.after. fold c.
    rewrite Hon, bool_decide_eq_true_2 by done. simpl.
    rewrite Hm. simpl. rewrite Hmiss, Hf. rewrite decide_True by done.
    rewrite list_lookup_alter_eq, Hm. simpl. by rewrite lookup_insert_eq. }
  intros b buf Hon Hpc Hb. unfold Pure.callerText. fold pc.
  rewrite Hon, bool_decide_eq_true_2 by done. simpl. by rewrite Hb.
Qed.

End repeat.

Lemma Handle_leaves_output_witness :
  let h := Scenario.handlerAt Scenario.tracing O in
  let σ1 := (Demo.Handle h Scenario.traced Scenario.tracing []).1.2 in
  (Demo.Handle h Scenario.traced Scenario.tracing []).2
    = [(Other 1, "[INF] <main.main:42> login" +:+ String Handler.newline "")]
  ∧ (Demo.Handle h Scenario.traced σ1 []).2
    = [(Other 1, "[INF] <main.main:42> login" +:+ String Handler.newline "")]
  ∧ pcCacheOf Scenario.tracing (CLIHandler.pcCache h) !! 4096 = None
  ∧ pcCacheOf σ1 (CLIHandler.pcCache h) !! 4096 = Some "main.main:42".
Proof.
  intros h σ1.
  pose proof (Handle_leaves_output Demo.StringWidth Demo.Quote Demo.FormatTime
                Demo.FormatFloat Demo.FormatDuration Demo.FuncForPC Demo.slack
                Demo.World Demo.Write h Scenario.traced Scenario.tracing []) as H.
  cbv zeta in H.
  destruct H as (_ & _ & _ & _ & _ & H); [done | done | by vm_compute |].
  destruct (H Scenario.traced []) as [_ H2].
  split; [vm_compute; reflexivity|].
  split; [etrans; [exact H2 | vm_compute; reflexivity]|].
  split; vm_compute; reflexivity.
Defined.

Lemma Handle_caller_cache_witness :
  let h := Scenario.handlerAt Scenario.tracing O in
  let σ1 := (Demo.Handle h Scenario.traced Scenario.tracing []).1.2 in
  pcCacheOf σ1 (CLIHandler.pcCache h) !! 4096 = Some "main.main:42".
Proof.
  intros h σ1.
  pose proof (Handle_caller_cache Demo.StringWidth Demo.Quote Demo.FormatTime
                Demo.FormatFloat Demo.FormatDuration Demo.FuncForPC Demo.slack
                Demo.World Demo.Write h Scenario.traced Scenario.tracing []) as H.
  cbv zeta in H.
  destruct H as (_ & _ & _ & _ & _ & _ & _ & _ & H & _).
  etrans;
    [apply (H {| FuncInfo.Name := "main.main"; FuncInfo.File := "/app/main.go";
                 FuncInfo.Line := 42 |} ∅)
    | vm_compute; reflexivity].
  all: try (vm_compute; reflexivity).
  all: try (vm_compute; congruence).
  right; left; vm_compute; reflexivity.
Defined.

End RepeatFacts.

(** ** log.go and integrations/awssdk/log.go: the loggers *)

Module LoggerFacts.
Import Store Inv Handler Logger HandleFacts.

Section logger.
Variable StringWidth : string → Z.
Variable Quote : string → string.
Variable FormatTime : Z → string → string.
Variable FormatFloat : Z → string.
Variable FormatDuration : Z → string.
Variable FuncForPC : Z → option FuncInfo.t.
Variable slack : nat → nat → nat.
Variable World : Type.
Variable Write : Writer → string → World → World * option string.
Variable Any : Type.
Variable Sprintf : string → list Any → string.
Variable ClassDebug : string.
Variable ClassWarn : string.

#[local] Abbreviation Handle := (Handler.Handle StringWidth Quote FormatTime FormatFloat FormatDuration FuncForPC slack World Write).
#[local] Abbreviation log := (Logger.log StringWidth Quote FormatTime FormatFloat FormatDuration FuncForPC slack World Write).
#[local] Abbreviation Logf := (Logger.Logf StringWidth Quote FormatTime FormatFloat FormatDuration FuncForPC slack World Write Any Sprintf ClassDebug ClassWarn).

(** [Logf] is the method of the level of the classification. *)
Lemma Logf_log (l : Logger.t) (classification format : string) (v : list Any)
    (now pc : Z) (σ : Store.t) (ω : World) :
  Logf l classification format v now pc σ ω
  = log l (if decide (classification = ClassDebug) then LevelDebug
           else if decide (classification = ClassWarn) then LevelWarn
           else LevelInfo) (Sprintf format v) now pc σ ω.
Proof. unfold Logger.Logf. by repeat case_decide. Qed.

(** A handler on the discarding writer leaves the world alone. *)
Lemma Handle_discard_world (h : CLIHandler.t) (r : Record.t) (σ : Store.t)
    (ω : World) :
  CLIHandler.w h = Discard → (Handle h r σ ω).2 = ω.
Proof.
  intros Hw.
  destruct (levelStyleFor σ
              (Style.Level (StyleOps.readStyle σ (CLIHandler.style h)))
              (Record.Level r)) as [ls|] eqn:Hls.
  - rewrite (Handle_classified StringWidth Quote FormatTime FormatFloat
               FormatDuration FuncForPC slack World Write h r σ ω ls Hls).
    rewrite Hw. unfold Handler.writeTo. cbn [fst snd]. by case_decide.
  - unfold Handler.Handle. by rewrite Hls.
Qed.

Lemma log_discard (l : Logger.t) (h : CLIHandler.t) (level : Level)
    (msg : string) (now pc : Z) (σ : Store.t) (ω : World) :
  handlers σ !! handler l = Some h → CLIHandler.w h = Discard →
  ∃ σ', log l level msg now pc σ ω = Some (σ', ω).
Proof.
  intros Hh Hw. unfold Logger.log. rewrite Hh. simpl.
  destruct (Enabled h level); [|by eexists].
  match goal with
  | |- context [Handler.Handle _ _ _ _ _ _ _ _ _ h ?r σ ω] =>
      pose proof (Handle_discard_world h r σ ω Hw) as Hω;
      destruct (Handle h r σ ω) as [[e σ'] ω']
  end.
  simpl in Hω. subst ω'. by eexists.
Qed.

(** X18. [NewLogger], of either package, on a nil handler makes a
    handler of its own on the discarding writer, with the level info;
    whatever is logged through that logger, at any level and with any
    classification, no writer is ever called: the call returns and the
    world is as before. On a handler that is given, the logger is that
    handler and the store is not touched. *)
Theorem NewLogger_nil_discards (σ : Store.t) :
  let l := (NewLogger None σ).1 in
  let σ1 := (NewLogger None σ).2 in
  handler l = length (handlers σ)
  ∧ (∃ h, handlers σ1 !! handler l = Some h
          ∧ CLIHandler.w h = Discard
          ∧ CLIHandler.level h = Some LevelInfo)
  ∧ (∀ p, p ≠ handler l → handlers σ1 !! p = handlers σ !! p)
  ∧ (∀ level msg now pc ω, ∃ σ2, log l level msg now pc σ1 ω = Some (σ2, ω))
  ∧ (∀ classification format v now pc ω,
       ∃ σ2, Logf l classification format v now pc σ1 ω = Some (σ2, ω))
  ∧ ∀ p, NewLogger (Some p) σ = (Logger.Mk p, σ).
Proof.
  intros l σ1.
  assert (Hl : handler l = length (handlers σ)) by done.
  assert (Hhs : handlers σ1
                = handlers σ
                  ++ [{| CLIHandler.w := Discard;
                         CLIHandler.mu := mutexes σ;
                         CLIHandler.level := Some LevelInfo;
                         CLIHandler.prefix := "";
                         CLIHandler.attrs := [];
                         CLIHandler.attrsCache := None;
                         CLIHandler.attrHandler := None;
                         CLIHandler.groups := None;
                         CLIHandler.groupsCache := None;
                         CLIHandler.pcCache := length (pcCaches σ);
                         CLIHandler.hasCaller := false;
                         CLIHandler.hasTime := false;
                         CLIHandler.timeLayout := RFC3339;
                         CLIHandler.style := length (styles σ) |}]) by done.
  assert (Hh : ∃ h, handlers σ1 !! handler l = Some h
                    ∧ CLIHandler.w h = Discard
                    ∧ CLIHandler.level h = Some LevelInfo).
  { eexists. rewrite Hhs, Hl. split; [by apply list_lookup_middle | done]. }
  split; [done|]. split; [done|].
  split.
  { intros p Hp. rewrite Hhs. rewrite Hl in Hp.
    destruct (decide (p < length (handlers σ))%nat).
    - by rewrite lookup_app_l.
    - rewrite lookup_ge_None_2 by (rewrite length_app; simpl; lia).
      symmetry. apply lookup_ge_None_2. lia. }
  destruct Hh as (h & Hh & Hw & _).
  split; [intros; by eapply log_discard|].
  split; [|done].
  intros. rewrite Logf_log. by eapply log_discard.
Qed.

(** X19. [Logf] through a handler whose level lies above debug and not
    above info, as the default does: a message classified as debug
    changes neither the store nor the world; a message of any other
    classification is formatted and handed to [Handle] once, as a record
    without attributes at the level warn for the classification warn and
    at the level info for every other one, and the error of [Handle] is
    dropped. *)
Theorem Logf_default_threshold (l : Logger.t) (h : CLIHandler.t)
    (threshold : Level) (classification format : string) (v : list Any)
    (now pc : Z) (σ : Store.t) (ω : World) :
  handlers σ !! handler l = Some h →
  CLIHandler.level h = Some threshold →
  LevelDebug < threshold ≤ LevelInfo →
  let r level :=
    {| Record.Time := now; Record.Message := Sprintf format v;
       Record.Level := level; Record.PC := pc; Record.attrs := [] |} in
  (classification = ClassDebug →
     Logf l classification format v now pc σ ω = Some (σ, ω))
  ∧ (classification ≠ ClassDebug → classification = ClassWarn →
     Logf l classification format v now pc σ ω
     = Some ((Handle h (r LevelWarn) σ ω).1.2, (Handle h (r LevelWarn) σ ω).2))
  ∧ (classification ≠ ClassDebug → classification ≠ ClassWarn →
     Logf l classification format v now pc σ ω
     = Some ((Handle h (r LevelInfo) σ ω).1.2, (Handle h (r LevelInfo) σ ω).2)).
Proof.
  intros Hh Ht Hrange r.
  assert (Hlog : ∀ level,
            log l level (Sprintf format v) now pc σ ω
            = if bool_decide (threshold ≤ level)
              then Some ((Handle h (r level) σ ω).1.2, (Handle h (r level) σ ω).2)
              else Some (σ, ω)).
  { intros level. unfold Logger.log. rewrite Hh. simpl.
    unfold Enabled. rewrite Ht.
    case_bool_decide; [|done]. fold (r level).
    by destruct (Handle h (r level) σ ω) as [[e σ'] ω']. }
  rewrite Logf_log, Hlog. unfold LevelDebug, LevelInfo, LevelWarn in *.
  split; [|split].
  - intros ->. rewrite decide_True by done.
    rewrite bool_decide_eq_false_2 by lia. done.
  - intros Hd Hw. rewrite decide_False, decide_True by done.
    rewrite bool_decide_eq_true_2 by lia. done.
  - intros Hd Hw. rewrite !decide_False by done.
    rewrite bool_decide_eq_true_2 by lia. done.
Qed.

End logger.

Lemma Logf_default_threshold_witness :
  let l := Logger.Mk O in
  let Logf c :=
    Logger.Logf Demo.StringWidth Demo.Quote Demo.FormatTime Demo.FormatFloat
      Demo.FormatDuration Demo.FuncForPC Demo.slack Demo.World Demo.Write
      string (λ f _, f) "DEBUG" "WARN" l c "login" [] 0 0 Scenario.base [] in
  Logf "DEBUG" = Some (Scenario.base, [])
  ∧ snd <$> Logf "WARN"
    = Some [(Other 1, "[WRN] login" +:+ String Handler.newline "")]
  ∧ snd <$> Logf "INFO"
    = Some [(Other 1, "[INF] login" +:+ String Handler.newline "")].
Proof.
  intros l Logf.
  pose proof (λ c, Logf_default_threshold Demo.StringWidth Demo.Quote
                Demo.FormatTime Demo.FormatFloat Demo.FormatDuration
                Demo.FuncForPC Demo.slack Demo.World Demo.Write string
                (λ f _, f) "DEBUG" "WARN" l (Scenario.handlerAt Scenario.base O)
                LevelInfo c "login" [] 0 0 Scenario.base []
                eq_refl eq_refl (conj eq_refl (Z.le_refl _))) as H.
  cbv zeta in H.
  split; [exact (proj1 (H "DEBUG") eq_refl)|].
  split.
  - unfold Logf. rewrite (proj1 (proj2 (H "WARN"))) by done.
    vm_compute. reflexivity.
  - unfold Logf. rewrite (proj2 (proj2 (H "INFO"))) by done.
    vm_compute. reflexivity.
Defined.

End LoggerFacts.

(** ** handler.go: the one write of [Handle], and the threshold *)

Module WriteFacts.
Import Store Strings Inv Handler HandleFacts Derived.

Section write.
Variable StringWidth : string → Z.
Variable Quote : string → string.
Variable FormatTime : Z → string → string.
Variable FormatFloat : Z → string.
Variable FormatDuration : Z → string.
Variable FuncForPC : Z → option FuncInfo.t.
Variable slack : nat → nat → nat.
Variable World : Type.
Variable Write : Writer → string → World → World * option string.

#[local] Abbreviation Handle := (Handler.Handle StringWidth Quote FormatTime FormatFloat FormatDuration FuncForPC slack World Write).
#[local] Abbreviation lineText := (Pure.lineText StringWidth Quote FormatTime FormatFloat FormatDuration FuncForPC).

Lemma length_app_newline (s : string) :
  (0 < String.length (s +:+ String newline ""))%nat.
Proof. induction s as [|c s IH]; simpl; lia. Qed.

(** X20. For a record of a classified level [Handle] calls the writer of
    the handler exactly once, with the whole line, which ends in a
    newline and so is never empty; the world after [Handle] is the one
    that call leaves and the error of [Handle] is the error of that call.
    The store after [Handle] is the same whatever the writer does and
    whatever the world is: a failed write leaves the handler as a
    successful one does. *)
Theorem Handle_one_write (h : CLIHandler.t) (r : Record.t) (σ : Store.t)
    (ω : World) (ls : LevelStyle.t) :
  validOpt σ (CLIHandler.groups h) → validOpt σ (CLIHandler.groupsCache h) →
  poolClean σ →
  levelStyleFor σ (Style.Level (StyleOps.readStyle σ (CLIHandler.style h)))
    (Record.Level r) = Some ls →
  CLIHandler.w h ≠ Discard →
  let line :=
    lineText h r ls (StyleOps.readStyle σ (CLIHandler.style h))
      (pcCacheOf σ (CLIHandler.pcCache h)) (elems σ (CLIHandler.groups h)) in
  (∃ body, line = body +:+ String newline "")
  ∧ (Handle h r σ ω).2 = (Write (CLIHandler.w h) line ω).1
  ∧ (Handle h r σ ω).1.1 = ErrWrite <$> (Write (CLIHandler.w h) line ω).2
  ∧ ∀ (Write' : Writer → string → World → World * option string) (ω' : World),
      (Handler.Handle StringWidth Quote FormatTime FormatFloat FormatDuration
         FuncForPC slack World Write' h r σ ω').1.2
      = (Handle h r σ ω).1.2.
Proof.
  intros Hg Hgc Hc Hls Hw line.
  assert (Hline : ∃ body, line = body +:+ String newline "").
  { unfold line, Pure.lineText. eexists. symmetry. apply StrFacts.app_assoc. }
  split; [done|].
  assert (Hto : writeTo World Write (CLIHandler.w h) line ω
                = Write (CLIHandler.w h) line ω).
  { unfold writeTo. destruct Hline as [body ->].
    rewrite decide_True by apply length_app_newline.
    by destruct (CLIHandler.w h). }
  destruct (Handle_text StringWidth Quote FormatTime FormatFloat FormatDuration
              FuncForPC slack World Write h r σ ω ls Hg Hgc Hc Hls) as (σ' & HH).
  fold line in HH. rewrite Hto in HH.
  split; [by rewrite HH|]. split; [by rewrite HH|].
  intros Write' ω'.
  rewrite !(Handle_classified StringWidth Quote FormatTime FormatFloat
              FormatDuration FuncForPC slack World _ h r σ _ ls Hls).
  done.
Qed.

(** X21. [Handle] never looks at the threshold of the handler: with any
    other threshold, or none, it returns the same error and leaves the
    same store and the same world. A record that [Enabled] rejects is
    written by [Handle] all the same, as through a handler that enables
    every level; dropping it is left to the caller. *)
Theorem Handle_ignores_threshold (h : CLIHandler.t) (level : option Level)
    (r : Record.t) (σ : Store.t) (ω : World) :
  Handle (atThreshold level h) r σ ω = Handle h r σ ω
  ∧ (∀ l, Enabled (atThreshold None h) l = true)
  ∧ (∀ t l, Enabled (atThreshold (Some t) h) l = bool_decide (t ≤ l)).
Proof.
  split; [|done].
  destruct h. reflexivity.
Qed.

End write.

Lemma Handle_one_write_witness :
  (Demo.Handle (Scenario.handlerAt Scenario.base O)
     (Demo.record LevelWarn [String_ "k" "v"]) Scenario.base []).2
  = [(Other 1, "[WRN] login k=v" +:+ String Handler.newline "")].
Proof.
  pose proof (Handle_one_write Demo.StringWidth Demo.Quote Demo.FormatTime
                Demo.FormatFloat Demo.FormatDuration Demo.FuncForPC Demo.slack
                Demo.World Demo.Write (Scenario.handlerAt Scenario.base O)
                (Demo.record LevelWarn [String_ "k" "v"]) Scenario.base []
                (default LevelStyle.zero
                   (levelStyleFor Scenario.base
                      (Style.Level (StyleOps.readStyle Scenario.base O)) LevelWarn))) as H.
  cbv zeta in H.
  destruct H as (_ & H & _).
  - done.
  - done.
  - by vm_compute.
  - vm_compute. reflexivity.
  - vm_compute. congruence.
  - etrans; [exact H|]. vm_compute. reflexivity.
Defined.

End WriteFacts.
